(** * A shallow embedding of scipy/optimize/_linprog.py

    The two-phase tableau simplex solver ([_get_basics], [lpsimplex],
    [_linprog_simplex]) is transcribed as executable Rocq functions, with
    its entry point [linprog] and the pivot [_pivot] of the superseded
    [_simplex].  [_simplex] itself calls names the module never binds
    ([argmin], [argmax], [zeros], [Inf]) and the two sample callbacks only
    print; they are not transcribed.

    Conventions of the embedding:
    - a float64 cell is an exact rational ([Q], kept in lowest terms by the
      arithmetic below); rounding is outside the model.  Bounds additionally
      range over the two infinities ([bound]); [nan] is not an input;
    - a Python exception is a value [Raise e] of the error monad [exc];
    - a 2-D ndarray is a [mat]: its column count and its list of rows, each
      row holding that many cells; constraint matrices are two-dimensional
      float arrays by their type;
    - the language and library are those the file was written for
      (Python 2, numpy 1.7): [zip] returns a list, an integer-valued float
      indexes an array, and [np.argsort] is stable on the short arrays met
      here;
    - the tableau, mutated in place by the source, is passed explicitly;
    - calls of the observer and of the engine are recorded in an event log
      (monad [run]); the observer only observes; printing ([disp]) is not
      modelled. *)

From Stdlib Require Import String DecimalString.
From Stdlib Require Import QArith Qabs ZArith List Bool Lia Arith Sorted.
From Stdlib Require Import Ascii Permutation.
Import ListNotations.
Local Open Scope Z_scope.

(** ** Python exceptions *)

Inductive exn : Type := IndexError | ValueError | TypeError | KeyError.

Inductive exc (A : Type) : Type :=
| Ok (a : A)
| Raise (e : exn).
Arguments Ok {A} a.
Arguments Raise {A} e.

Definition ebind {A B} (m : exc A) (k : A -> exc B) : exc B :=
  match m with
  | Ok a => k a
  | Raise e => Raise e
  end.

Declare Scope exc_scope.
Delimit Scope exc_scope with exc.
Notation "x <- m ;; k" := (ebind m (fun x => k))
  (at level 61, m at next level, right associativity) : exc_scope.
Notation "' pat <- m ;; k" := (ebind m (fun x => match x with pat => k end))
  (at level 61, pat pattern, m at next level, right associativity) : exc_scope.

(** [for x in xs: s = body x s], stopping at the first exception. *)
Fixpoint efold {A S} (body : A -> S -> exc S) (xs : list A) (s : S) : exc S :=
  match xs with
  | [] => Ok s
  | x :: xs' => ebind (body x s) (efold body xs')
  end.

(** [range(n)] *)
Definition range (n : nat) : list nat := seq 0 n.

(** ** Numbers *)

Definition qadd (a b : Q) : Q := Qred (a + b).
Definition qsub (a b : Q) : Q := Qred (a - b).
Definition qmul (a b : Q) : Q := Qred (a * b).
Definition qdiv (a b : Q) : Q := Qred (a / b).
Definition qneg (a : Q) : Q := Qred (- a).
Definition qabs (a : Q) : Q := Qred (Qabs a).

Definition qeqb (a b : Q) : bool := Qeq_bool a b.
Definition qleb (a b : Q) : bool := Qle_bool a b.
Definition qltb (a b : Q) : bool := negb (Qle_bool b a).

(** ** Arrays *)

(** A 2-D ndarray of shape [(length rows, ncols)]. *)
Record mat : Type := Mat { ncols : nat; rows : list (list Q) }.

Definition nrows (t : mat) : nat := length (rows t).

(** [v[-1]] of a row *)
Definition rhs (r : list Q) : Q := last r 0%Q.

(** [tableau[:, col]] *)
Definition column (t : mat) (col : nat) : list Q :=
  map (fun r => nth col r 0%Q) (rows t).

(** [(v == a).sum()] *)
Definition count_eq (a : Q) (v : list Q) : nat :=
  length (filter (fun c => qeqb c a) v).

(** [np.nonzero(v)[0][0]]: the first index holding a nonzero cell. *)
Fixpoint first_nonzero (v : list Q) : exc nat :=
  match v with
  | [] => Raise IndexError
  | c :: v' => if qeqb c 0 then ebind (first_nonzero v') (fun i => Ok (S i))
               else Ok 0%nat
  end.

(** ** _get_basics *)

(** The test of line 164 on one column. *)
Definition is_basic (t : mat) (col : nat) : bool :=
  (count_eq 1 (column t col) =? 1)%nat &&
  (Z.of_nat (count_eq 0 (column t col)) =? Z.of_nat (nrows t) - 1).

(** One turn of the loop over [col]. *)
Definition get_basics_step (t : mat) (col : nat)
    (acc : list nat * list Q) : exc (list nat * list Q) :=
  if is_basic t col then
    (nonzero_row <- first_nonzero (removelast (column t col)) ;;
     Ok (fst acc ++ [col],
         snd acc ++ [rhs (nth nonzero_row (rows t) [])]))%exc
  else Ok acc.

Definition _get_basics (t : mat) : exc (list nat * list Q) :=
  efold (get_basics_step t) (range (ncols t - 1)) ([], []).

(** [l[i] = a], for an index in range *)
Definition set_nth {A} (i : nat) (a : A) (l : list A) : list A :=
  firstn i l ++ a :: skipn (S i) l.

(** The solution read-out that follows every call of [_get_basics]:
    [x.fill(0.0)], then the basic values of the columns below [n], stopping
    at the first basic column that is not a structural one. *)
Fixpoint fill_solution (n : nat) (basic_i : list nat) (basic_val : list Q)
    (x : list Q) : list Q :=
  match basic_i, basic_val with
  | i :: bi, v :: bv =>
      if (i <? n)%nat
      then fill_solution n bi bv (set_nth i v x)
      else x
  | _, _ => x
  end.

Definition zeros (n : nat) : list Q := repeat 0%Q n.

Definition read_solution (n : nat) (b : list nat * list Q) : list Q :=
  fill_solution n (fst b) (snd b) (zeros n).

(** ** The event log *)

(** The keyword arguments handed to the observer, with the solution vector
    [xk] it receives as first argument. *)
Record payload : Type := Payload {
  p_xk : list Q;
  p_tableau : mat;
  p_iter : Z;
  p_vars : list string;
  p_pivot : nat * nat;
  p_phase : Z;
  p_basics : list (nat * Q);
  p_complete : bool
}.

Inductive event : Type :=
| Observe (p : payload)                       (* callback(x, **kwargs) *)
| Invoke (phase : Z) (nit0 : Z) (t : mat).    (* a call of lpsimplex *)

(** A computation that logs events and may raise. *)
Definition run (A : Type) : Type := (list event * exc A)%type.

Definition rret {A} (a : A) : run A := ([], Ok a).
Definition lift {A} (m : exc A) : run A := ([], m).
Definition emit (ev : event) : run unit := ([ev], Ok tt).

Definition rbind {A B} (m : run A) (k : A -> run B) : run B :=
  match snd m with
  | Ok a => (fst m ++ fst (k a), snd (k a))
  | Raise e => (fst m, Raise e)
  end.

Declare Scope run_scope.
Delimit Scope run_scope with run.
Notation "x <- m ;; k" := (rbind m (fun x => k))
  (at level 61, m at next level, right associativity) : run_scope.
Notation "' pat <- m ;; k" := (rbind m (fun x => match x with pat => k end))
  (at level 61, pat pattern, m at next level, right associativity) : run_scope.

(** ** lpsimplex *)

(** [np.argmin(v)]: the first index of the least cell. *)
Fixpoint argmin_from (v : list Q) (i : nat) (best : nat) (bv : Q) : nat :=
  match v with
  | [] => best
  | c :: v' => if qltb c bv then argmin_from v' (S i) i c
               else argmin_from v' (S i) best bv
  end.

Definition argmin (v : list Q) : exc nat :=
  match v with
  | [] => Raise ValueError
  | c :: v' => Ok (argmin_from v' 1 0 c)
  end.

(** [np.argsort(v)], as the stable insertion sort numpy runs on short
    arrays. *)
Fixpoint insert_by (key : nat -> Q) (i : nat) (l : list nat) : list nat :=
  match l with
  | [] => [i]
  | j :: l' => if qltb (key i) (key j) then i :: l
               else j :: insert_by key i l'
  end.

Definition argsort (v : list Q) : list nat :=
  fold_left (fun l i => insert_by (fun j => nth j v 0%Q) i l)
            (range (length v)) [].

(** [np.all(v >= -tol)] *)
Definition all_ge_neg_tol (tol : Q) (v : list Q) : bool :=
  forallb (fun c => qleb (qneg tol) c) v.

(** [np.all(tableau == tableau0)] *)
Fixpoint row_eqb (r r0 : list Q) : bool :=
  match r, r0 with
  | [], [] => true
  | a :: r', b :: r0' => qeqb a b && row_eqb r' r0'
  | _, _ => false
  end.

Fixpoint rows_eqb (t t0 : list (list Q)) : bool :=
  match t, t0 with
  | [], [] => true
  | r :: t', r0 :: t0' => row_eqb r r0 && rows_eqb t' t0'
  | _, _ => false
  end.

Definition mat_eqb (t t0 : mat) : bool := rows_eqb (rows t) (rows t0).

(** [tableau[-1,:-1]] *)
Definition objective_row (t : mat) : exc (list Q) :=
  match rows t with
  | [] => Raise IndexError
  | _ => Ok (removelast (last (rows t) []))
  end.

(** The ratio test of lines 298-320: the candidate pivot rows, best first. *)
Definition ratio_candidates (t : mat) (phase : Z) (pivcol : nat) : list nat :=
  let body := if phase =? 1 then firstn (nrows t - 2) (rows t)
              else firstn (nrows t - 1) (rows t) in
  let pivcol_sortorder := argsort (map (fun r => nth pivcol r 0%Q) body) in
  let row_quotient :=
    map (fun i => (i, nth pivcol (nth i (rows t) []) 0%Q,
                      rhs (nth i (rows t) []))) pivcol_sortorder in
  let row_quotient :=
    filter (fun q => qltb 0 (snd (fst q))) row_quotient in
  let row_quotient :=
    map (fun q => (fst (fst q), qdiv (snd q) (snd (fst q)))) row_quotient in
  map (fun k => fst (nth k row_quotient (0%nat, 0%Q)))
      (argsort (map snd row_quotient)).

(** The Gauss-Jordan pivot of lines 355-360. *)
Definition pivot (t : mat) (pivrow pivcol : nat) : mat :=
  let pivval := nth pivcol (nth pivrow (rows t) []) 0%Q in
  let prow := map (fun c => qdiv c pivval) (nth pivrow (rows t) []) in
  Mat (ncols t)
      (map (fun ir =>
              if (fst ir =? pivrow)%nat then prow
              else map (fun cp => qsub (fst cp)
                                    (qmul (snd cp) (nth pivcol (snd ir) 0%Q)))
                       (combine (snd ir) prow))
           (combine (range (nrows t)) (rows t))).

(** The column labels built when an observer is supplied (lines 278-285);
    a label missing from [index_to_varname] is a KeyError. *)
Definition format_d (i : nat) : string := NilEmpty.string_of_uint (Nat.to_uint i).

Definition index_to_varname (n n_slack n_artificial i : nat) : exc string :=
  if (i <? n)%nat then Ok ("x[" ++ format_d i ++ "]")%string
  else if (i <? n + n_slack)%nat then Ok ("s[" ++ format_d (i - n) ++ "]")%string
  else if (i <? n + n_slack + n_artificial)%nat
       then Ok ("a[" ++ format_d (i - n - n_slack) ++ "]")%string
  else Raise KeyError.

Definition column_headers (n n_slack n_artificial t_cols : nat) : exc (list string) :=
  (names <- efold (fun i acc => name <- index_to_varname n n_slack n_artificial i ;;
                                Ok (acc ++ [name]))
                  (range (t_cols - 1)) [] ;;
   Ok (names ++ ["RHS"%string]))%exc.

(** The local variables of [lpsimplex] that change from one iteration to the
    next.  [status = None] is Python's [None]. *)
Record lstate : Type := LState {
  tableau : mat;
  nit : Z;
  cycle : nat;
  status : option Z;
  message : string
}.

(** How the [while] loop was left: by [break] (with the status and message
    assigned just before it) or because its condition failed. *)
Inductive loop_exit : Type :=
| Broke (s : lstate) (st : Z) (msg : string)
| Fell (s : lstate).

Definition is_none {A} (o : option A) : bool :=
  match o with None => true | Some _ => false end.

Definition msg_unbounded : string :=
  "Optimization failed. The problem appears to be unbounded.".
Definition msg_iteration_limit : string := "Iteration limit reached.".
Definition msg_success : string := "Optimization terminated successfully.".

Section Engine.

Variables (n n_slack n_artificial : nat) (maxiter phase : Z)
          (callback : bool) (tol : Q).
Variable tableau0 : mat.
Variable headers : list string.

(** The body of the [while] loop, lines 289-362. *)
Definition iteration (s : lstate) : run loop_exit :=
  (let cycle1 :=
     if nit s >? 2 ^ Z.of_nat n
     then (if mat_eqb (tableau s) tableau0 then S (cycle s) else cycle s)
     else cycle s in
   obj <- lift (objective_row (tableau s)) ;;
   pivcol <- lift (argmin obj) ;;
   match nth_error (ratio_candidates (tableau s) phase pivcol) cycle1 with
   | None =>
       (* lines 321-328; the message of line 324 is overwritten at once *)
       rret (Broke (LState (tableau s) (nit s) cycle1 (Some 3) msg_unbounded)
                   3 msg_unbounded)
   | Some pivrow =>
       let cycle2 := if (0 <? cycle1)%nat then 0%nat else cycle1 in
       let status1 := if all_ge_neg_tol tol obj then Some 0 else status s in
       _ <- (if callback then
               b <- lift (_get_basics (tableau s)) ;;
               emit (Observe
                       {| p_xk := read_solution n b;
                          p_tableau := tableau s;
                          p_iter := nit s;
                          p_vars := headers;
                          p_pivot := (pivrow, pivcol);
                          p_phase := phase;
                          p_basics := combine (fst b) (snd b);
                          p_complete := negb (is_none status1) && (phase =? 2) |})
             else rret tt) ;;
       if is_none status1
       then rret (Fell (LState (pivot (tableau s) pivrow pivcol) (nit s + 1)
                               cycle2 status1 (message s)))
       else rret (Fell (LState (tableau s) (nit s) cycle2 status1 (message s)))
   end)%run.

(** [while nit < maxiter and status is None: ...].  [fuel] bounds the
    number of turns; [Z.to_nat (maxiter - nit)] turns always suffice, since
    a turn that does not end the loop increments [nit]. *)
Fixpoint simplex_loop (fuel : nat) (s : lstate) : run loop_exit :=
  if (nit s <? maxiter) && is_none (status s) then
    match fuel with
    | O => rret (Fell s)
    | S fuel' =>
        (e <- iteration s ;;
         match e with
         | Broke _ _ _ => rret e
         | Fell s' => simplex_loop fuel' s'
         end)%run
    end
  else rret (Fell s).

End Engine.

Record engine_result : Type := EngineResult {
  r_x : list Q;
  r_nit : Z;
  r_status : Z;
  r_message : string;
  r_tableau : mat     (* the caller's tableau, as the pivots left it *)
}.

(** Lines 257-380.  The status -1 assigned for a phase other than 1 or 2 is
    overwritten by line 272 before anything reads it. *)
Definition lpsimplex (t : mat) (n n_slack n_artificial : nat) (maxiter phase : Z)
    (callback : bool) (tol : Q) (nit0 : Z) : run engine_result :=
  (let status0 :=                                     (* lines 259-261 *)
     if negb ((phase =? 1) || (phase =? 2)) then Some (-1) else None in
   let status0 : option Z := None in                  (* line 272 *)
   headers <- (if callback
               then lift (column_headers n n_slack n_artificial (ncols t))
               else rret []) ;;
   e <- simplex_loop n maxiter phase callback tol t headers
          (Z.to_nat (maxiter - nit0)) (LState t nit0 0 status0 "") ;;
   let '(s, st, msg) :=
     match e with
     | Broke s st msg => (s, st, msg)
     | Fell s => if nit s >=? maxiter then (s, 1, msg_iteration_limit)
                 else (s, 0, msg_success)
     end in
   b <- lift (_get_basics (tableau s)) ;;
   rret (EngineResult (read_solution n b) (nit s) st msg (tableau s)))%run.

(** ** Bounds *)

(** A bound as the caller writes it: a real number or an infinity. *)
Inductive bound : Type := Fin (q : Q) | PInf | NInf.

(** A float that may also be [nan] (only [0 * inf] produces one here). *)
Inductive npfloat : Type := Num (b : bound) | NaN.

(** The arrays [L] and [U]: zero-dimensional after line 674, one-dimensional
    otherwise. *)
Inductive larr : Type := Arr0 (v : npfloat) | Arr1 (l : list bound).

Definition is_neg_inf (b : bound) : bool :=
  match b with NInf => true | _ => false end.
Definition isinf (b : bound) : bool :=
  match b with Fin _ => false | _ => true end.
Definition isfinite (b : bound) : bool :=
  match b with Fin _ => true | _ => false end.

(** [a > b] *)
Definition bgtb (a b : bound) : bool :=
  match a, b with
  | Fin x, Fin y => qltb y x
  | Fin _, NInf => true
  | PInf, Fin _ => true
  | PInf, NInf => true
  | _, _ => false
  end.

(** [n * v] for a Python int [n >= 0] and a float [v] *)
Definition scale (n : nat) (v : bound) : npfloat :=
  match v with
  | Fin q => Num (Fin (qmul (inject_Z (Z.of_nat n)) q))
  | _ => if (n =? 0)%nat then NaN else Num v
  end.

(** [np.any(L == -np.inf)] *)
Definition any_neg_inf (L : larr) : bool :=
  match L with
  | Arr0 (Num NInf) => true
  | Arr0 _ => false
  | Arr1 l => existsb is_neg_inf l
  end.

(** [L[i]]; a 0-d array cannot be indexed. *)
Definition getitem (L : larr) (i : nat) : exc bound :=
  match L with
  | Arr0 _ => Raise IndexError
  | Arr1 l => match nth_error l i with
              | Some b => Ok b
              | None => Raise IndexError
              end
  end.

(** [L[i] = b], after [L[i]] has been read *)
Definition setitem (L : larr) (i : nat) (b : bound) : larr :=
  match L with
  | Arr0 v => Arr0 v
  | Arr1 l => Arr1 (set_nth i b l)
  end.

(** [np.concatenate([np.array([b]), L])]; 0-d arrays cannot be
    concatenated. *)
Definition concat_front (b : bound) (L : larr) : exc larr :=
  match L with
  | Arr0 _ => Raise ValueError
  | Arr1 l => Ok (Arr1 (b :: l))
  end.

(** One entry of a [bounds] pair: a number, an infinity or [None]. *)
Definition entry : Type := option bound.

Definition lower_of (e : entry) : bound :=
  match e with Some b => b | None => NInf end.
Definition upper_of (e : entry) : bound :=
  match e with Some b => b | None => PInf end.

(** The [try] block of lines 682-687.  The flag tells whether IndexError was
    raised; the assignments made before it stay. *)
Fixpoint read_bounds (bounds : list (list entry)) (idx : list nat)
    (L U : list bound) : list bound * list bound * bool :=
  match idx with
  | [] => (L, U, false)
  | i :: idx' =>
      if negb (length (nth 0 bounds []) =? 2)%nat then (L, U, true)
      else match nth_error (nth i bounds []) 0 with
           | None => (L, U, true)
           | Some lo =>
               let L' := set_nth i (lower_of lo) L in
               match nth_error (nth i bounds []) 1 with
               | None => (L', U, true)
               | Some hi => read_bounds bounds idx' L' (set_nth i (upper_of hi) U)
               end
           end
  end.

(** [n*bounds[0][k]] of lines 674-675 *)
Definition scaled_entry (n : nat) (bounds : list (list entry)) (k : nat)
  : exc npfloat :=
  match nth_error (nth 0 bounds []) k with
  | None => Raise IndexError
  | Some None => Raise TypeError
  | Some (Some v) => Ok (scale n v)
  end.

Definition msg_bounds_length : string :=
  "Invalid input.  Length of bounds is inconsistent with the length of c".
Definition msg_bounds_shape : string :=
  "Invalid input.  bounds must be a n x 2 sequence/array where n = len(c).".

(** Lines 668-691: [(status, message, L, U)] after the analysis of
    [bounds]. *)
Definition analyze_bounds (n : nat) (bounds : option (list (list entry)))
  : exc (Z * string * larr * larr) :=
  let L := repeat (Fin 0) n in
  let U := repeat PInf n in
  match bounds with
  | None => Ok (0, ""%string, Arr1 L, Arr1 U)
  | Some bs =>
      if (length bs =? 0)%nat then Ok (0, ""%string, Arr1 L, Arr1 U)
      else if (length bs =? 1)%nat then
        (l <- scaled_entry n bs 0 ;;
         u <- scaled_entry n bs 1 ;;
         Ok (0, ""%string, Arr0 l, Arr0 u))%exc
      else if negb (length bs =? n)%nat then
        Ok (-1, msg_bounds_length, Arr1 L, Arr1 U)
      else
        let '(L', U', failed) := read_bounds bs (range n) L U in
        if failed then Ok (-1, msg_bounds_shape, Arr1 L', Arr1 U')
        else Ok (0, ""%string, Arr1 L', Arr1 U')
  end.

(** ** _linprog_simplex: bounds normalisation *)

(** The variables lines 693-812 work on. *)
Record pstate : Type := PState {
  st : Z;                 (* status *)
  msg : string;           (* message *)
  L : larr;
  U : larr;
  cc : list Q;
  Aeq : mat;
  beq : list Q;
  Aub : mat;
  bub : list Q;
  f0 : Q
}.

Definition invalid (s : pstate) (m : string) : pstate :=
  PState (-1) m (L s) (U s) (cc s) (Aeq s) (beq s) (Aub s) (bub s) (f0 s).

(** The finite value of a bound that passed [np.isfinite]. *)
Definition fin_val (b : bound) : Q :=
  match b with Fin q => q | _ => 0%Q end.

(** [np.vstack([A, row])]: the column counts must agree. *)
Definition vstack (A : mat) (row : list Q) : exc mat :=
  if (ncols A =? length row)%nat then Ok (Mat (ncols A) (rows A ++ [row]))
  else Raise ValueError.

(** [np.hstack([np.zeros([A.shape[0],1]), A])] *)
Definition hstack_zero (A : mat) : mat :=
  Mat (S (ncols A)) (map (fun r => 0%Q :: r) (rows A)).

(** [A[:,i]] *)
Definition col_of (A : mat) (i : nat) : exc (list Q) :=
  if (i <? ncols A)%nat then Ok (column A i) else Raise IndexError.

(** [A[:,i] = v] *)
Definition set_col (A : mat) (i : nat) (v : list Q) : mat :=
  Mat (ncols A) (map (fun rv => set_nth i (snd rv) (fst rv)) (combine (rows A) v)).

Definition vsub (a b : list Q) : list Q :=
  map (fun p => qsub (fst p) (snd p)) (combine a b).

(** [b[:] = b[:] - v] under numpy's broadcasting: equal lengths, or a
    one-element [v]; anything else is a ValueError. *)
Definition bcast_sub (b v : list Q) : exc (list Q) :=
  if (length b =? length v)%nat then Ok (vsub b v)
  else match v with
       | [a] => Ok (map (fun x => qsub x a) b)
       | _ => Raise ValueError
       end.

Definition msg_lb_gt_ub (i : nat) : string :=
  ("Invalid input.  Lower bound " ++ format_d i ++
   " is greater than upper bound " ++ format_d i)%string.
Definition msg_lb_inf : string :=
  "Invalid input.  Lower bound may not be +infinity".
Definition msg_ub_inf : string :=
  "Invalid input.  Upper bound may not be -infinity".
Definition msg_ub_inf' : string :=
  "Invalid input.  Upper bound may not be -inf.".

(** Lines 724-727 and 731-734: a bound turned into a new row of [A_ub]. *)
Definition add_row (n i : nat) (coef rhs_val : Q) (s : pstate) : exc pstate :=
  (A <- vstack (Aub s) (set_nth i coef (zeros n)) ;;
   Ok (PState (st s) (msg s) (L s) (U s) (cc s) (Aeq s) (beq s)
              A (bub s ++ [rhs_val]) (f0 s)))%exc.

Definition set_L (i : nat) (b : bound) (s : pstate) : pstate :=
  PState (st s) (msg s) (setitem (L s) i b) (U s) (cc s) (Aeq s) (beq s)
         (Aub s) (bub s) (f0 s).
Definition set_U (i : nat) (b : bound) (s : pstate) : pstate :=
  PState (st s) (msg s) (L s) (setitem (U s) i b) (cc s) (Aeq s) (beq s)
         (Aub s) (bub s) (f0 s).

(** One turn of the first loop, lines 708-734. *)
Definition bounds_step (n i : nat) (s : pstate) : exc pstate :=
  (Li <- getitem (L s) i ;;
   Ui <- getitem (U s) i ;;
   let s1 := if bgtb Li Ui then invalid s (msg_lb_gt_ub i) else s in
   let s2 := if isinf Li && bgtb Li (Fin 0) then invalid s1 msg_lb_inf else s1 in
   let s3 := if isinf Ui && bgtb (Fin 0) Ui then invalid s2 msg_ub_inf else s2 in
   s4 <- (if isfinite Li && bgtb Li (Fin 0)
          then s' <- add_row n i (-1) (qneg (fin_val Li)) s3 ;;
               Ok (set_L i (Fin 0) s')
          else Ok s3) ;;
   if isfinite Ui
   then s' <- add_row n i 1 (fin_val Ui) s4 ;;
        Ok (set_U i PInf s')
   else Ok s4)%exc.

(** One turn of the second loop, lines 738-760. *)
Definition shift_step (i : nat) (s : pstate) : exc pstate :=
  (Li <- getitem (L s) i ;;
   s1 <- (if bgtb (Fin 0) Li then
            if isfinite Li && bgtb (Fin 0) Li then
              ce <- col_of (Aeq s) i ;;
              beq' <- bcast_sub (beq s) (map (fun a => qmul a (fin_val Li)) ce) ;;
              cu <- col_of (Aub s) i ;;
              bub' <- bcast_sub (bub s) (map (fun a => qmul a (fin_val Li)) cu) ;;
              Ok (PState (st s) (msg s) (L s) (U s) (cc s) (Aeq s) beq'
                         (Aub s) bub'
                         (qsub (f0 s) (qmul (nth i (cc s) 0%Q) (fin_val Li))))
            else
              ce0 <- col_of (Aeq s) 0 ;;
              ce <- col_of (Aeq s) i ;;
              cu0 <- col_of (Aub s) 0 ;;
              cu <- col_of (Aub s) i ;;
              Ok (PState (st s) (msg s) (L s) (U s)
                         (set_nth 0 (qsub (nth 0 (cc s) 0%Q) (nth i (cc s) 0%Q)) (cc s))
                         (set_col (Aeq s) 0 (vsub ce0 ce)) (beq s)
                         (set_col (Aub s) 0 (vsub cu0 cu)) (bub s) (f0 s))
          else Ok s) ;;
   Ui <- getitem (U s1) i ;;
   Ok (if isinf Ui then (if bgtb (Fin 0) Ui then invalid s1 msg_ub_inf' else s1)
       else s1))%exc.

(** Lines 693-703: the floor variable. *)
Definition add_floor (s : pstate) : exc pstate :=
  (L' <- concat_front (Fin 0) (L s) ;;
   U' <- concat_front PInf (U s) ;;
   Ok (PState (st s) (msg s) L' U' (0%Q :: cc s)
              (hstack_zero (Aeq s)) (beq s) (hstack_zero (Aub s)) (bub s) (f0 s)))%exc.

Definition msg_rows_eq : string :=
  "Invalid input.  The number of rows in A_eq must be equal to the number of values in b_eq".
Definition msg_rows_ub : string :=
  "Invalid input.  The number of rows in A_ub must be equal to the number of values in b_ub".
Definition msg_cols_eq : string :=
  "Invalid input.  Number of columns in A_eq must be equal to the size of c".
Definition msg_cols_ub : string :=
  "Invalid input.  Number of columns in A_ub must be equal to the size of c".

(** Lines 776-812: the shape checks.  The shape of a two-dimensional array
    always unpacks into rows and columns, so the [except] branches of lines
    781-783 and 789-791 are not met. *)
Definition check_shapes (n : nat) (s : pstate) : pstate :=
  let s1 := if negb (nrows (Aeq s) =? length (beq s))%nat
            then invalid s msg_rows_eq else s in
  let s2 := if negb (nrows (Aub s1) =? length (bub s1))%nat
            then invalid s1 msg_rows_ub else s1 in
  let s3 := if (0 <? ncols (Aeq s2))%nat && negb (ncols (Aeq s2) =? n)%nat
            then invalid s2 msg_cols_eq else s2 in
  if (0 <? ncols (Aub s3))%nat && negb (ncols (Aub s3) =? n)%nat
  then invalid s3 msg_cols_ub else s3.

(** Lines 661-664: [np.asarray(A) if not A is None else np.empty([0,n])] and
    [np.ravel(np.asarray(b)) if not b is None else np.empty([0])]. *)
Definition asarray2 (n : nat) (A : option mat) : mat :=
  match A with Some A' => A' | None => Mat n [] end.
Definition asarray1 (b : option (list Q)) : list Q :=
  match b with Some b' => b' | None => [] end.

(** Lines 652-812: everything done before the tableau is built.  Returns the
    variable count [n] (the floor variable included), whether a floor
    variable was added, and the normalised problem. *)
Definition normalize (c : list Q) (A_ub : option mat) (b_ub : option (list Q))
    (A_eq : option mat) (b_eq : option (list Q))
    (bounds : option (list (list entry))) : exc (nat * bool * pstate) :=
  (let n := length c in
   let Aeq0 := asarray2 n A_eq in
   let Aub0 := asarray2 n A_ub in
   let beq0 := asarray1 b_eq in
   let bub0 := asarray1 b_ub in
   '(st0, msg0, L0, U0) <- analyze_bounds n bounds ;;
   let s0 := PState st0 msg0 L0 U0 c Aeq0 beq0 Aub0 bub0 0%Q in
   '(n1, have_floor_variable, s1) <-
      (if any_neg_inf L0
       then s' <- add_floor s0 ;; Ok (S n, true, s')
       else Ok (n, false, s0)) ;;
   s2 <- efold (bounds_step n1) (range n1) s1 ;;
   s3 <- efold shift_step (range n1) s2 ;;
   Ok (n1, have_floor_variable, check_shapes n1 s3))%exc.

(** ** _linprog_simplex: the tableau and the two phases *)

(** [if len(b) > 0: T[r0:r1,:n] = A]: the block must have [n] columns (its
    row count was checked against [len(b)] before). *)
Definition check_block (n : nat) (b : list Q) (A : mat) : exc unit :=
  if (0 <? length b)%nat && negb (ncols A =? n)%nat then Raise ValueError
  else Ok tt.

(** Lines 846-849: a row with a negative right-hand side changes sign. *)
Definition sign_normalize (row : list Q * Q) : list Q * Q :=
  if qltb (snd row) 0
  then (map (fun a => qmul a (-1)) (fst row), qmul (snd row) (-1))
  else row.

(** The [i]-th row of the identity of size [k]. *)
Definition unit_row (k i : nat) : list Q := set_nth i 1%Q (zeros k).

(** Lines 822-860.  Row [i < m] is
    [coefficients | slack | artificial | b]; then the objective row and the
    pseudo-objective row. *)
Definition build_tableau (n : nat) (s : pstate) : exc mat :=
  (let mub := length (bub s) in
   let meq := length (beq s) in
   let m := (mub + meq)%nat in
   let n_slack := mub in
   let n_artificial := m in
   _ <- check_block n (beq s) (Aeq s) ;;
   _ <- check_block n (bub s) (Aub s) ;;
   let eq_rows :=
     map (fun ab => (fst ab ++ zeros n_slack, snd ab))
         (combine (rows (Aeq s)) (beq s)) in
   let ub_rows :=
     map (fun jab => (snd (fst jab) ++ unit_row n_slack (fst (fst jab)), snd jab))
         (combine (combine (range mub) (rows (Aub s))) (bub s)) in
   let signed := map sign_normalize (eq_rows ++ ub_rows) in
   let constraint_rows :=
     map (fun ir => fst (snd ir) ++ unit_row n_artificial (fst ir) ++ [snd (snd ir)])
         (combine (range m) signed) in
   let objective := cc s ++ zeros (n_slack + n_artificial) ++ [f0 s] in
   let pseudo0 := zeros (n + n_slack) ++ repeat 1%Q n_artificial ++ [0%Q] in
   let pseudo := fold_left vsub constraint_rows pseudo0 in
   Ok (Mat (n + n_slack + n_artificial + 1)
           (constraint_rows ++ [objective; pseudo])))%exc.

(** Modelled from the spec: the class [Result] of scipy/optimize/optimize.py,
    which is not among the sources.  Its fields are those of the spec's
    optimization result record, as lines 818 and 931 fill them. *)
Record Result : Type := MkResult {
  x : list Q;
  fun_ : Q;
  res_nit : Z;
  res_status : Z;
  res_message : string;
  success : bool
}.

(** [T[-1,-1]] *)
Definition corner (t : mat) : Q := rhs (last (rows t) []).

(** Lines 884-886: drop the pseudo-objective row and the artificial
    columns. *)
Definition drop_phase1 (n n_slack n_artificial : nat) (t : mat) : mat :=
  Mat (ncols t - n_artificial)
      (map (fun r => firstn (n + n_slack) r ++ skipn (n + n_slack + n_artificial) r)
           (removelast (rows t))).

Definition msg_infeasible : string :=
  "Optimization Failed.  Unable to find a feasible starting point.".

(** [ma.array(L, mask=np.isinf(L), fill_value=0.0).filled()] *)
Definition masked (l : list bound) : list Q :=
  map (fun b => if isinf b then 0%Q else fin_val b) l.

(** Lines 907-916: the changes of variable are undone. *)
Definition restore (n : nat) (have_floor_variable : bool) (Lf : larr)
    (xs : list Q) : list Q :=
  match Lf with
  | Arr0 _ => xs       (* a 0-d [L] gets here only with [n = 0]: [xs] is empty *)
  | Arr1 l =>
      let x1 := map (fun p => qadd (fst p) (snd p)) (combine xs (masked l)) in
      if have_floor_variable then
        tl (fold_left
              (fun acc i =>
                 if isinf (nth i l (Fin 0))
                 then set_nth i (qsub (nth i acc 0%Q) (nth 0 acc 0%Q)) acc
                 else acc)
              (seq 1 (n - 1)) x1)
      else x1
  end.

Definition _linprog_simplex (c : list Q) (A_ub : option mat) (b_ub : option (list Q))
    (A_eq : option mat) (b_eq : option (list Q))
    (bounds : option (list (list entry))) (maxiter : Z) (callback : bool)
    (tol : Q) : run Result :=
  ('(n, have_floor_variable, s) <- lift (normalize c A_ub b_ub A_eq b_eq bounds) ;;
   if negb (st s =? 0) then
     rret (MkResult (zeros (length (cc s))) 0 0 (st s) (msg s) false)
   else
     let n_slack := length (bub s) in
     let n_artificial := (length (bub s) + length (beq s))%nat in
     T <- lift (build_tableau n s) ;;
     _ <- emit (Invoke 1 0 T) ;;
     r1 <- lpsimplex T n n_slack n_artificial maxiter 1 callback tol 0 ;;
     let '(T2, status2, message2) :=
       if qltb (qabs (corner (r_tableau r1))) tol
       then (drop_phase1 n n_slack n_artificial (r_tableau r1),
             r_status r1, r_message r1)
       else (r_tableau r1, 2, msg_infeasible) in
     if negb (status2 =? 0) then
       rret (MkResult (r_x r1) (qneg (corner T2)) (r_nit r1) status2 message2 false)
     else
       _ <- emit (Invoke 2 (r_nit r1) T2) ;;
       r2 <- lpsimplex T2 n n_slack n_artificial maxiter 2 callback tol (r_nit r1) ;;
       rret (MkResult (restore n have_floor_variable (L s) (r_x r2))
                      (qneg (corner (r_tableau r2))) (r_nit r2) (r_status r2)
                      (r_message r2) (r_status r2 =? 0)))%run.

(** The default tolerance and iteration cap of the signature. *)
Definition default_tol : Q := 1 # 1000000000000.
Definition default_maxiter : Z := 1000.

(** ** Specification-side vocabulary *)

(** [tableau[r, col]] *)
Definition cell (t : mat) (r col : nat) : Q := nth col (nth r (rows t) []) 0%Q.

(** Cell [r] of the vector is 1 and every other cell is 0. *)
Definition unit_vec (v : list Q) (r : nat) : Prop :=
  (r < length v)%nat /\ nth r v 0%Q == 1 /\
  forall r', (r' < length v)%nat -> r' <> r -> nth r' v 0%Q == 0.

(** Column [col] is a unit column of the whole tableau, objective rows
    included, with its 1 in row [r]. *)
Definition unit_at (t : mat) (col r : nat) : Prop := unit_vec (column t col) r.

(** The basis reading as the specification words it: one cell of the
    column equals 1, and the other cells, those of the [k] objective rows
    left aside, equal 0. *)
Definition spec_basic (k : nat) (t : mat) (col : nat) : Prop :=
  exists r, (r < nrows t)%nat /\ cell t r col == 1 /\
    forall r', (r' < nrows t - k)%nat -> r' <> r -> cell t r' col == 0.

(** The optimality test of line 333 on a tableau. *)
Definition optimal (tol : Q) (t : mat) : bool :=
  match objective_row t with
  | Ok obj => all_ge_neg_tol tol obj
  | Raise _ => false
  end.

(** The value [_get_basics] reports for a basic column. *)
Definition basic_value (t : mat) (col : nat) : Q :=
  match first_nonzero (removelast (column t col)) with
  | Ok r => rhs (nth r (rows t) [])
  | Raise _ => 0%Q
  end.

(** What the observer may see of a run that starts at tableau [t] and
    iteration [k]: each call carries the tableau of its iteration before the
    pivot, the next call carries that tableau pivoted at the coordinates just
    announced, and nothing follows a call made on an optimal tableau. *)
Fixpoint observed (phase : Z) (tol : Q) (t : mat) (k : Z) (log : list event)
  : Prop :=
  match log with
  | [] => True
  | Observe p :: log' =>
      p_tableau p = t /\ p_iter p = k /\ p_phase p = phase /\
      p_complete p = ((phase =? 2) && optimal tol t) /\
      if optimal tol t then log' = []
      else observed phase tol (pivot t (fst (p_pivot p)) (snd (p_pivot p)))
                    (k + 1) log'
  | Invoke _ _ _ :: _ => False
  end.

(** A [bounds] pair with each [None] written out as the infinity it stands
    for. *)
Definition explicit_pair (p : list entry) : list entry :=
  match p with
  | lo :: hi :: rest => Some (lower_of lo) :: Some (upper_of hi) :: rest
  | [lo] => [Some (lower_of lo)]
  | [] => []
  end.

(** The rows of variable [i] in closed form, with their right-hand sides:
    [-x_i <= -lb] for a finite [lb > 0], then [x_i <= ub] for a finite [ub].
    The first loop is shown to append exactly these. *)
Definition bound_rows (n i : nat) (lb ub : bound) : list (list Q * Q) :=
  (if isfinite lb && bgtb lb (Fin 0)
   then [(set_nth i (-1)%Q (zeros n), qneg (fin_val lb))] else []) ++
  (if isfinite ub then [(set_nth i 1%Q (zeros n), fin_val ub)] else []).

(** The same as the specification words it: a row for every finite
    [lb <> 0]. *)
Definition spec_bound_rows (n i : nat) (lb ub : bound) : list (list Q * Q) :=
  (if isfinite lb && negb (qeqb (fin_val lb) 0)
   then [(set_nth i (-1)%Q (zeros n), qneg (fin_val lb))] else []) ++
  (if isfinite ub then [(set_nth i 1%Q (zeros n), fin_val ub)] else []).

(** [L] and [U] after the first loop. *)
Definition reset_lower (lb : bound) : bound :=
  if isfinite lb && bgtb lb (Fin 0) then Fin 0 else lb.
Definition reset_upper (ub : bound) : bound :=
  if isfinite ub then PInf else ub.

(** All the rows of the first loop, for the variables [k], [k+1], ... with
    lower bounds [l] and upper bounds [u]. *)
Definition bound_rows_from (n k : nat) (l u : list bound) : list (list Q * Q) :=
  flat_map (fun ilu => bound_rows n (fst ilu) (fst (snd ilu)) (snd (snd ilu)))
           (combine (seq k (length l)) (combine l u)).

(** The three bound checks of lines 709-720. *)
Definition violates (lb ub : bound) : bool :=
  bgtb lb ub || (isinf lb && bgtb lb (Fin 0)) || (isinf ub && bgtb (Fin 0) ub).

(** *** Inputs the solver rejects *)

(** [bounds] is a non-empty sequence whose length is neither 1 nor [n]. *)
Definition bounds_of_wrong_length (n : nat) (bounds : option (list (list entry)))
  : Prop :=
  exists bs, bounds = Some bs /\ length bs <> 0%nat /\ length bs <> 1%nat /\
             length bs <> n.

(** [bounds] is absent or empty: every variable is bounded by [0, +inf). *)
Definition default_bounds (bounds : option (list (list entry))) : Prop :=
  bounds = None \/ bounds = Some [].

(** The mismatches looked for by lines 794-812. *)
Definition shapes_mismatch (n : nat) (A_ub : option mat) (b_ub : option (list Q))
    (A_eq : option mat) (b_eq : option (list Q)) : Prop :=
  nrows (asarray2 n A_eq) <> length (asarray1 b_eq) \/
  nrows (asarray2 n A_ub) <> length (asarray1 b_ub) \/
  ((0 < ncols (asarray2 n A_eq))%nat /\ ncols (asarray2 n A_eq) <> n) \/
  ((0 < ncols (asarray2 n A_ub))%nat /\ ncols (asarray2 n A_ub) <> n).

(** Both constraint matrices have [n] columns and as many rows as their
    right-hand sides have entries. *)
Definition shapes_conform (n : nat) (A_ub : option mat) (b_ub : option (list Q))
    (A_eq : option mat) (b_eq : option (list Q)) : Prop :=
  ncols (asarray2 n A_eq) = n /\ nrows (asarray2 n A_eq) = length (asarray1 b_eq) /\
  ncols (asarray2 n A_ub) = n /\ nrows (asarray2 n A_ub) = length (asarray1 b_ub).

(** A pair with [lb > ub], [lb = +inf] or [ub = -inf]. *)
Definition bad_pair (p : list entry) : bool :=
  violates (lower_of (nth 0 p None)) (upper_of (nth 1 p None)).

(** [bounds] holds one well-formed pair for each of [n <> 1] variables, and
    one of the pairs is bad. *)
Definition bounds_with_bad_pair (n : nat) (bounds : option (list (list entry)))
  : Prop :=
  exists bs, bounds = Some bs /\ length bs = n /\ n <> 1%nat /\
             Forall (fun p => length p = 2%nat) bs /\ existsb bad_pair bs = true.

(** ** _pivot *)

(** [_pivot(H, ip, jp)], lines 492-520, the pivot of the superseded
    [_simplex].  The result pairs the returned flag with [H] as the call
    leaves it; [H[ip,jp]] of an index out of range is an IndexError. *)
Definition _pivot (H : mat) (ip jp : nat) : exc (bool * mat) :=
  match nth_error (rows H) ip with
  | None => Raise IndexError
  | Some r =>
      match nth_error r jp with
      | None => Raise IndexError
      | Some piv =>
          if qeqb piv 0 then Ok (false, H)
          else
            let prow := map (fun c => qdiv c piv) r in       (* H[ip,:] /= piv *)
            Ok (true,
                Mat (ncols H)
                    (map (fun ir =>
                            if (fst ir =? ip)%nat then prow
                            else map (fun cp => qsub (fst cp)
                                                  (qmul (nth jp (snd ir) 0%Q) (snd cp)))
                                     (combine (snd ir) prow))
                         (combine (range (nrows H)) (rows H))))
      end
  end.

(** ** linprog *)

(** [str.lower()] on an ASCII string *)
Definition lower_ascii (a : ascii) : ascii :=
  let k := nat_of_ascii a in
  if ((65 <=? k) && (k <=? 90))%nat then ascii_of_nat (k + 32) else a.

Fixpoint lower (s : string) : string :=
  match s with
  | EmptyString => EmptyString
  | String a s' => String (lower_ascii a) (lower s')
  end.

(** The entries of [options] that [_linprog_simplex] names; [disp] only
    prints, and any other key is absorbed by [**unknown_options]. *)
Record solver_options : Type := Options {
  opt_maxiter : option Z;
  opt_tol : option Q
}.

(** [**options] against the defaults of the signature of line 525;
    [options = None] is the empty dictionary. *)
Definition option_maxiter (o : option solver_options) : Z :=
  match o with
  | Some (Options (Some k) _) => k
  | _ => default_maxiter
  end.

Definition option_tol (o : option solver_options) : Q :=
  match o with
  | Some (Options _ (Some q)) => q
  | _ => default_tol
  end.

(** Lines 1102-1111. *)
Definition linprog (c : list Q) (A_eq : option mat) (b_eq : option (list Q))
    (A_ub : option mat) (b_ub : option (list Q))
    (bounds : option (list (list entry))) (method : string) (callback : bool)
    (options : option solver_options) : run Result :=
  let meth := lower method in
  if String.eqb meth "simplex"
  then _linprog_simplex c A_ub b_ub A_eq b_eq bounds (option_maxiter options)
                        callback (option_tol options)
  else lift (Raise ValueError).

(** ** Further vocabulary *)

(** Every row holds [ncols t] cells. *)
Definition rect (t : mat) : Prop :=
  Forall (fun r => length r = ncols t) (rows t).

(** The number of rows the ratio test looks at: all but the objective
    rows (line 298). *)
Definition nbody (t : mat) (phase : Z) : nat :=
  if phase =? 1 then (nrows t - 2)%nat else (nrows t - 1)%nat.

(** The quotient the ratio test computes for row [r] (line 313). *)
Definition ratio (t : mat) (pivcol r : nat) : Q :=
  qdiv (rhs (nth r (rows t) [])) (cell t r pivcol).

(** The keys of the listed indices ascend. *)
Definition ascending (key : nat -> Q) (l : list nat) : Prop :=
  StronglySorted (fun a b => (key a <= key b)%Q) l.

Definition qsum (l : list Q) : Q := fold_right Qplus 0%Q l.

(** The normalised problem has [n] variables and well-shaped blocks. *)
Definition conformant (n : nat) (s : pstate) : Prop :=
  length (cc s) = n /\
  rect (Aeq s) /\ ncols (Aeq s) = n /\ nrows (Aeq s) = length (beq s) /\
  rect (Aub s) /\ ncols (Aub s) = n /\ nrows (Aub s) = length (bub s).

(** The constraint rows of [build_tableau] before the artificial block is
    attached. *)
Definition signed_rows (s : pstate) : list (list Q * Q) :=
  map sign_normalize
      (map (fun ab => (fst ab ++ zeros (length (bub s)), snd ab))
           (combine (rows (Aeq s)) (beq s)) ++
       map (fun jab => (snd (fst jab) ++ unit_row (length (bub s)) (fst (fst jab)),
                        snd jab))
           (combine (combine (range (length (bub s))) (rows (Aub s))) (bub s))).

(** What lines 668-812 keep true of the problem being normalised: the
    status is 0 or -1, and [c] and a one-dimensional [L] have one cell for
    each of the [n1] variables. *)
Definition normal_inv (n1 : nat) (s : pstate) : Prop :=
  (st s = 0 \/ st s = -1) /\ length (cc s) = n1 /\
  match L s with
  | Arr1 l => length l = n1
  | Arr0 _ => n1 = 0%nat
  end.

(** Line 693: a floor variable is added when, after the analysis of
    [bounds], some lower bound is -inf. *)
Definition floor_variable_added (n : nat) (bounds : option (list (list entry)))
  : bool :=
  match analyze_bounds n bounds with
  | Ok (_, _, L0, _) => any_neg_inf L0
  | Raise _ => false
  end.

(** ** Properties of _get_basics *)

Lemma column_length (t : mat) (col : nat) : length (column t col) = nrows t.
Proof. unfold column, nrows. apply length_map. Qed.

Lemma nth_column (t : mat) (col r : nat) : nth r (column t col) 0%Q = cell t r col.
Proof.
  unfold column, cell.
  rewrite <- (map_nth (fun row => nth col row 0%Q) (rows t) [] r).
  destruct col; reflexivity.
Qed.

Lemma qeqb_true (a b : Q) : qeqb a b = true <-> a == b.
Proof. unfold qeqb. apply Qeq_bool_iff. Qed.

Lemma qeqb_false (a b : Q) : qeqb a b = false <-> ~ a == b.
Proof.
  rewrite <- qeqb_true. destruct (qeqb a b); split; intro H;
    try discriminate; try reflexivity; try (intro; discriminate).
  exfalso; apply H; reflexivity.
Qed.

Lemma count_eq_le (a : Q) (v : list Q) : (count_eq a v <= length v)%nat.
Proof. unfold count_eq. apply filter_length_le. Qed.

Lemma count_eq_cons (a c : Q) (v : list Q) :
  count_eq a (c :: v) = ((if qeqb c a then 1 else 0) + count_eq a v)%nat.
Proof. unfold count_eq. simpl. destruct (qeqb c a); reflexivity. Qed.

(** A vector whose cells are all 0 holds no 1. *)
Lemma count_all_zero (v : list Q) :
  count_eq 0 v = length v ->
  count_eq 1 v = 0%nat /\ forall r, (r < length v)%nat -> nth r v 0%Q == 0.
Proof.
  induction v as [|c v IH]; intro H.
  - split; [reflexivity | simpl; intros; lia].
  - rewrite count_eq_cons in H. simpl length in H.
    pose proof (count_eq_le 0 v) as Hle.
    destruct (qeqb c 0) eqn:Hc; [|simpl in H; lia].
    destruct IH as [IH1 IH2]; [simpl in H; lia|].
    split.
    + rewrite count_eq_cons, IH1.
      destruct (qeqb c 1) eqn:Hc1; [|reflexivity].
      apply qeqb_true in Hc, Hc1. rewrite Hc in Hc1. discriminate.
    + intros [|r] Hr; simpl.
      * now apply qeqb_true.
      * apply IH2. simpl in Hr. lia.
Qed.

Lemma all_zero_count (v : list Q) :
  (forall r, (r < length v)%nat -> nth r v 0%Q == 0) ->
  count_eq 0 v = length v /\ count_eq 1 v = 0%nat.
Proof.
  induction v as [|c v IH]; intro H.
  - split; reflexivity.
  - assert (Hc : c == 0) by (apply (H 0%nat); simpl; lia).
    destruct IH as [IH0 IH1].
    { intros r Hr. apply (H (S r)). simpl. lia. }
    rewrite !count_eq_cons, IH0, IH1.
    assert (E0 : qeqb c 0 = true) by now apply qeqb_true.
    assert (E1 : qeqb c 1 = false).
    { apply qeqb_false. rewrite Hc. discriminate. }
    rewrite E0, E1. split; reflexivity.
Qed.

(** The counting test of line 164 holds exactly of the unit vectors. *)
Lemma count_unit_vec (v : list Q) :
  (count_eq 1 v = 1%nat /\ Z.of_nat (count_eq 0 v) = Z.of_nat (length v) - 1)
  <-> exists r, unit_vec v r.
Proof.
  induction v as [|c v IH].
  - split.
    + intros [H _]. discriminate.
    + intros [r [Hr _]]. simpl in Hr. lia.
  - rewrite !count_eq_cons. simpl length.
    pose proof (count_eq_le 0 v) as Hle0.
    split.
    + intros [H1 H0].
      destruct (qeqb c 1) eqn:Hc1; destruct (qeqb c 0) eqn:Hc0.
      * apply qeqb_true in Hc0, Hc1. rewrite Hc0 in Hc1. discriminate.
      * destruct (count_all_zero v) as [_ Hz]; [lia|].
        exists 0%nat. split; [simpl; lia|]. split; [now apply qeqb_true|].
        intros [|r'] Hr' Hne; [congruence|]. simpl. apply Hz. simpl in Hr'. lia.
      * destruct IH as [IH _]. destruct IH as [r [Hr [Hr1 Hrz]]]; [split; lia|].
        exists (S r). split; [simpl; lia|]. split; [exact Hr1|].
        intros [|r'] Hr' Hne; simpl.
        -- now apply qeqb_true.
        -- apply Hrz; [simpl in Hr'; lia | congruence].
      * destruct (count_all_zero v) as [Hz _]; [lia|]. simpl in H1. lia.
    + intros [r [Hr [Hr1 Hrz]]].
      destruct r as [|r].
      * simpl in Hr1.
        destruct (all_zero_count v) as [Hz0 Hz1].
        { intros r' Hr'. apply (Hrz (S r')); [simpl; lia | discriminate]. }
        assert (E1 : qeqb c 1 = true) by now apply qeqb_true.
        assert (E0 : qeqb c 0 = false).
        { apply qeqb_false. rewrite Hr1. discriminate. }
        rewrite E1, E0, Hz0, Hz1. split; lia.
      * assert (Hc : c == 0) by (apply (Hrz 0%nat); [simpl; lia | discriminate]).
        assert (E0 : qeqb c 0 = true) by now apply qeqb_true.
        assert (E1 : qeqb c 1 = false).
        { apply qeqb_false. rewrite Hc. discriminate. }
        rewrite E0, E1.
        destruct IH as [_ IH]. destruct IH as [IH1 IH0].
        { exists r. split; [simpl in Hr; lia|]. split; [exact Hr1|].
          intros r' Hr' Hne. apply (Hrz (S r')); [simpl; lia | congruence]. }
        split; lia.
Qed.

Lemma is_basic_unit (t : mat) (col : nat) :
  is_basic t col = true <-> exists r, unit_at t col r.
Proof.
  unfold is_basic, unit_at. rewrite <- count_unit_vec, column_length.
  rewrite andb_true_iff, Nat.eqb_eq, Z.eqb_eq. reflexivity.
Qed.

Lemma first_nonzero_at (w : list Q) (r : nat) :
  (r < length w)%nat -> ~ nth r w 0%Q == 0 ->
  (forall r', (r' < r)%nat -> nth r' w 0%Q == 0) ->
  first_nonzero w = Ok r.
Proof.
  revert r. induction w as [|c w IH]; intros r Hr Hnz Hz.
  - simpl in Hr. lia.
  - simpl. destruct r as [|r].
    + simpl in Hnz. apply qeqb_false in Hnz. now rewrite Hnz.
    + assert (E : qeqb c 0 = true).
      { apply qeqb_true. apply (Hz 0%nat). lia. }
      rewrite E, (IH r); [reflexivity | simpl in Hr; lia | exact Hnz |].
      intros r' Hr'. apply (Hz (S r')). lia.
Qed.

Lemma nth_removelast (w : list Q) (r : nat) :
  (r < length w - 1)%nat -> nth r (removelast w) 0%Q = nth r w 0%Q.
Proof.
  intro Hr. rewrite removelast_firstn_len, nth_firstn.
  replace (r <? pred (length w))%nat with true; [reflexivity|].
  symmetry. apply Nat.ltb_lt. lia.
Qed.

(** A unit column whose 1 is above the last row has its first nonzero cell,
    the last row left aside, in the row of the 1. *)
Lemma first_nonzero_unit (v : list Q) (r : nat) :
  unit_vec v r -> (r < length v - 1)%nat ->
  first_nonzero (removelast v) = Ok r.
Proof.
  intros [Hr [H1 Hz]] Hlast.
  apply first_nonzero_at.
  - rewrite removelast_firstn_len, length_firstn. lia.
  - rewrite nth_removelast by exact Hlast. rewrite H1. discriminate.
  - intros r' Hr'. rewrite nth_removelast by lia. apply Hz; lia.
Qed.

Lemma unit_vec_unique (v : list Q) (r r' : nat) :
  unit_vec v r -> unit_vec v r' -> r = r'.
Proof.
  intros [Hr [H1 Hz]] [Hr' [H1' _]].
  destruct (Nat.eq_dec r' r) as [E|E]; [congruence|].
  specialize (Hz r' Hr' E). rewrite H1' in Hz. discriminate.
Qed.

Lemma efold_get_basics (t : mat) (cols : list nat) (acc : list nat * list Q) :
  (forall col, In col cols -> is_basic t col = true ->
     exists r, first_nonzero (removelast (column t col)) = Ok r) ->
  efold (get_basics_step t) cols acc =
  Ok (fst acc ++ filter (is_basic t) cols,
      snd acc ++ map (basic_value t) (filter (is_basic t) cols)).
Proof.
  revert acc. induction cols as [|col cols IH]; intros acc H.
  - simpl. rewrite !app_nil_r. now destruct acc.
  - simpl. unfold get_basics_step at 1.
    destruct (is_basic t col) eqn:Hb.
    + destruct (H col (or_introl eq_refl) Hb) as [r Hrow].
      rewrite Hrow. simpl. rewrite IH by (intros; apply H; [now right | assumption]).
      simpl. unfold basic_value at 2. rewrite Hrow, <- !app_assoc. reflexivity.
    + simpl. apply IH. intros; apply H; [now right | assumption].
Qed.

(** *** The solution read-out *)

Lemma nth_set_nth (i j : nat) (a : Q) (xs : list Q) :
  (i < length xs)%nat ->
  nth j (set_nth i a xs) 0%Q = if (j =? i)%nat then a else nth j xs 0%Q.
Proof.
  intro Hi. unfold set_nth.
  destruct (Nat.eqb_spec j i) as [->|Hne].
  - rewrite app_nth2; rewrite length_firstn, Nat.min_l by lia; [|lia].
    now rewrite Nat.sub_diag.
  - destruct (Nat.lt_ge_cases j i) as [Hlt|Hge].
    + rewrite app_nth1 by (rewrite length_firstn; lia).
      rewrite nth_firstn. apply Nat.ltb_lt in Hlt. now rewrite Hlt.
    + rewrite app_nth2; rewrite length_firstn, Nat.min_l by lia; [|lia].
      destruct (j - i)%nat as [|k] eqn:E; [lia|]. cbn [nth].
      rewrite nth_skipn. f_equal. lia.
Qed.

Lemma length_set_nth {A} (i : nat) (a : A) (xs : list A) :
  (i < length xs)%nat -> length (set_nth i a xs) = length xs.
Proof.
  intro Hi. unfold set_nth.
  rewrite length_app, length_firstn. cbn [length]. rewrite length_skipn. lia.
Qed.

Lemma fill_solution_nth (n : nat) (f : nat -> Q) (idx : list nat) :
  StronglySorted lt idx ->
  forall xs j, length xs = n -> (j < n)%nat ->
    nth j (fill_solution n idx (map f idx) xs) 0%Q =
    if in_dec Nat.eq_dec j idx then f j else nth j xs 0%Q.
Proof.
  induction 1 as [|i idx Hs IH Hall]; intros xs j Hlen Hj.
  - reflexivity.
  - cbn [fill_solution map].
    rewrite Forall_forall in Hall.
    destruct (Nat.ltb_spec i n) as [Hi|Hi].
    + rewrite IH by (try rewrite length_set_nth; lia).
      rewrite nth_set_nth by lia.
      destruct (in_dec Nat.eq_dec j idx) as [Hin|Hnin];
        destruct (in_dec Nat.eq_dec j (i :: idx)) as [Hin'|Hnin'];
        try reflexivity.
      * exfalso. apply Hnin'. now right.
      * destruct Hin' as [->|Hin']; [|contradiction].
        now rewrite Nat.eqb_refl.
      * destruct (Nat.eqb_spec j i) as [->|_]; [|reflexivity].
        exfalso. apply Hnin'. now left.
    + destruct (in_dec Nat.eq_dec j (i :: idx)) as [[->|Hin]|_];
        [lia | | reflexivity].
      specialize (Hall j Hin). lia.
Qed.

Lemma sorted_seq (a n : nat) : StronglySorted lt (seq a n).
Proof.
  revert a. induction n as [|n IH]; intro a; simpl; constructor.
  - apply IH.
  - apply Forall_forall. intros k Hk. apply in_seq in Hk. lia.
Qed.

Lemma sorted_filter (P : nat -> bool) (l : list nat) :
  StronglySorted lt l -> StronglySorted lt (filter P l).
Proof.
  induction 1 as [|i l Hs IH Hall]; simpl; [constructor|].
  destruct (P i); [|exact IH].
  constructor; [exact IH|].
  rewrite Forall_forall in *. intros k Hk. apply filter_In in Hk. now apply Hall.
Qed.

(** C7, as amended.  On a tableau in which no column is a unit column with
    its 1 in the last row, [_get_basics] returns, and a column (the RHS
    column apart) is reported as basic exactly when one of its cells is 1 and
    all its other cells, those of the objective rows included, are 0.  The
    value reported for it is the RHS cell of the row holding the 1; in the
    solution read from the result every basic structural column gets that
    value and every other column gets 0. *)
Theorem get_basics_reads_unit_columns (t : mat) :
  (forall col, (col < ncols t - 1)%nat -> ~ unit_at t col (nrows t - 1)) ->
  exists idx vals,
    _get_basics t = Ok (idx, vals) /\
    (forall col, In col idx <->
                 (col < ncols t - 1)%nat /\ exists r, unit_at t col r) /\
    (forall k col, nth_error idx k = Some col ->
       exists r, unit_at t col r /\
                 nth_error vals k = Some (rhs (nth r (rows t) []))) /\
    (forall n j r, (j < n)%nat -> (j < ncols t - 1)%nat -> unit_at t j r ->
       nth j (read_solution n (idx, vals)) 0%Q = rhs (nth r (rows t) [])) /\
    (forall n j, (j < n)%nat -> ~ In j idx ->
       nth j (read_solution n (idx, vals)) 0%Q = 0%Q).
Proof.
  intro Hlast.
  assert (Hrow : forall col r, (col < ncols t - 1)%nat -> unit_at t col r ->
                   first_nonzero (removelast (column t col)) = Ok r).
  { intros col r Hcol Hu. apply first_nonzero_unit; [exact Hu|].
    pose proof (column_length t col) as Hlen.
    destruct (Nat.eq_dec r (nrows t - 1)) as [->|Hne];
      [| destruct Hu as [Hr _]; lia].
    exfalso. now apply (Hlast col Hcol). }
  assert (Hval : forall col r, (col < ncols t - 1)%nat -> unit_at t col r ->
                   basic_value t col = rhs (nth r (rows t) [])).
  { intros col r Hcol Hu. unfold basic_value. now rewrite (Hrow col r Hcol Hu). }
  set (idx := filter (is_basic t) (range (ncols t - 1))).
  assert (Hin : forall col, In col idx <->
                  (col < ncols t - 1)%nat /\ exists r, unit_at t col r).
  { intro col. unfold idx, range. rewrite filter_In, in_seq, is_basic_unit.
    split; intros [H1 H2]; (split; [lia | exact H2]). }
  exists idx, (map (basic_value t) idx).
  split; [|split; [exact Hin|split; [|split]]].
  - unfold _get_basics. rewrite efold_get_basics; [reflexivity|].
    intros col Hcol Hb. apply in_seq in Hcol. apply is_basic_unit in Hb.
    destruct Hb as [r Hu]. exists r. apply Hrow; [lia | exact Hu].
  - intros k col Hk.
    assert (Hc : In col idx) by (eapply nth_error_In; exact Hk).
    apply Hin in Hc. destruct Hc as [Hcol [r Hu]].
    exists r. split; [exact Hu|].
    rewrite nth_error_map, Hk. simpl. now rewrite (Hval col r Hcol Hu).
  - intros n j r Hj Hcol Hu. unfold read_solution. cbn [fst snd].
    rewrite fill_solution_nth;
      [| apply sorted_filter, sorted_seq | apply repeat_length | exact Hj].
    destruct (in_dec Nat.eq_dec j idx) as [_|Hn]; [now apply Hval|].
    exfalso. apply Hn, Hin. split; [exact Hcol | now exists r].
  - intros n j Hj Hn. unfold read_solution. cbn [fst snd].
    rewrite fill_solution_nth;
      [| apply sorted_filter, sorted_seq | apply repeat_length | exact Hj].
    destruct (in_dec Nat.eq_dec j idx) as [Hy|_]; [contradiction|].
    unfold zeros. apply nth_repeat.
Qed.

(** The theorem applies to the tableau of [x + s = 2], [y = 3] with objective
    value 5: both structural columns are basic. *)
Lemma get_basics_reads_unit_columns_witness :
  let t := Mat 4 [[1; 0; 1; 2]; [0; 1; 0; 3]; [0; 0; 4; -5]]%Q in
  (forall col, (col < ncols t - 1)%nat -> ~ unit_at t col (nrows t - 1)) /\
  exists idx vals,
    _get_basics t = Ok (idx, vals) /\
    (forall col, In col idx <->
                 (col < ncols t - 1)%nat /\ exists r, unit_at t col r).
Proof.
  intro t.
  assert (H : forall col, (col < ncols t - 1)%nat -> ~ unit_at t col (nrows t - 1)).
  { intros col Hcol [_ [H1 _]].
    destruct col as [|[|[|col]]]; simpl in Hcol; try lia;
      vm_compute in H1; discriminate. }
  split; [exact H|].
  destruct (get_basics_reads_unit_columns t H) as (idx & vals & H1 & H2 & _).
  exists idx, vals. split; assumption.
Defined.

(** C7, as stated, fails on the tableau of [x + s = 5] with objective row
    [2x]: column 0 holds one 1 and, the objective row left aside, nothing
    else, yet it is not reported as basic, because its objective cell is
    not 0. *)
Lemma get_basics_counts_objective_rows :
  let t := Mat 3 [[1; 1; 5]; [2; 0; 0]]%Q in
  _get_basics t = Ok ([1%nat], [5%Q]) /\
  spec_basic 1 t 0 /\
  ~ (forall idx vals, _get_basics t = Ok (idx, vals) ->
       forall col, (col < ncols t - 1)%nat -> (In col idx <-> spec_basic 1 t col)).
Proof.
  intro t.
  assert (Hs : spec_basic 1 t 0).
  { exists 0%nat. split; [vm_compute; lia|]. split; [reflexivity|].
    intros r' Hr' Hne. vm_compute in Hr'. lia. }
  split; [reflexivity|]. split; [exact Hs|].
  intro H. specialize (H [1%nat] [5%Q] eq_refl 0%nat).
  destruct H as [_ H]; [vm_compute; lia|].
  destruct (H Hs) as [E|[]]. discriminate.
Qed.

(** ** Properties of the engine *)

Lemma rbind_ok {A B} (m : run A) (k : A -> run B) (l : list event) (a : A) :
  m = (l, Ok a) -> rbind m k = (l ++ fst (k a), snd (k a)).
Proof. intros ->. reflexivity. Qed.

Lemma rbind_raise {A B} (m : run A) (k : A -> run B) (l : list event) (e : exn) :
  m = (l, Raise e) -> rbind m k = (l, Raise e).
Proof. intros ->. reflexivity. Qed.

(** The outcome of one iteration, case by case. *)
Lemma iteration_cases (n : nat) (phase : Z) (callback : bool) (tol : Q)
    (t0 : mat) (hd : list string) (s : lstate) :
  let cycle1 := if nit s >? 2 ^ Z.of_nat n
                then (if mat_eqb (tableau s) t0 then S (cycle s) else cycle s)
                else cycle s in
  let out := iteration n phase callback tol t0 hd s in
  (exists e, out = ([], Raise e)) \/
  (exists obj pivcol,
      objective_row (tableau s) = Ok obj /\ argmin obj = Ok pivcol /\
      nth_error (ratio_candidates (tableau s) phase pivcol) cycle1 = None /\
      out = ([], Ok (Broke (LState (tableau s) (nit s) cycle1 (Some 3) msg_unbounded)
                           3 msg_unbounded))) \/
  (exists obj pivcol pivrow log,
      objective_row (tableau s) = Ok obj /\ argmin obj = Ok pivcol /\
      nth_error (ratio_candidates (tableau s) phase pivcol) cycle1 = Some pivrow /\
      (if callback
       then exists b, _get_basics (tableau s) = Ok b /\
              log = [Observe
                       {| p_xk := read_solution n b;
                          p_tableau := tableau s;
                          p_iter := nit s;
                          p_vars := hd;
                          p_pivot := (pivrow, pivcol);
                          p_phase := phase;
                          p_basics := combine (fst b) (snd b);
                          p_complete :=
                            negb (is_none (if all_ge_neg_tol tol obj then Some 0
                                           else status s))
                            && (phase =? 2) |}]
       else log = []) /\
      let cycle2 := if (0 <? cycle1)%nat then 0%nat else cycle1 in
      out = (log,
             Ok (Fell (if is_none (if all_ge_neg_tol tol obj then Some 0 else status s)
                       then LState (pivot (tableau s) pivrow pivcol) (nit s + 1)
                                   cycle2
                                   (if all_ge_neg_tol tol obj then Some 0 else status s)
                                   (message s)
                       else LState (tableau s) (nit s) cycle2
                                   (if all_ge_neg_tol tol obj then Some 0 else status s)
                                   (message s))))).
Proof.
  intros cycle1 out. subst out. unfold iteration. fold cycle1.
  unfold rbind, lift, rret, emit. cbn [fst snd].
  destruct (objective_row (tableau s)) as [obj|e] eqn:Hobj;
    [|left; exists e; reflexivity].
  cbn [fst snd app].
  destruct (argmin obj) as [pivcol|e] eqn:Harg;
    [|left; exists e; reflexivity].
  cbn [fst snd app].
  destruct (nth_error (ratio_candidates (tableau s) phase pivcol) cycle1)
    as [pivrow|] eqn:Hrow.
  - destruct callback.
    + destruct (_get_basics (tableau s)) as [b|e] eqn:Hb.
      * right; right. exists obj, pivcol, pivrow. eexists.
        do 3 (split; [first [reflexivity | assumption]|]).
        split; [exists b; split; reflexivity|].
        cbn. destruct (all_ge_neg_tol tol obj); [reflexivity|].
        destruct (status s); reflexivity.
      * left; exists e; reflexivity.
    + right; right. exists obj, pivcol, pivrow, [].
      do 4 (split; [first [reflexivity | assumption]|]).
      cbn. destruct (all_ge_neg_tol tol obj); [reflexivity|].
      destruct (status s); reflexivity.
  - right; left. exists obj, pivcol.
    do 3 (split; [first [reflexivity | assumption]|]). reflexivity.
Qed.

Section EngineFacts.

Variables (n : nat) (maxiter phase : Z) (callback : bool) (tol : Q).
Variables (t0 : mat) (hd : list string).

Local Abbreviation loop := (simplex_loop n maxiter phase callback tol t0 hd).
Local Abbreviation iter := (iteration n phase callback tol t0 hd).

Lemma simplex_loop_step (fuel : nat) (s : lstate) :
  (nit s <? maxiter) && is_none (status s) = true ->
  loop (S fuel) s =
  rbind (iter s) (fun e => match e with
                           | Broke _ _ _ => rret e
                           | Fell s' => loop fuel s'
                           end).
Proof. intro H. cbn [simplex_loop]. now rewrite H. Qed.

Lemma simplex_loop_stop (fuel : nat) (s : lstate) :
  (nit s <? maxiter) && is_none (status s) = false ->
  loop fuel s = rret (Fell s).
Proof. intro H. destruct fuel; cbn [simplex_loop]; now rewrite H. Qed.

(** Fuel beyond [maxiter - nit] changes nothing: the loop never ends for
    want of fuel. *)
Lemma simplex_loop_fuel (fuel : nat) :
  forall s, maxiter - nit s <= Z.of_nat fuel -> loop (S fuel) s = loop fuel s.
Proof.
  induction fuel as [|fuel IH]; intros s Hfuel.
  - destruct ((nit s <? maxiter) && is_none (status s)) eqn:Hc.
    + apply andb_true_iff in Hc. destruct Hc as [Hc _].
      apply Z.ltb_lt in Hc. lia.
    + now rewrite !simplex_loop_stop by exact Hc.
  - destruct ((nit s <? maxiter) && is_none (status s)) eqn:Hc;
      [| now rewrite !simplex_loop_stop by exact Hc].
    rewrite !simplex_loop_step by exact Hc.
    destruct (iteration_cases n phase callback tol t0 hd s)
      as [[e He] | [(obj & pc & _ & _ & _ & He) | (obj & pc & pr & lg & _ & _ & _ & _ & He)]].
    + now rewrite !(rbind_raise _ _ _ _ He).
    + now rewrite !(rbind_ok _ _ _ _ He).
    + cbv zeta in He. rewrite !(rbind_ok _ _ _ _ He).
      destruct (is_none (if all_ge_neg_tol tol obj then Some 0 else status s)) eqn:Hn.
      * rewrite IH by (cbn [nit]; lia). reflexivity.
      * rewrite !(simplex_loop_stop _ (LState _ _ _ _ _)); [reflexivity | |];
          cbn [status]; rewrite Hn; apply andb_false_r.
Qed.

(** The loop is left by [break] only with status 3. *)
Lemma simplex_loop_broke (fuel : nat) :
  forall s s' st m, snd (loop fuel s) = Ok (Broke s' st m) -> st = 3.
Proof.
  induction fuel as [|fuel IH]; intros s s' st m H.
  - cbn [simplex_loop] in H.
    destruct ((nit s <? maxiter) && is_none (status s)); discriminate.
  - destruct ((nit s <? maxiter) && is_none (status s)) eqn:Hc;
      [| rewrite simplex_loop_stop in H by exact Hc; discriminate].
    rewrite simplex_loop_step in H by exact Hc.
    destruct (iteration_cases n phase callback tol t0 hd s)
      as [[e He] | [(obj & pc & _ & _ & _ & He) | (obj & pc & pr & lg & _ & _ & _ & _ & He)]].
    + rewrite (rbind_raise _ _ _ _ He) in H. discriminate.
    + rewrite (rbind_ok _ _ _ _ He) in H. cbn in H. congruence.
    + cbv zeta in He. rewrite (rbind_ok _ _ _ _ He) in H. cbn [snd] in H.
      eapply IH. exact H.
Qed.

(** Only observer calls are logged by the loop. *)
Lemma simplex_loop_observes (fuel : nat) :
  forall s ev, In ev (fst (loop fuel s)) -> exists p, ev = Observe p.
Proof.
  induction fuel as [|fuel IH]; intros s ev H.
  - cbn [simplex_loop] in H.
    destruct ((nit s <? maxiter) && is_none (status s)); destruct H.
  - destruct ((nit s <? maxiter) && is_none (status s)) eqn:Hc;
      [| rewrite simplex_loop_stop in H by exact Hc; destruct H].
    rewrite simplex_loop_step in H by exact Hc.
    destruct (iteration_cases n phase callback tol t0 hd s)
      as [[e He] | [(obj & pc & _ & _ & _ & He) | (obj & pc & pr & lg & _ & _ & _ & Hlg & He)]].
    + rewrite (rbind_raise _ _ _ _ He) in H. destruct H.
    + rewrite (rbind_ok _ _ _ _ He) in H. destruct H.
    + cbv zeta in He. rewrite (rbind_ok _ _ _ _ He) in H. cbn [fst] in H.
      apply in_app_or in H. destruct H as [H|H]; [|eapply IH; exact H].
      destruct callback.
      * destruct Hlg as (b & _ & ->). destruct H as [<-|[]]. eexists; reflexivity.
      * subst lg. destruct H.
Qed.

End EngineFacts.

Lemma rbind_snd {A B} (m m' : run A) (k k' : A -> run B) :
  snd m = snd m' -> (forall a, snd (k a) = snd (k' a)) ->
  snd (rbind m k) = snd (rbind m' k').
Proof.
  intros Hm Hk. unfold rbind. rewrite <- Hm.
  destruct (snd m); [apply Hk | reflexivity].
Qed.

Lemma rbind_snd_ok {A B} (m : run A) (k : A -> run B) (b : B) :
  snd (rbind m k) = Ok b -> exists a, snd m = Ok a /\ snd (k a) = Ok b.
Proof.
  unfold rbind. destruct (snd m) as [a|e]; [|discriminate].
  intro H. exists a. split; [reflexivity | exact H].
Qed.

(** A phase other than 1 is handled as phase 2 (line 298). *)
Lemma ratio_candidates_phase (t : mat) (phase : Z) (pivcol : nat) :
  phase <> 1 -> ratio_candidates t phase pivcol = ratio_candidates t 2 pivcol.
Proof.
  intro H. unfold ratio_candidates.
  apply Z.eqb_neq in H. rewrite H. reflexivity.
Qed.

Lemma iteration_phase (n : nat) (phase : Z) (callback : bool) (tol : Q)
    (t0 : mat) (hd : list string) (s : lstate) :
  phase <> 1 ->
  snd (iteration n phase callback tol t0 hd s) =
  snd (iteration n 2 callback tol t0 hd s).
Proof.
  intro H. unfold iteration.
  apply rbind_snd; [reflexivity|]. intro obj.
  apply rbind_snd; [reflexivity|]. intro pivcol.
  rewrite (ratio_candidates_phase _ _ _ H).
  destruct (nth_error _ _); [|reflexivity].
  apply rbind_snd; [|reflexivity].
  destruct callback; [|reflexivity].
  apply rbind_snd; [reflexivity|]. reflexivity.
Qed.

Lemma simplex_loop_phase (n : nat) (maxiter phase : Z) (callback : bool)
    (tol : Q) (t0 : mat) (hd : list string) (fuel : nat) :
  phase <> 1 ->
  forall s, snd (simplex_loop n maxiter phase callback tol t0 hd fuel s) =
            snd (simplex_loop n maxiter 2 callback tol t0 hd fuel s).
Proof.
  intro H. induction fuel as [|fuel IH]; intro s; cbn [simplex_loop];
    destruct ((nit s <? maxiter) && is_none (status s)); try reflexivity.
  apply rbind_snd; [now apply iteration_phase|].
  intros [s' st m|s']; [reflexivity | apply IH].
Qed.

(** C9.  Whatever its arguments, [lpsimplex] returns status 0, 1 or 3, never
    -1: the status assigned for a phase other than 1 or 2 is overwritten
    before the loop.  With such a phase the engine runs as it does in
    Phase 2 and returns the same result. *)
Theorem lpsimplex_never_invalid_status (t : mat) (n n_slack n_artificial : nat)
    (maxiter phase : Z) (callback : bool) (tol : Q) (nit0 : Z) :
  (forall r,
     snd (lpsimplex t n n_slack n_artificial maxiter phase callback tol nit0) = Ok r ->
     r_status r = 0 \/ r_status r = 1 \/ r_status r = 3) /\
  (phase <> 1 ->
   snd (lpsimplex t n n_slack n_artificial maxiter phase callback tol nit0) =
   snd (lpsimplex t n n_slack n_artificial maxiter 2 callback tol nit0)).
Proof.
  split.
  - intros r H. unfold lpsimplex in H. cbv zeta in H.
    apply rbind_snd_ok in H. destruct H as (headers & _ & H).
    apply rbind_snd_ok in H. destruct H as (e & Hloop & H).
    destruct e as [s st m|s].
    + apply simplex_loop_broke in Hloop. subst st.
      apply rbind_snd_ok in H. destruct H as (b & _ & H).
      cbn in H. injection H as <-. cbn. auto.
    + destruct (nit s >=? maxiter);
        apply rbind_snd_ok in H; destruct H as (b & _ & H);
        cbn in H; injection H as <-; cbn; auto.
  - intro H. unfold lpsimplex. cbv zeta.
    apply rbind_snd; [reflexivity|]. intro headers.
    apply rbind_snd; [now apply simplex_loop_phase|]. intro e. reflexivity.
Qed.

(** Called with phase 7 on the tableau of [max x, x <= 4], the engine pivots
    once and ends with status 0, as it does for phase 2. *)
Lemma lpsimplex_never_invalid_status_witness :
  let t := Mat 3 [[1; 1; 4]; [-1; 0; 0]]%Q in
  exists r, snd (lpsimplex t 1 1 0 1000 7 false default_tol 0) = Ok r /\
            r_nit r = 1 /\
            (r_status r = 0 \/ r_status r = 1 \/ r_status r = 3) /\
            snd (lpsimplex t 1 1 0 1000 7 false default_tol 0) =
            snd (lpsimplex t 1 1 0 1000 2 false default_tol 0).
Proof.
  intro t.
  destruct (lpsimplex_never_invalid_status t 1 1 0 1000 7 false default_tol 0)
    as [H1 H2].
  eexists. split; [vm_compute; reflexivity|].
  split; [reflexivity|].
  split; [apply H1; vm_compute; reflexivity|].
  apply H2. discriminate.
Defined.

(** What the engine does with a tableau that is optimal on entry: status 0
    when the ratio test on the column picked by argmin finds a row, status 3
    when it finds none. *)
Lemma optimal_tableau_outcome (t : mat) (n n_slack n_artificial : nat)
    (maxiter phase : Z) (tol : Q) (nit0 : Z) (obj : list Q) (pivcol : nat)
    (r : engine_result) :
  nit0 < maxiter -> nit0 <= 2 ^ Z.of_nat n ->
  objective_row t = Ok obj -> argmin obj = Ok pivcol ->
  all_ge_neg_tol tol obj = true ->
  snd (lpsimplex t n n_slack n_artificial maxiter phase false tol nit0) = Ok r ->
  r_nit r = nit0 /\ r_tableau r = t /\
  r_status r = match ratio_candidates t phase pivcol with [] => 3 | _ :: _ => 0 end.
Proof.
  intros Hlt Hcyc Hobj Harg Hopt H. unfold lpsimplex in H. cbv zeta in H.
  apply rbind_snd_ok in H. destruct H as (headers & _ & H).
  apply rbind_snd_ok in H. destruct H as (e & Hloop & H).
  destruct (Z.to_nat (maxiter - nit0)) as [|fuel] eqn:Hfuel; [lia|].
  rewrite simplex_loop_step in Hloop
    by (cbn [nit status is_none]; apply andb_true_iff; split;
        [now apply Z.ltb_lt | reflexivity]).
  apply rbind_snd_ok in Hloop. destruct Hloop as (e1 & Hit & Hloop).
  unfold iteration in Hit. cbn [nit tableau cycle status message] in Hit.
  replace (nit0 >? 2 ^ Z.of_nat n) with false in Hit
    by (symmetry; rewrite Z.gtb_ltb; apply Z.ltb_ge; exact Hcyc).
  apply rbind_snd_ok in Hit. destruct Hit as (obj' & Ho & Hit).
  cbn in Ho. rewrite Hobj in Ho. injection Ho as <-.
  apply rbind_snd_ok in Hit. destruct Hit as (pivcol' & Ha & Hit).
  cbn in Ha. rewrite Harg in Ha. injection Ha as <-.
  rewrite Hopt in Hit.
  destruct (ratio_candidates t phase pivcol) as [|pivrow rest].
  - cbn in Hit. injection Hit as <-. cbn in Hloop. injection Hloop as <-.
    apply rbind_snd_ok in H. destruct H as (b & _ & H).
    cbn in H. injection H as <-. cbn. auto.
  - cbn in Hit. injection Hit as <-.
    rewrite simplex_loop_stop in Hloop
      by (cbn [status is_none]; apply andb_false_r).
    cbn in Hloop. injection Hloop as <-. cbn [nit] in H.
    replace (nit0 >=? maxiter) with false in H
      by (symmetry; destruct (Z.geb_spec nit0 maxiter); [lia | reflexivity]).
    apply rbind_snd_ok in H. destruct H as (b & _ & H).
    cbn in H. injection H as <-. cbn. auto.
Qed.

(** C1.  The optimality test of line 333 is reached only after the ratio
    test of lines 318-328, so a tableau whose objective row is already
    >= -tol everywhere is reported unbounded (status 3) when the column
    picked by argmin has no positive cell.  Three runs show it: the Phase 2
    tableau reached on the example of the docstring, whose objective row is
    [0 0 6 0 1]; the Phase 1 tableau of [min x, x >= 0]; and the solver on
    that problem, whose optimum is x = 0. *)
Theorem lpsimplex_optimal_tableau_reported_unbounded :
  let t2 := Mat 6 [[0; 0; 7; 1; 3; 39]; [-1; 1; 2; 0; 1; 10];
                   [0; 0; 6; 0; 1; 22]]%Q in
  let t1 := Mat 2 [[1; 0]; [0; 0]]%Q in
  (optimal default_tol t2 = true /\
   exists r, snd (lpsimplex t2 3 2 2 1000 2 false default_tol 5) = Ok r /\
             r_status r = 3 /\ r_nit r = 5 /\ r_tableau r = t2) /\
  (optimal default_tol t1 = true /\
   exists r, snd (lpsimplex t1 1 0 0 1000 1 false default_tol 0) = Ok r /\
             r_status r = 3 /\ r_nit r = 0) /\
  snd (_linprog_simplex [1%Q] None None None None None 1000 false default_tol)
  = Ok (MkResult [0%Q] 0 0 3 msg_unbounded false).
Proof.
  intros t2 t1. split; [|split].
  - split; [reflexivity|]. eexists. split; [vm_compute; reflexivity|].
    repeat split.
  - split; [reflexivity|]. eexists. split; [vm_compute; reflexivity|].
    repeat split.
  - vm_compute. reflexivity.
Qed.

(** With an iteration cap that is already reached, the engine returns at
    once: status 1, no pivot, the tableau untouched. *)
Lemma lpsimplex_cap_reached (t : mat) (n n_slack n_artificial : nat)
    (maxiter phase : Z) (callback : bool) (tol : Q) (nit0 : Z) (r : engine_result) :
  maxiter <= nit0 ->
  snd (lpsimplex t n n_slack n_artificial maxiter phase callback tol nit0) = Ok r ->
  r_status r = 1 /\ r_nit r = nit0 /\ r_tableau r = t.
Proof.
  intros Hcap H. unfold lpsimplex in H. cbv zeta in H.
  apply rbind_snd_ok in H. destruct H as (headers & _ & H).
  apply rbind_snd_ok in H. destruct H as (e & Hloop & H).
  rewrite simplex_loop_stop in Hloop.
  2:{ cbn [nit]. apply andb_false_iff. left. apply Z.ltb_ge. exact Hcap. }
  cbn in Hloop. injection Hloop as <-. cbn [nit] in H.
  replace (nit0 >=? maxiter) with true in H
    by (symmetry; apply Z.geb_le; exact Hcap).
  apply rbind_snd_ok in H. destruct H as (b & _ & H).
  cbn in H. injection H as <-. cbn. auto.
Qed.

(** With an iteration cap of 0 the solver never reports success. *)
Lemma maxiter_zero_never_success (c : list Q) (A_ub : option mat)
    (b_ub : option (list Q)) (A_eq : option mat) (b_eq : option (list Q))
    (bounds : option (list (list entry))) (callback : bool) (tol : Q) (res : Result) :
  snd (_linprog_simplex c A_ub b_ub A_eq b_eq bounds 0 callback tol) = Ok res ->
  res_status res <> 0 /\ success res = false.
Proof.
  intro H. unfold _linprog_simplex in H.
  apply rbind_snd_ok in H. destruct H as ([[n fl] s] & _ & H).
  destruct (negb (st s =? 0)) eqn:Hst.
  - cbn in H. injection H as <-. cbn. split; [|reflexivity].
    apply negb_true_iff, Z.eqb_neq in Hst. exact Hst.
  - apply rbind_snd_ok in H. destruct H as (T & _ & H).
    apply rbind_snd_ok in H. destruct H as (u & _ & H).
    apply rbind_snd_ok in H. destruct H as (r1 & Hr1 & H).
    apply lpsimplex_cap_reached in Hr1; [|lia].
    destruct Hr1 as (Hs1 & _ & _).
    destruct (qltb (qabs (corner (r_tableau r1))) tol);
      [rewrite Hs1 in H|]; cbn in H; injection H as <-; cbn;
      split; [discriminate | reflexivity | discriminate | reflexivity].
Qed.

(** C2.  [min x] subject to [x <= 1] with an iteration cap of 0: Phase 1
    returns status 1 (iteration limit) without pivoting, and line 888 then
    overwrites it with status 2 (infeasible), because the pseudo-objective
    of the untouched tableau is -1.  The result reports an infeasible
    problem, not a reached iteration limit. *)
Theorem maxiter_zero_reported_infeasible :
  let T := Mat 4 [[1; 1; 1; 1]; [1; 0; 0; 0]; [-1; -1; 0; -1]]%Q in
  _linprog_simplex [1%Q] (Some (Mat 1 [[1%Q]])) (Some [1%Q]) None None None
                   0 false default_tol
  = ([Invoke 1 0 T], Ok (MkResult [0%Q] 1 0 2 msg_infeasible false)) /\
  snd (lpsimplex T 1 1 1 0 1 false default_tol 0)
  = Ok (EngineResult [0%Q] 0 1 msg_iteration_limit T).
Proof. intro T. split; vm_compute; reflexivity. Qed.

(** ** Properties of the bounds analysis *)

(** A one-element [bounds] makes [L] and [U] zero-dimensional (lines
    674-675 multiply the two entries by [n] instead of repeating them), and
    with at least one variable the normalisation cannot get past that. *)
Lemma normalize_single_pair_raises (c0 : Q) (c : list Q) (A_ub : option mat)
    (b_ub : option (list Q)) (A_eq : option mat) (b_eq : option (list Q))
    (pair : list entry) :
  exists e, normalize (c0 :: c) A_ub b_ub A_eq b_eq (Some [pair]) = Raise e.
Proof.
  unfold normalize, analyze_bounds. cbn [length Nat.eqb].
  destruct (scaled_entry (S (length c)) [pair] 0) as [l|e];
    [|exists e; reflexivity].
  destruct (scaled_entry (S (length c)) [pair] 1) as [u|e];
    [|exists e; reflexivity].
  cbn [ebind].
  destruct (any_neg_inf (Arr0 l)).
  - exists ValueError. reflexivity.
  - exists IndexError. reflexivity.
Qed.

(** C3.  With at least one variable, bounds given as a single pair never
    produce a result record: an exception leaves [_linprog_simplex] before
    any tableau is built.  On [min -x - 2y] subject to [x + y <= 4] the pair
    (0, inf) given once raises IndexError, while the same pair given for
    each of the two variables yields the optimum (0, 4). *)
Theorem single_pair_bounds_raise :
  (forall (c0 : Q) (c : list Q) A_ub b_ub A_eq b_eq (pair : list entry)
          maxiter callback tol,
     exists e, _linprog_simplex (c0 :: c) A_ub b_ub A_eq b_eq (Some [pair])
                                maxiter callback tol = ([], Raise e)) /\
  (let pair := [Some (Fin 0); Some PInf] in
   let A := Some (Mat 2 [[1; 1]]%Q) in
   let b := Some [4%Q] in
   _linprog_simplex [-1; -2]%Q A b None None (Some [pair]) 1000 false default_tol
   = ([], Raise IndexError) /\
   snd (_linprog_simplex [-1; -2]%Q A b None None (Some [pair; pair]) 1000 false
                         default_tol)
   = Ok (MkResult [0; 4]%Q (-8) 2 0 msg_success true)).
Proof.
  split.
  - intros. unfold _linprog_simplex.
    destruct (normalize_single_pair_raises c0 c A_ub b_ub A_eq b_eq pair) as [e He].
    exists e. rewrite He. reflexivity.
  - split; vm_compute; reflexivity.
Qed.

Lemma explicit_pair_length (p : list entry) :
  length (explicit_pair p) = length p.
Proof. destruct p as [|lo [|hi rest]]; reflexivity. Qed.

Lemma lower_of_explicit (p : list entry) :
  nth_error (explicit_pair p) 0 = option_map (fun lo => Some (lower_of lo)) (nth_error p 0).
Proof. destruct p as [|lo [|hi rest]]; reflexivity. Qed.

Lemma upper_of_explicit (p : list entry) :
  nth_error (explicit_pair p) 1 = option_map (fun hi => Some (upper_of hi)) (nth_error p 1).
Proof. destruct p as [|lo [|hi rest]]; reflexivity. Qed.

Lemma nth_explicit (bs : list (list entry)) (i : nat) :
  nth i (map explicit_pair bs) [] = explicit_pair (nth i bs []).
Proof. exact (map_nth explicit_pair bs [] i). Qed.

Lemma read_bounds_explicit (bs : list (list entry)) (idx : list nat) :
  forall Lb Ub, read_bounds (map explicit_pair bs) idx Lb Ub = read_bounds bs idx Lb Ub.
Proof.
  induction idx as [|i idx IH]; intros Lb Ub; [reflexivity|].
  cbn [read_bounds].
  rewrite !nth_explicit, explicit_pair_length, lower_of_explicit, upper_of_explicit.
  destruct (negb (length (nth 0 bs []) =? 2)%nat); [reflexivity|].
  destruct (nth_error (nth i bs []) 0) as [lo|]; [|reflexivity].
  destruct (nth_error (nth i bs []) 1) as [hi|]; [|reflexivity].
  cbn [option_map]. rewrite IH.
  destruct lo, hi; reflexivity.
Qed.

Lemma analyze_bounds_explicit (n : nat) (bs : list (list entry)) :
  length bs <> 1%nat ->
  analyze_bounds n (Some (map explicit_pair bs)) = analyze_bounds n (Some bs).
Proof.
  intro H. unfold analyze_bounds. rewrite length_map.
  destruct (length bs =? 0)%nat; [reflexivity|].
  apply Nat.eqb_neq in H. rewrite H.
  destruct (negb (length bs =? n)%nat); [reflexivity|].
  now rewrite read_bounds_explicit.
Qed.

Lemma set_nth_app {A} (l1 l2 : list A) (a b : A) :
  set_nth (length l1) b (l1 ++ a :: l2) = l1 ++ b :: l2.
Proof.
  unfold set_nth.
  rewrite firstn_app, Nat.sub_diag, firstn_all, app_nil_r.
  replace (S (length l1)) with (length (l1 ++ [a]))
    by (rewrite length_app; simpl; lia).
  replace (l1 ++ a :: l2) with ((l1 ++ [a]) ++ l2) by (now rewrite <- app_assoc).
  rewrite skipn_app, Nat.sub_diag, skipn_all. reflexivity.
Qed.

Lemma skipn_middle {A} (l1 l2 : list A) (a : A) :
  skipn (length l1) (l1 ++ a :: l2) = a :: l2.
Proof. now rewrite skipn_app, Nat.sub_diag, skipn_all. Qed.

Lemma skipn_succ_middle {A} (l1 l2 : list A) (a : A) :
  skipn (S (length l1)) (l1 ++ a :: l2) = l2.
Proof.
  replace (S (length l1)) with (length (l1 ++ [a]))
    by (rewrite length_app; simpl; lia).
  replace (l1 ++ a :: l2) with ((l1 ++ [a]) ++ l2) by (now rewrite <- app_assoc).
  now rewrite skipn_app, Nat.sub_diag, skipn_all.
Qed.

(** The [try] block on well-formed pairs: every entry is read, [None]
    standing for the infinity of its side. *)
Lemma read_bounds_pairs (bs : list (list entry)) :
  Forall (fun p => length p = 2%nat) bs ->
  forall m l1 l2 u1 u2,
    length l2 = m -> length u2 = m ->
    (length l1 + m = length bs)%nat -> length u1 = length l1 ->
    read_bounds bs (seq (length l1) m) (l1 ++ l2) (u1 ++ u2) =
    (l1 ++ map (fun p => lower_of (nth 0 p None)) (skipn (length l1) bs),
     u1 ++ map (fun p => upper_of (nth 1 p None)) (skipn (length l1) bs), false).
Proof.
  intro Hp. induction m as [|m IH]; intros l1 l2 u1 u2 Hl2 Hu2 Hlen Hu1.
  - destruct l2; [|discriminate]. destruct u2; [|discriminate].
    rewrite skipn_all2 by lia. reflexivity.
  - destruct l2 as [|lb l2]; [discriminate|]. destruct u2 as [|ub u2]; [discriminate|].
    cbn [seq read_bounds].
    assert (H0 : length (nth 0 bs []) = 2%nat).
    { rewrite Forall_forall in Hp. apply Hp, nth_In. lia. }
    rewrite H0. cbn [Nat.eqb negb].
    assert (Hk : (length l1 < length bs)%nat) by lia.
    destruct (nth_split bs [] Hk) as (b1 & b2 & Hbs & Hb1).
    set (p := nth (length l1) bs []) in *.
    assert (Hpl : length p = 2%nat).
    { rewrite Forall_forall in Hp. apply Hp. unfold p. apply nth_In. lia. }
    destruct p as [|lo [|hi [|? ?]]] eqn:Ep; try discriminate.
    cbn [nth_error].
    rewrite set_nth_app.
    replace (set_nth (length l1) (upper_of hi) (u1 ++ ub :: u2))
      with (u1 ++ upper_of hi :: u2)
      by (rewrite <- Hu1; now rewrite set_nth_app).
    replace (l1 ++ lower_of lo :: l2) with ((l1 ++ [lower_of lo]) ++ l2)
      by (now rewrite <- app_assoc).
    replace (u1 ++ upper_of hi :: u2) with ((u1 ++ [upper_of hi]) ++ u2)
      by (now rewrite <- app_assoc).
    replace (S (length l1)) with (length (l1 ++ [lower_of lo]))
      by (rewrite length_app; simpl; lia).
    rewrite IH;
      [| simpl in Hl2; lia | simpl in Hu2; lia
       | rewrite length_app; simpl; lia
       | rewrite !length_app; simpl; lia].
    rewrite length_app. cbn [length]. rewrite Nat.add_1_r.
    assert (Hsk : skipn (length l1) bs = [lo; hi] :: skipn (S (length l1)) bs).
    { rewrite Hbs at 1 2. rewrite <- Hb1. now rewrite skipn_middle, skipn_succ_middle. }
    rewrite Hsk. cbn [map nth]. rewrite <- !app_assoc. reflexivity.
Qed.

Lemma analyze_bounds_pairs (n : nat) (bs : list (list entry)) :
  length bs = n -> n <> 1%nat -> Forall (fun p => length p = 2%nat) bs ->
  analyze_bounds n (Some bs) =
    Ok (0, ""%string,
        Arr1 (map (fun p => lower_of (nth 0 p None)) bs),
        Arr1 (map (fun p => upper_of (nth 1 p None)) bs)).
Proof.
  intros Hn H1 Hp. unfold analyze_bounds.
  destruct (Nat.eqb_spec (length bs) 0) as [E|E].
  - destruct bs; [|discriminate]. subst n. reflexivity.
  - destruct (Nat.eqb_spec (length bs) 1) as [E1|_]; [congruence|].
    rewrite Hn, Nat.eqb_refl. cbn [negb].
    unfold range.
    pose proof (read_bounds_pairs bs Hp n [] (repeat (Fin 0) n) [] (repeat PInf n))
      as R.
    cbn [length app skipn] in R.
    rewrite R; [reflexivity | apply repeat_length | apply repeat_length
                | simpl; lia | reflexivity].
Qed.

(** The [None] convention of lines 686-687.  When [bounds] holds one pair
    for each of [n <> 1] variables, a [None] in the lower position is read
    as -inf and a [None] in the upper position as +inf, so that (None, None)
    makes a free variable; the solver returns what it returns when the
    infinities are written out. *)
Lemma none_bound_is_infinite (n : nat) (bs : list (list entry)) :
  length bs = n -> n <> 1%nat -> Forall (fun p => length p = 2%nat) bs ->
  analyze_bounds n (Some bs) =
    Ok (0, ""%string,
        Arr1 (map (fun p => lower_of (nth 0 p None)) bs),
        Arr1 (map (fun p => upper_of (nth 1 p None)) bs)) /\
  (forall i, nth i bs [] = [None; None] ->
     nth i (map (fun p => lower_of (nth 0 p None)) bs) (Fin 0) = NInf /\
     nth i (map (fun p => upper_of (nth 1 p None)) bs) PInf = PInf) /\
  (forall c A_ub b_ub A_eq b_eq maxiter callback tol,
     _linprog_simplex c A_ub b_ub A_eq b_eq (Some bs) maxiter callback tol =
     _linprog_simplex c A_ub b_ub A_eq b_eq (Some (map explicit_pair bs))
                      maxiter callback tol).
Proof.
  intros Hn H1 Hp. split; [|split].
  - now apply analyze_bounds_pairs.
  - intros i Hi. unfold entry in *.
    destruct (Nat.lt_ge_cases i (length bs)) as [Hlt|Hge].
    + split.
      * rewrite nth_indep with (d' := lower_of (nth 0 [] None))
          by (now rewrite length_map).
        rewrite (map_nth (fun p => lower_of (nth 0 p None)) bs [] i), Hi.
        reflexivity.
      * rewrite nth_indep with (d' := upper_of (nth 1 [] None))
          by (now rewrite length_map).
        rewrite (map_nth (fun p => upper_of (nth 1 p None)) bs [] i), Hi.
        reflexivity.
    + rewrite nth_overflow in Hi by exact Hge. discriminate.
  - intros. unfold _linprog_simplex, normalize.
    rewrite analyze_bounds_explicit by congruence. reflexivity.
Qed.

(** Two variables, the first free and the second bounded below by -3. *)
Lemma none_bound_is_infinite_example :
  let bs := [[None; None]; [Some (Fin (-3)); None]] in
  analyze_bounds 2 (Some bs) =
    Ok (0, ""%string, Arr1 [NInf; Fin (-3)], Arr1 [PInf; PInf]) /\
  _linprog_simplex [-1; 4]%Q (Some (Mat 2 [[-3; 1]; [1; 2]]%Q)) (Some [6; 4]%Q)
                   None None (Some bs) 1000 false default_tol =
  _linprog_simplex [-1; 4]%Q (Some (Mat 2 [[-3; 1]; [1; 2]]%Q)) (Some [6; 4]%Q)
                   None None (Some (map explicit_pair bs)) 1000 false default_tol.
Proof.
  intro bs.
  assert (Hp : Forall (fun p : list entry => length p = 2%nat) bs)
    by (repeat constructor).
  assert (H1 : 2%nat <> 1%nat) by discriminate.
  destruct (none_bound_is_infinite 2 bs eq_refl H1 Hp) as (Ha & _ & Hs).
  split; [exact Ha | apply Hs].
Defined.

(** C10.  For a single variable the convention is not honoured: the one
    pair (None, None), documented as making the variable free, is taken by
    the branch of line 672, where [n * None] is a TypeError, and the solver
    raises instead of returning a result.  With two variables the same pair
    does make a free variable ([none_bound_is_infinite]). *)
Theorem none_bound_single_variable_raises :
  analyze_bounds 1 (Some [[None; None]]) = Raise TypeError /\
  _linprog_simplex [1%Q] None None None None (Some [[None; None]]) 1000 false
                   default_tol
  = ([], Raise TypeError) /\
  analyze_bounds 2 (Some [[None; None]; [None; None]])
  = Ok (0, ""%string, Arr1 [NInf; NInf], Arr1 [PInf; PInf]).
Proof. repeat split; vm_compute; reflexivity. Qed.

(** ** Properties of the bounds normalisation *)

Lemma getitem_middle (l1 l2 : list bound) (b : bound) :
  getitem (Arr1 (l1 ++ b :: l2)) (length l1) = Ok b.
Proof.
  unfold getitem. rewrite nth_error_app2 by lia. now rewrite Nat.sub_diag.
Qed.

Lemma add_row_ok (n i : nat) (coef v : Q) (s : pstate) :
  ncols (Aub s) = n -> (i < n)%nat ->
  add_row n i coef v s =
  Ok (PState (st s) (msg s) (L s) (U s) (cc s) (Aeq s) (beq s)
             (Mat n (rows (Aub s) ++ [set_nth i coef (zeros n)]))
             (bub s ++ [v]) (f0 s)).
Proof.
  intros Hc Hi. unfold add_row, vstack.
  rewrite length_set_nth by (unfold zeros; rewrite repeat_length; exact Hi).
  unfold zeros. rewrite repeat_length, Hc, Nat.eqb_refl. reflexivity.
Qed.

(** One turn of the first loop on variable [i]. *)
Lemma bounds_step_spec (n : nat) (s : pstate) (l1 l2 u1 u2 : list bound)
    (lb ub : bound) :
  L s = Arr1 (l1 ++ lb :: l2) -> U s = Arr1 (u1 ++ ub :: u2) ->
  length u1 = length l1 -> ncols (Aub s) = n -> (length l1 < n)%nat ->
  exists s',
    bounds_step n (length l1) s = Ok s' /\
    L s' = Arr1 (l1 ++ reset_lower lb :: l2) /\
    U s' = Arr1 (u1 ++ reset_upper ub :: u2) /\
    rows (Aub s') = rows (Aub s) ++ map fst (bound_rows n (length l1) lb ub) /\
    bub s' = bub s ++ map snd (bound_rows n (length l1) lb ub) /\
    ncols (Aub s') = n /\
    st s' = (if violates lb ub then -1 else st s) /\
    cc s' = cc s /\ Aeq s' = Aeq s /\ beq s' = beq s /\ f0 s' = f0 s.
Proof.
  intros HL HU Hlen Hc Hi.
  unfold bounds_step. rewrite HL, getitem_middle, HU. cbn [ebind].
  replace (getitem (Arr1 (u1 ++ ub :: u2)) (length l1)) with (Ok ub)
    by (rewrite <- Hlen; now rewrite getitem_middle).
  cbn [ebind].
  unfold bound_rows, reset_lower, reset_upper, violates.
  destruct (bgtb lb ub); destruct (isinf lb && bgtb lb (Fin 0));
    destruct (isinf ub && bgtb (Fin 0) ub);
    destruct (isfinite lb && bgtb lb (Fin 0)); destruct (isfinite ub);
    cbn [ebind];
    repeat (rewrite add_row_ok by (cbn; first [assumption | reflexivity]);
            cbn [ebind]);
    (eexists; split; [reflexivity|]);
    cbn [set_L set_U invalid L U Aub bub st cc Aeq beq f0 rows ncols
         setitem map fst snd app orb];
    rewrite ?HL, ?HU; cbn [setitem];
    rewrite ?set_nth_app;
    try (rewrite <- Hlen; rewrite set_nth_app; rewrite Hlen);
    rewrite ?app_nil_r, <- ?app_assoc;
    repeat split; first [reflexivity | assumption].
Qed.

Lemma bound_rows_from_cons (n k : nat) (lb ub : bound) (l u : list bound) :
  bound_rows_from n k (lb :: l) (ub :: u) =
  bound_rows n k lb ub ++ bound_rows_from n (S k) l u.
Proof. reflexivity. Qed.

(** The first loop from variable [length l1] on. *)
Lemma bounds_loop_gen (n : nat) :
  forall m s l1 l2 u1 u2,
    L s = Arr1 (l1 ++ l2) -> U s = Arr1 (u1 ++ u2) ->
    length l2 = m -> length u2 = m -> length u1 = length l1 ->
    (length l1 + m = n)%nat -> ncols (Aub s) = n ->
    exists s',
      efold (bounds_step n) (seq (length l1) m) s = Ok s' /\
      L s' = Arr1 (l1 ++ map reset_lower l2) /\
      U s' = Arr1 (u1 ++ map reset_upper u2) /\
      rows (Aub s') = rows (Aub s) ++ map fst (bound_rows_from n (length l1) l2 u2) /\
      bub s' = bub s ++ map snd (bound_rows_from n (length l1) l2 u2) /\
      ncols (Aub s') = n /\
      st s' = (if existsb (fun lu => violates (fst lu) (snd lu)) (combine l2 u2)
               then -1 else st s) /\
      cc s' = cc s /\ Aeq s' = Aeq s /\ beq s' = beq s /\ f0 s' = f0 s.
Proof.
  induction m as [|m IH]; intros s l1 l2 u1 u2 HL HU Hl2 Hu2 Hlen Hn Hc.
  - destruct l2; [|discriminate]. destruct u2; [|discriminate].
    exists s. cbn. rewrite !app_nil_r in *. repeat split; assumption.
  - destruct l2 as [|lb l2]; [discriminate|].
    destruct u2 as [|ub u2]; [discriminate|].
    destruct (bounds_step_spec n s l1 l2 u1 u2 lb ub HL HU Hlen Hc)
      as (s1 & Hstep & HL1 & HU1 & HA1 & Hb1 & Hc1 & Hst1 & Hcc1 & Heq1 & Hbeq1 & Hf1);
      [lia|].
    replace (l1 ++ reset_lower lb :: l2) with ((l1 ++ [reset_lower lb]) ++ l2) in HL1
      by (now rewrite <- app_assoc).
    replace (u1 ++ reset_upper ub :: u2) with ((u1 ++ [reset_upper ub]) ++ u2) in HU1
      by (now rewrite <- app_assoc).
    destruct (IH s1 _ _ _ _ HL1 HU1)
      as (s' & Hloop & HL' & HU' & HA' & Hb' & Hc' & Hst' & Hcc' & Heq' & Hbeq' & Hf');
      [simpl in Hl2; lia | simpl in Hu2; lia
       | rewrite !length_app; simpl; lia
       | rewrite length_app; simpl; lia | exact Hc1 |].
    rewrite length_app in Hloop, HA', Hb'. cbn [length] in Hloop, HA', Hb'.
    rewrite Nat.add_1_r in Hloop, HA', Hb'.
    exists s'. cbn [seq efold]. rewrite Hstep. cbn [ebind].
    split; [exact Hloop|].
    rewrite bound_rows_from_cons, !map_app.
    rewrite HL', HU', HA', Hb', HA1, Hb1, Hst', Hst1, Hcc', Hcc1, Heq', Heq1,
            Hbeq', Hbeq1, Hf', Hf1.
    rewrite <- !app_assoc. cbn [combine existsb fst snd map app].
    repeat split; try reflexivity; try assumption.
    destruct (violates lb ub); cbn [orb]; [|reflexivity].
    destruct (existsb _ _); reflexivity.
Qed.

Lemma qltb_asym (a b : Q) : qltb a b = true -> qltb b a = false.
Proof.
  unfold qltb. rewrite negb_true_iff, negb_false_iff.
  intro H. apply Qle_bool_iff.
  destruct (Qlt_le_dec a b) as [Hlt|Hle]; [now apply Qlt_le_weak|].
  apply Qle_bool_iff in Hle. congruence.
Qed.

(** C4, as amended.  The first loop appends, for each variable in turn, a
    row [-x_i <= -lb_i] when [lb_i] is finite and positive, resetting the
    lower bound to 0, and then a row [x_i <= ub_i] when [ub_i] is finite,
    resetting the upper bound to +inf.  A finite negative lower bound gets
    no row and stays in [L]. *)
Theorem bounds_loop_rows (n : nat) (s : pstate) (l u : list bound) :
  L s = Arr1 l -> U s = Arr1 u -> length l = n -> length u = n ->
  ncols (Aub s) = n ->
  (exists s',
     efold (bounds_step n) (range n) s = Ok s' /\
     rows (Aub s') = rows (Aub s) ++ map fst (bound_rows_from n 0 l u) /\
     bub s' = bub s ++ map snd (bound_rows_from n 0 l u) /\
     L s' = Arr1 (map reset_lower l) /\
     U s' = Arr1 (map reset_upper u)) /\
  (forall i q ub, qltb q 0 = true ->
     bound_rows n i (Fin q) ub =
       (if isfinite ub then [(set_nth i 1%Q (zeros n), fin_val ub)] else []) /\
     reset_lower (Fin q) = Fin q).
Proof.
  intros HL HU Hl Hu Hc. split.
  - destruct (bounds_loop_gen n n s [] l [] u HL HU Hl Hu eq_refl)
      as (s' & Hloop & HL' & HU' & HA' & Hb' & _); [simpl; lia | exact Hc |].
    exists s'. repeat split; assumption.
  - intros i q ub Hq. unfold bound_rows, reset_lower. cbn [isfinite bgtb andb].
    rewrite (qltb_asym _ _ Hq). split; reflexivity.
Qed.

(** Three variables with bounds [2, 5], [-3, +inf) and (-inf, 4]. *)
Lemma bounds_loop_rows_witness :
  let s := PState 0 ""%string (Arr1 [Fin 2; Fin (-3); NInf])
                  (Arr1 [Fin 5; PInf; Fin 4]) [1; 1; 1]%Q
                  (Mat 3 []) [] (Mat 3 []) [] 0%Q in
  exists s',
    efold (bounds_step 3) (range 3) s = Ok s' /\
    rows (Aub s') = [[-1; 0; 0]; [1; 0; 0]; [0; 0; 1]]%Q /\
    bub s' = [-2; 5; 4]%Q /\
    L s' = Arr1 [Fin 0; Fin (-3); NInf] /\
    U s' = Arr1 [PInf; PInf; PInf].
Proof.
  intro s.
  destruct (bounds_loop_rows 3 s [Fin 2; Fin (-3); NInf] [Fin 5; PInf; Fin 4]
              eq_refl eq_refl eq_refl eq_refl eq_refl)
    as [(s' & H1 & H2 & H3 & H4 & H5) _].
  exists s'. repeat split; assumption.
Defined.

(** C4, as stated, fails for a negative lower bound: for the bounds
    [-3, +inf) and [0, +inf) the specification asks for the row
    [-x_0 <= 3], and the loop appends none and leaves -3 in [L]; the whole
    normalisation ends without any inequality row, the bound having gone
    into the objective constant. *)
Lemma negative_lower_bound_adds_no_row :
  let s := PState 0 ""%string (Arr1 [Fin (-3); Fin 0]) (Arr1 [PInf; PInf])
                  [1; 1]%Q (Mat 2 []) [] (Mat 2 []) [] 0%Q in
  spec_bound_rows 2 0 (Fin (-3)) PInf = [([-1; 0]%Q, 3%Q)] /\
  (exists s',
     efold (bounds_step 2) (range 2) s = Ok s' /\
     rows (Aub s') = [] /\ bub s' = [] /\ L s' = Arr1 [Fin (-3); Fin 0]) /\
  (exists s',
     normalize [1; 1]%Q None None None None
               (Some [[Some (Fin (-3)); None]; [Some (Fin 0); None]])
     = Ok (2%nat, false, s') /\
     rows (Aub s') = [] /\ bub s' = [] /\ f0 s' = 3%Q).
Proof.
  intro s. split; [reflexivity|]. split.
  - eexists. split; [vm_compute; reflexivity|]. repeat split.
  - eexists. split; [vm_compute; reflexivity|]. repeat split.
Qed.

(** ** Properties of the two-phase driver *)

Lemma rbind_fst_in {A B} (m : run A) (k : A -> run B) (ev : event) :
  In ev (fst (rbind m k)) ->
  In ev (fst m) \/ exists a, snd m = Ok a /\ In ev (fst (k a)).
Proof.
  unfold rbind. destruct (snd m) as [a|e]; cbn [fst].
  - intro H. apply in_app_or in H. destruct H as [H|H]; [now left|].
    right. exists a. split; [reflexivity | exact H].
  - intro H. now left.
Qed.

(** The engine logs observer calls only. *)
Lemma lpsimplex_observes (t : mat) (n n_slack n_artificial : nat)
    (maxiter phase : Z) (callback : bool) (tol : Q) (nit0 : Z) (ev : event) :
  In ev (fst (lpsimplex t n n_slack n_artificial maxiter phase callback tol nit0)) ->
  exists p, ev = Observe p.
Proof.
  unfold lpsimplex. cbv zeta. intro H.
  apply rbind_fst_in in H. destruct H as [H|(headers & _ & H)].
  - destruct callback; destruct H.
  - apply rbind_fst_in in H. destruct H as [H|(e & _ & H)].
    + eapply simplex_loop_observes. exact H.
    + destruct e as [s st m|s]; [|destruct (nit s >=? maxiter)];
        apply rbind_fst_in in H; destruct H as [[]|(b & _ & [])].
Qed.

(** C5, as amended.  After Phase 1 the solver enters Phase 2 exactly when
    the pseudo-objective is within tolerance of zero and Phase 1 itself
    ended with status 0.  Phase 2 then starts on the tableau without its
    pseudo-objective row and artificial columns, at the iteration count
    Phase 1 reached.  In every other case the solver returns at once, with
    success false, Phase 1's solution and iteration count, and without
    running Phase 2: with status 2 when Phase 1 ended with status 0 and the
    pseudo-objective is not within tolerance, and with the status of Phase 1
    when that is not 0 and the pseudo-objective is within tolerance. *)
Theorem phase2_entered_iff (c : list Q) (A_ub : option mat) (b_ub : option (list Q))
    (A_eq : option mat) (b_eq : option (list Q))
    (bounds : option (list (list entry))) (maxiter : Z) (callback : bool)
    (tol : Q) (n : nat) (fl : bool) (s : pstate) (T : mat)
    (log1 : list event) (r1 : engine_result) :
  normalize c A_ub b_ub A_eq b_eq bounds = Ok (n, fl, s) ->
  st s = 0 ->
  build_tableau n s = Ok T ->
  lpsimplex T n (length (bub s)) (length (bub s) + length (beq s))
            maxiter 1 callback tol 0 = (log1, Ok r1) ->
  let out := _linprog_simplex c A_ub b_ub A_eq b_eq bounds maxiter callback tol in
  let feasible := qltb (qabs (corner (r_tableau r1))) tol in
  let T2 := drop_phase1 n (length (bub s)) (length (bub s) + length (beq s))
                        (r_tableau r1) in
  ((exists k t, In (Invoke 2 k t) (fst out)) <->
   feasible = true /\ r_status r1 = 0) /\
  (feasible = true -> r_status r1 = 0 ->
   fst out = Invoke 1 0 T :: log1 ++ Invoke 2 (r_nit r1) T2 ::
             fst (lpsimplex T2 n (length (bub s)) (length (bub s) + length (beq s))
                            maxiter 2 callback tol (r_nit r1))) /\
  (feasible = false -> r_status r1 = 0 ->
   out = (Invoke 1 0 T :: log1,
          Ok (MkResult (r_x r1) (qneg (corner (r_tableau r1))) (r_nit r1)
                       2 msg_infeasible false))) /\
  (feasible = true -> r_status r1 <> 0 ->
   out = (Invoke 1 0 T :: log1,
          Ok (MkResult (r_x r1) (qneg (corner T2)) (r_nit r1)
                       (r_status r1) (r_message r1) false))) /\
  (feasible = false \/ r_status r1 <> 0 ->
   fst out = Invoke 1 0 T :: log1 /\
   exists res, snd out = Ok res /\ success res = false /\
               res_nit res = r_nit r1 /\ x res = r_x r1).
Proof.
  intros Hnorm Hst Hbuild Hp1 out feasible T2.
  assert (Hno : forall k t, ~ In (Invoke 2 k t) (Invoke 1 0 T :: log1)).
  { intros k t [H|H]; [discriminate|].
    assert (Hin : In (Invoke 2 k t)
                     (fst (lpsimplex T n (length (bub s))
                             (length (bub s) + length (beq s)) maxiter 1
                             callback tol 0)))
      by (rewrite Hp1; exact H).
    apply lpsimplex_observes in Hin. destruct Hin as [p Hp]. discriminate. }
  assert (Hout : out =
    if feasible then
      if negb (r_status r1 =? 0)
      then (Invoke 1 0 T :: log1,
            Ok (MkResult (r_x r1) (qneg (corner T2)) (r_nit r1)
                         (r_status r1) (r_message r1) false))
      else rbind (Invoke 1 0 T :: log1 ++ [Invoke 2 (r_nit r1) T2], Ok tt)
             (fun _ =>
                rbind (lpsimplex T2 n (length (bub s))
                                 (length (bub s) + length (beq s))
                                 maxiter 2 callback tol (r_nit r1))
                  (fun r2 => rret (MkResult (restore n fl (L s) (r_x r2))
                                     (qneg (corner (r_tableau r2))) (r_nit r2)
                                     (r_status r2) (r_message r2)
                                     (r_status r2 =? 0))))
    else (Invoke 1 0 T :: log1,
          Ok (MkResult (r_x r1) (qneg (corner (r_tableau r1))) (r_nit r1)
                       2 msg_infeasible false))).
  { subst out. unfold _linprog_simplex. rewrite Hnorm.
    erewrite (rbind_ok (lift _)) by reflexivity.
    cbn beta iota. rewrite Hst. cbn [Z.eqb negb]. rewrite Hbuild.
    erewrite (rbind_ok (lift _)) by reflexivity.
    erewrite (rbind_ok (emit _)) by reflexivity.
    erewrite (rbind_ok (lpsimplex _ _ _ _ _ _ _ _ _)) by exact Hp1.
    fold feasible. fold T2. cbn [fst snd app].
    destruct feasible.
    - destruct (negb (r_status r1 =? 0)).
      + cbn [rret fst snd]. now rewrite app_nil_r.
      + erewrite (rbind_ok (emit _)) by reflexivity.
        cbn [fst snd app].
        symmetry. erewrite rbind_ok by reflexivity.
        cbn [app]. rewrite <- app_assoc. reflexivity.
    - cbn [Z.eqb negb rret fst snd]. now rewrite app_nil_r. }
  split; [|split; [|split; [|split]]].
  - rewrite Hout. split.
    + intros (k & t & Hin).
      destruct feasible; [|exfalso; exact (Hno k t Hin)].
      split; [reflexivity|].
      destruct (Z.eqb_spec (r_status r1) 0) as [E|E]; [exact E|].
      exfalso. exact (Hno k t Hin).
    + intros [Hf Hs]. rewrite Hf, Hs. cbn [Z.eqb negb].
      exists (r_nit r1), T2. erewrite rbind_ok by reflexivity. cbn [fst snd].
      apply in_or_app. left. right. apply in_or_app. right. now left.
  - intros Hf Hs. rewrite Hout, Hf, Hs. cbn [Z.eqb negb].
    erewrite rbind_ok by reflexivity. cbn [fst snd].
    unfold rbind.
    match goal with
    | |- context [snd (lpsimplex ?a ?b ?c ?d ?e ?f ?g ?h ?i)] =>
        destruct (snd (lpsimplex a b c d e f g h i))
    end; cbn [fst rret app]; rewrite ?app_nil_r, <- ?app_assoc; reflexivity.
  - intros Hf _. rewrite Hout, Hf. reflexivity.
  - intros Hf Hs. rewrite Hout, Hf.
    apply Z.eqb_neq in Hs. rewrite Hs. reflexivity.
  - intros Hor. rewrite Hout.
    destruct feasible.
    + destruct Hor as [Hf|Hs]; [discriminate|].
      apply Z.eqb_neq in Hs. rewrite Hs. cbn [negb fst snd].
      split; [reflexivity|]. eexists. split; [reflexivity|]. repeat split.
    + cbn [fst snd]. split; [reflexivity|].
      eexists. split; [reflexivity|]. repeat split.
Qed.

(** [max x] subject to [x <= 1]: Phase 1 ends with status 0 after one pivot
    and Phase 2 starts at iteration 1 on the reduced tableau. *)
Lemma phase2_entered_iff_witness :
  let out := _linprog_simplex [-1]%Q (Some (Mat 1 [[1%Q]])) (Some [1%Q])
                              None None None 1000 false default_tol in
  (exists k t, In (Invoke 2 k t) (fst out)) /\
  fst out = [Invoke 1 0 (Mat 4 [[1; 1; 1; 1]; [-1; 0; 0; 0]; [-1; -1; 0; -1]]%Q);
             Invoke 2 1 (Mat 3 [[1; 1; 1]; [0; 1; 1]]%Q)].
Proof.
  intro out.
  pose (s := PState 0 ""%string (Arr1 [Fin 0]) (Arr1 [PInf]) [-1]%Q
                    (Mat 1 []) [] (Mat 1 [[1%Q]]) [1%Q] 0%Q).
  pose (T := Mat 4 [[1; 1; 1; 1]; [-1; 0; 0; 0]; [-1; -1; 0; -1]]%Q).
  pose (r1 := EngineResult [1%Q] 1 0 msg_success
                           (Mat 4 [[1; 1; 1; 1]; [0; 1; 1; 1]; [0; 0; 1; 0]]%Q)).
  assert (H1 : normalize [-1]%Q (Some (Mat 1 [[1%Q]])) (Some [1%Q]) None None None
               = Ok (1%nat, false, s)) by (vm_compute; reflexivity).
  assert (H2 : st s = 0) by reflexivity.
  assert (H3 : build_tableau 1 s = Ok T) by (vm_compute; reflexivity).
  assert (H4 : lpsimplex T 1 (length (bub s)) (length (bub s) + length (beq s))
                         1000 1 false default_tol 0 = ([], Ok r1))
    by (vm_compute; reflexivity).
  destruct (phase2_entered_iff _ _ _ _ _ _ _ _ _ _ _ _ _ _ _ H1 H2 H3 H4)
    as (Hiff & Hlog & _).
  split.
  - apply Hiff. split; reflexivity.
  - unfold out. rewrite (Hlog eq_refl eq_refl). vm_compute. reflexivity.
Defined.

(** C5, as stated, fails on [min x] subject to [x <= 1] with an iteration
    cap of 1: the one pivot of Phase 1 brings the pseudo-objective to 0, yet
    Phase 1 ends with status 1 and the solver returns it without entering
    Phase 2. *)
Lemma phase2_skipped_at_iteration_limit :
  let T := Mat 4 [[1; 1; 1; 1]; [1; 0; 0; 0]; [-1; -1; 0; -1]]%Q in
  let out := _linprog_simplex [1%Q] (Some (Mat 1 [[1%Q]])) (Some [1%Q])
                              None None None 1 false default_tol in
  (exists r1, lpsimplex T 1 1 1 1 1 false default_tol 0 = ([], Ok r1) /\
              qltb (qabs (corner (r_tableau r1))) default_tol = true) /\
  out = ([Invoke 1 0 T], Ok (MkResult [1%Q] 1 1 1 msg_iteration_limit false)) /\
  ~ (exists k t, In (Invoke 2 k t) (fst out)).
Proof.
  intros T out.
  assert (Hout : out = ([Invoke 1 0 T],
                        Ok (MkResult [1%Q] 1 1 1 msg_iteration_limit false)))
    by (vm_compute; reflexivity).
  split; [|split; [exact Hout|]].
  - eexists. split; vm_compute; reflexivity.
  - rewrite Hout. intros (k & t & [H|[]]). discriminate.
Qed.

(** ** The observer *)

Section ObserverFacts.

Variables (n : nat) (maxiter phase : Z) (tol : Q).
Variables (t0 : mat) (hd : list string).

Local Abbreviation loop := (simplex_loop n maxiter phase true tol t0 hd).

Lemma simplex_loop_observed (fuel : nat) :
  forall s, status s = None ->
    observed phase tol (tableau s) (nit s) (fst (loop fuel s)).
Proof.
  induction fuel as [|fuel IH]; intros s Hs.
  - cbn [simplex_loop].
    destruct ((nit s <? maxiter) && is_none (status s)); exact I.
  - destruct ((nit s <? maxiter) && is_none (status s)) eqn:Hc;
      [| rewrite simplex_loop_stop by exact Hc; exact I].
    rewrite simplex_loop_step by exact Hc.
    destruct (iteration_cases n phase true tol t0 hd s)
      as [[e He] | [(obj & pc & _ & _ & _ & He)
                   | (obj & pc & pr & lg & Hobj & _ & _ & (b & _ & Hlg) & He)]].
    + rewrite (rbind_raise _ _ _ _ He). exact I.
    + rewrite (rbind_ok _ _ _ _ He). exact I.
    + cbv zeta in He. rewrite (rbind_ok _ _ _ _ He). subst lg.
      rewrite Hs in *. cbn [fst app observed p_tableau p_iter p_phase
                            p_complete p_pivot].
      assert (Hopt : optimal tol (tableau s) = all_ge_neg_tol tol obj)
        by (unfold optimal; now rewrite Hobj).
      rewrite Hopt.
      repeat (split; [reflexivity|]).
      split.
      { destruct (all_ge_neg_tol tol obj); cbn; now destruct (phase =? 2). }
      destruct (all_ge_neg_tol tol obj); cbn [is_none].
      * rewrite simplex_loop_stop; [reflexivity|].
        cbn [status is_none]. apply andb_false_r.
      * apply (IH (LState (pivot (tableau s) pr pc) (nit s + 1) _ None _)).
        reflexivity.
Qed.

Lemma simplex_loop_count (fuel : nat) :
  forall s, status s = None -> maxiter - nit s <= Z.of_nat fuel ->
    match loop fuel s with
    | (log, Ok (Fell s')) =>
        (status s' = None /\ maxiter <= nit s' /\
         Z.of_nat (length log) = nit s' - nit s) \/
        (status s' = Some 0 /\ nit s' < maxiter /\
         Z.of_nat (length log) = nit s' - nit s + 1)
    | (log, Ok (Broke s' st m)) => Z.of_nat (length log) = nit s' - nit s
    | (_, Raise _) => True
    end.
Proof.
  induction fuel as [|fuel IH]; intros s Hs Hfuel.
  - rewrite simplex_loop_stop.
    + cbn. left. repeat split; [exact Hs | lia | lia].
    + apply andb_false_iff. left. apply Z.ltb_ge. lia.
  - destruct ((nit s <? maxiter) && is_none (status s)) eqn:Hc.
    2:{ rewrite simplex_loop_stop by exact Hc. cbn. left.
        rewrite Hs in Hc. cbn in Hc. rewrite andb_true_r in Hc.
        apply Z.ltb_ge in Hc. repeat split; [exact Hs | lia | lia]. }
    assert (Hlt : nit s < maxiter).
    { apply andb_true_iff in Hc. destruct Hc as [Hc _]. now apply Z.ltb_lt. }
    rewrite simplex_loop_step by exact Hc.
    destruct (iteration_cases n phase true tol t0 hd s)
      as [[e He] | [(obj & pc & _ & _ & _ & He)
                   | (obj & pc & pr & lg & Hobj & _ & _ & (b & _ & Hlg) & He)]].
    + rewrite (rbind_raise _ _ _ _ He). exact I.
    + rewrite (rbind_ok _ _ _ _ He). cbn. lia.
    + cbv zeta in He. rewrite (rbind_ok _ _ _ _ He). subst lg.
      rewrite Hs in *.
      destruct (all_ge_neg_tol tol obj); cbn [is_none].
      * rewrite simplex_loop_stop by (cbn [status is_none]; apply andb_false_r).
        cbn. right. repeat split; [exact Hlt | lia].
      * cbn [fst snd].
        specialize (IH (LState (pivot (tableau s) pr pc) (nit s + 1)
                               (if (0 <? (if nit s >? 2 ^ Z.of_nat n
                                          then if mat_eqb (tableau s) t0
                                               then S (cycle s) else cycle s
                                          else cycle s))%nat
                                then 0%nat
                                else (if nit s >? 2 ^ Z.of_nat n
                                      then if mat_eqb (tableau s) t0
                                           then S (cycle s) else cycle s
                                      else cycle s))
                               None (message s)) eq_refl).
        cbn [nit] in IH. specialize (IH ltac:(lia)).
        destruct (loop fuel _) as [log' [[s' st m|s']|e]]; cbn [fst snd app length];
          [lia | | exact I].
        destruct IH as [(H1 & H2 & H3)|(H1 & H2 & H3)]; [left|right];
          repeat split; try assumption; lia.
Qed.

End ObserverFacts.

Lemma observed_nth (phase : Z) (tol : Q) (log : list event) :
  forall t k, observed phase tol t k log ->
  forall i ev, nth_error log i = Some ev ->
    exists p, ev = Observe p /\
      p_iter p = k + Z.of_nat i /\ p_phase p = phase /\
      p_complete p = ((phase =? 2) && optimal tol (p_tableau p)) /\
      (i = 0%nat -> p_tableau p = t) /\
      (forall ev', nth_error log (S i) = Some ev' ->
         optimal tol (p_tableau p) = false /\
         exists p', ev' = Observe p' /\
           p_tableau p' = pivot (p_tableau p) (fst (p_pivot p)) (snd (p_pivot p))).
Proof.
  induction log as [|e log IH]; intros t k Hobs i ev Hi.
  - destruct i; discriminate.
  - destruct e as [p|ph k0 t1]; [|destruct Hobs].
    cbn [observed] in Hobs.
    destruct Hobs as (Ht & Hk & Hph & Hcomp & Hrest).
    destruct i as [|i].
    + cbn in Hi. injection Hi as <-. exists p.
      split; [reflexivity|]. split; [rewrite Hk; lia|]. split; [exact Hph|].
      split; [now rewrite Ht|]. split; [intros _; exact Ht|].
      intros ev' Hev'. cbn [nth_error] in Hev'. rewrite Ht.
      destruct (optimal tol t).
      * subst log. discriminate.
      * split; [reflexivity|].
        destruct (IH _ _ Hrest 0%nat ev' Hev') as (p' & Hp' & _ & _ & _ & Ht' & _).
        exists p'. split; [exact Hp' | now apply Ht'].
    + cbn [nth_error] in Hi.
      destruct (optimal tol t); [subst log; destruct i; discriminate|].
      destruct (IH _ _ Hrest i ev Hi) as (p' & Hp' & Hk' & Hph' & Hc' & _ & Hnext).
      exists p'. split; [exact Hp'|]. split; [lia|]. split; [exact Hph'|].
      split; [exact Hc'|]. split; [discriminate|]. exact Hnext.
Qed.

(** C8, as amended.  With an observer, the engine calls it once in every
    iteration that passes the ratio test, before the pivot: the calls carry
    consecutive iteration numbers from [nit0] on, the first carries the
    initial tableau and each later one the tableau of the call before it,
    pivoted at the coordinates that call announced.  The completion flag of
    a call is true exactly when the phase is 2 and the tableau it carries
    passes the optimality test; no call follows such a call, and in Phase 1
    the flag is never true.  In a run that does not end as unbounded every
    iteration makes its call: the number of calls is the number of pivots,
    plus one when the run ends with status 0. *)
Theorem observer_called_before_each_pivot (t : mat) (n n_slack n_artificial : nat)
    (maxiter phase : Z) (tol : Q) (nit0 : Z) :
  let out := lpsimplex t n n_slack n_artificial maxiter phase true tol nit0 in
  (forall i ev, nth_error (fst out) i = Some ev ->
     exists p, ev = Observe p /\
       p_iter p = nit0 + Z.of_nat i /\ p_phase p = phase /\
       p_complete p = ((phase =? 2) && optimal tol (p_tableau p)) /\
       (i = 0%nat -> p_tableau p = t) /\
       (forall ev', nth_error (fst out) (S i) = Some ev' ->
          p_complete p = false /\
          exists p', ev' = Observe p' /\
            p_tableau p' = pivot (p_tableau p) (fst (p_pivot p)) (snd (p_pivot p)))) /\
  (forall r, snd out = Ok r -> r_status r <> 3 ->
     Z.of_nat (length (fst out)) =
     r_nit r - nit0 + (if r_status r =? 0 then 1 else 0)).
Proof.
  intro out. subst out. unfold lpsimplex. cbv zeta.
  destruct (column_headers n n_slack n_artificial (ncols t)) as [hd|e] eqn:Hhd.
  2:{ cbn [lift rbind fst snd]. split.
      - intros i ev Hi. destruct i; discriminate.
      - intros r Hr. discriminate. }
  erewrite (rbind_ok (lift _)) by reflexivity. cbn [app fst snd].
  set (fuel := Z.to_nat (maxiter - nit0)).
  set (s0 := LState t nit0 0 None "").
  pose proof (simplex_loop_observed n maxiter phase tol t hd fuel s0 eq_refl) as Hobs.
  pose proof (simplex_loop_count n maxiter phase tol t hd fuel s0 eq_refl) as Hcnt.
  cbn [nit tableau] in Hobs, Hcnt.
  specialize (Hcnt ltac:(unfold fuel, s0; cbn [nit]; lia)).
  destruct (simplex_loop n maxiter phase true tol t hd fuel s0)
    as [log [e|e]] eqn:Hloop.
  all: cbn [fst snd] in Hobs.
  all: assert (Hcalls : forall i ev, nth_error log i = Some ev ->
     exists p, ev = Observe p /\
       p_iter p = nit0 + Z.of_nat i /\ p_phase p = phase /\
       p_complete p = ((phase =? 2) && optimal tol (p_tableau p)) /\
       (i = 0%nat -> p_tableau p = t) /\
       (forall ev', nth_error log (S i) = Some ev' ->
          p_complete p = false /\
          exists p', ev' = Observe p' /\
            p_tableau p' = pivot (p_tableau p) (fst (p_pivot p)) (snd (p_pivot p))))
    by (intros i ev Hi;
        destruct (observed_nth _ _ _ _ _ Hobs i ev Hi)
          as (p & Hp & Hk & Hph & Hc & Ht & Hnext);
        exists p; repeat (split; [assumption|]);
        intros ev' Hev'; destruct (Hnext ev' Hev') as [Hopt Hp'];
        split; [rewrite Hc, Hopt; apply andb_false_r | exact Hp']).
  2:{ erewrite rbind_raise by reflexivity. cbn [fst snd].
      split; [exact Hcalls | intros r Hr; discriminate]. }
  erewrite rbind_ok by reflexivity. cbn [fst snd].
  destruct e as [s st m|s].
  - pose proof (simplex_loop_broke n maxiter phase true tol t hd fuel s0 s st m) as Hb.
    rewrite Hloop in Hb. specialize (Hb eq_refl). subst st.
    cbn in Hcnt. unfold rbind, lift. cbn [fst snd].
    destruct (_get_basics (tableau s)); cbn [fst snd rret]; rewrite app_nil_r;
      (split; [exact Hcalls|]); intros r Hr Hne; [|discriminate].
    injection Hr as <-. cbn. lia.
  - cbn in Hcnt.
    destruct Hcnt as [(H1 & H2 & H3)|(H1 & H2 & H3)].
    + replace (nit s >=? maxiter) with true by (symmetry; apply Z.geb_le; lia).
      unfold rbind, lift. cbn [fst snd].
      destruct (_get_basics (tableau s)); cbn [fst snd rret]; rewrite app_nil_r;
        (split; [exact Hcalls|]); intros r Hr Hne; [|discriminate].
      injection Hr as <-. cbn. lia.
    + replace (nit s >=? maxiter) with false
        by (symmetry; destruct (Z.geb_spec (nit s) maxiter); [lia | reflexivity]).
      unfold rbind, lift. cbn [fst snd].
      destruct (_get_basics (tableau s)); cbn [fst snd rret]; rewrite app_nil_r;
        (split; [exact Hcalls|]); intros r Hr Hne; [|discriminate].
      injection Hr as <-. cbn. lia.
Qed.

(** Phase 2 on the tableau of [max x, x <= 4]: two calls, the second one at
    iteration 1 with a true completion flag. *)
Lemma observer_called_before_each_pivot_witness :
  let t := Mat 3 [[1; 1; 4]; [-1; 0; 0]]%Q in
  let out := lpsimplex t 1 1 0 1000 2 true default_tol 0 in
  exists p, nth_error (fst out) 1 = Some (Observe p) /\
            p_iter p = 1 /\ p_complete p = true /\
            p_tableau p = Mat 3 [[1; 1; 4]; [0; 1; 4]]%Q /\
            Z.of_nat (length (fst out)) = 2.
Proof.
  intros t out.
  destruct (observer_called_before_each_pivot t 1 1 0 1000 2 default_tol 0)
    as [H1 H2]. fold out in H1, H2.
  assert (E : exists ev, nth_error (fst out) 1 = Some ev)
    by (eexists; vm_compute; reflexivity).
  destruct E as [ev E].
  destruct (H1 1%nat ev E) as (p & -> & Hk & _ & Hc & _).
  assert (R : exists r, snd out = Ok r /\ r_nit r = 1 /\ r_status r = 0)
    by (eexists; split; [vm_compute; reflexivity | split; reflexivity]).
  destruct R as (r & Hr & Hn & Hs).
  specialize (H2 r Hr ltac:(rewrite Hs; discriminate)). rewrite Hn, Hs in H2.
  exists p. split; [exact E|]. split; [exact Hk|].
  assert (Hp : p_tableau p = Mat 3 [[1; 1; 4]; [0; 1; 4]]%Q).
  { vm_compute in E. injection E as <-. reflexivity. }
  split; [rewrite Hc, Hp; reflexivity|]. split; [exact Hp | exact H2].
Defined.

(** C8, as stated, fails in Phase 1: on the Phase 1 tableau of
    [max x, x <= 1] the engine makes two calls and ends with status 0; the
    second call is the last of the phase and carries an optimal tableau, yet
    its completion flag is false. *)
Lemma phase1_last_call_not_complete :
  let T := Mat 4 [[1; 1; 1; 1]; [-1; 0; 0; 0]; [-1; -1; 0; -1]]%Q in
  exists p0 p1 r,
    lpsimplex T 1 1 1 1000 1 true default_tol 0 = ([Observe p0; Observe p1], Ok r) /\
    r_status r = 0 /\ p_phase p1 = 1 /\
    optimal default_tol (p_tableau p1) = true /\
    p_complete p0 = false /\ p_complete p1 = false.
Proof.
  intro T. do 3 eexists. split; [vm_compute; reflexivity|]. repeat split.
Qed.

(** ** Rejected inputs *)

Lemma getitem_nth (l : list bound) (i : nat) (d : bound) :
  (i < length l)%nat -> getitem (Arr1 l) i = Ok (nth i l d).
Proof.
  intro H. unfold getitem.
  rewrite (nth_error_nth' l d H). reflexivity.
Qed.

Lemma qltb_irrefl (a : Q) : qltb a a = false.
Proof. unfold qltb. apply negb_false_iff, Qle_bool_iff, Qle_refl. Qed.

(** Under the default bounds neither loop changes anything. *)
Lemma bounds_step_default (n i : nat) (s : pstate) :
  getitem (L s) i = Ok (Fin 0) -> getitem (U s) i = Ok PInf ->
  bounds_step n i s = Ok s /\ shift_step i s = Ok s.
Proof.
  intros HL HU. unfold bounds_step, shift_step. rewrite HL, HU.
  cbn [ebind bgtb isinf isfinite andb]. rewrite qltb_irrefl.
  cbn [ebind]. rewrite HU. cbn [ebind isinf bgtb]. split; reflexivity.
Qed.

Lemma loops_default (n : nat) (s : pstate) (idx : list nat) :
  L s = Arr1 (repeat (Fin 0) n) -> U s = Arr1 (repeat PInf n) ->
  (forall i, In i idx -> (i < n)%nat) ->
  efold (bounds_step n) idx s = Ok s /\ efold shift_step idx s = Ok s.
Proof.
  intros HL HU. induction idx as [|i idx IH]; intro Hidx; [split; reflexivity|].
  assert (Hi : (i < n)%nat) by (apply Hidx; now left).
  destruct (bounds_step_default n i s) as [H1 H2].
  - rewrite HL, (getitem_nth _ _ (Fin 0)) by (now rewrite repeat_length).
    now rewrite nth_repeat.
  - rewrite HU, (getitem_nth _ _ PInf) by (now rewrite repeat_length).
    now rewrite nth_repeat.
  - cbn [efold]. rewrite H1, H2. cbn [ebind].
    apply IH. intros j Hj. apply Hidx. now right.
Qed.

Lemma check_shapes_spec (n : nat) (s : pstate) :
  cc (check_shapes n s) = cc s /\
  (st s = -1 -> st (check_shapes n s) = -1) /\
  (nrows (Aeq s) <> length (beq s) \/ nrows (Aub s) <> length (bub s) \/
   ((0 < ncols (Aeq s))%nat /\ ncols (Aeq s) <> n) \/
   ((0 < ncols (Aub s))%nat /\ ncols (Aub s) <> n) ->
   st (check_shapes n s) = -1).
Proof.
  unfold check_shapes.
  destruct (Nat.eqb_spec (nrows (Aeq s)) (length (beq s))) as [E1|E1];
    cbn [negb invalid Aub bub Aeq beq];
    destruct (Nat.eqb_spec (nrows (Aub s)) (length (bub s))) as [E2|E2];
    cbn [negb invalid Aub bub Aeq beq];
    destruct (Nat.ltb_spec 0 (ncols (Aeq s))) as [E3|E3];
    destruct (Nat.eqb_spec (ncols (Aeq s)) n) as [E4|E4];
    cbn [negb andb invalid Aub bub Aeq beq];
    destruct (Nat.ltb_spec 0 (ncols (Aub s))) as [E5|E5];
    destruct (Nat.eqb_spec (ncols (Aub s)) n) as [E6|E6];
    cbn [negb andb invalid cc st];
    (split; [reflexivity|]); (split; [intro H; try reflexivity; exact H|]);
    intro H; try reflexivity;
    exfalso; destruct H as [H|[H|[[H1 H2]|[H1 H2]]]]; try contradiction; lia.
Qed.

(** The solver returns before building a tableau whenever the
    normalisation leaves a status other than 0. *)
Lemma rejected_after_normalize (c : list Q) (A_ub : option mat)
    (b_ub : option (list Q)) (A_eq : option mat) (b_eq : option (list Q))
    (bounds : option (list (list entry))) (maxiter : Z) (callback : bool)
    (tol : Q) (n : nat) (fl : bool) (s : pstate) :
  normalize c A_ub b_ub A_eq b_eq bounds = Ok (n, fl, s) -> st s = -1 ->
  _linprog_simplex c A_ub b_ub A_eq b_eq bounds maxiter callback tol =
  ([], Ok (MkResult (zeros (length (cc s))) 0 0 (-1) (msg s) false)).
Proof.
  intros Hn Hs. unfold _linprog_simplex. rewrite Hn.
  erewrite (rbind_ok (lift _)) by reflexivity.
  cbn beta iota. rewrite Hs. reflexivity.
Qed.

Lemma length_vsub (a b : list Q) :
  length (vsub a b) = Nat.min (length a) (length b).
Proof. unfold vsub. now rewrite length_map, length_combine. Qed.

Lemma nrows_set_col (A : mat) (i : nat) (v : list Q) :
  length v = nrows A -> nrows (set_col A i v) = nrows A.
Proof.
  intro H. unfold set_col, nrows. cbn [rows].
  rewrite length_map, length_combine. unfold nrows in H. lia.
Qed.

(** One turn of the second loop on conforming arrays: no exception, the
    shapes stay, a status of -1 stays. *)
Lemma shift_step_ok (n i : nat) (s : pstate) (l u : list bound) :
  L s = Arr1 l -> U s = Arr1 u -> length l = n -> length u = n -> (i < n)%nat ->
  ncols (Aeq s) = n -> ncols (Aub s) = n ->
  nrows (Aeq s) = length (beq s) -> nrows (Aub s) = length (bub s) ->
  length (cc s) = n ->
  exists s',
    shift_step i s = Ok s' /\ L s' = Arr1 l /\ U s' = Arr1 u /\
    ncols (Aeq s') = n /\ ncols (Aub s') = n /\
    nrows (Aeq s') = length (beq s') /\ nrows (Aub s') = length (bub s') /\
    length (cc s') = n /\ (st s = -1 -> st s' = -1).
Proof.
  intros HL HU Hl Hu Hi HcE HcU HrE HrU Hcc.
  assert (Hi' : (i <? n)%nat = true) by (now apply Nat.ltb_lt).
  assert (H0' : (0 <? n)%nat = true) by (apply Nat.ltb_lt; lia).
  assert (HcolE : forall j, (j <? n)%nat = true ->
                    col_of (Aeq s) j = Ok (column (Aeq s) j))
    by (intros j Hj; unfold col_of; now rewrite HcE, Hj).
  assert (HcolU : forall j, (j <? n)%nat = true ->
                    col_of (Aub s) j = Ok (column (Aub s) j))
    by (intros j Hj; unfold col_of; now rewrite HcU, Hj).
  assert (HbE : forall f, bcast_sub (beq s) (map f (column (Aeq s) i)) =
                          Ok (vsub (beq s) (map f (column (Aeq s) i))))
    by (intro f; unfold bcast_sub;
        now rewrite length_map, column_length, HrE, Nat.eqb_refl).
  assert (HbU : forall f, bcast_sub (bub s) (map f (column (Aub s) i)) =
                          Ok (vsub (bub s) (map f (column (Aub s) i))))
    by (intro f; unfold bcast_sub;
        now rewrite length_map, column_length, HrU, Nat.eqb_refl).
  assert (HgU : getitem (Arr1 u) i = Ok (nth i u PInf))
    by (apply getitem_nth; lia).
  unfold shift_step. rewrite HL, (getitem_nth l i (Fin 0)) by lia.
  cbn [ebind].
  destruct (bgtb (Fin 0) (nth i l (Fin 0)));
    [destruct (isfinite (nth i l (Fin 0))); cbn [andb]|].
  - rewrite (HcolE i Hi'). cbn [ebind]. rewrite HbE. cbn [ebind].
    rewrite (HcolU i Hi'). cbn [ebind]. rewrite HbU. cbn [ebind U].
    rewrite HU, HgU. cbn [ebind].
    eexists. split; [reflexivity|].
    destruct (isinf (nth i u PInf)); [destruct (bgtb (Fin 0) (nth i u PInf))|];
      cbn [invalid L U Aeq Aub beq bub cc st];
      rewrite !length_vsub, !length_map, !column_length;
      repeat split; try assumption; try reflexivity; try lia; intro; assumption.
  - rewrite (HcolE 0%nat H0'). cbn [ebind]. rewrite (HcolE i Hi'). cbn [ebind].
    rewrite (HcolU 0%nat H0'). cbn [ebind]. rewrite (HcolU i Hi'). cbn [ebind U].
    rewrite HU, HgU. cbn [ebind].
    eexists. split; [reflexivity|].
    destruct (isinf (nth i u PInf)); [destruct (bgtb (Fin 0) (nth i u PInf))|];
      cbn [invalid L U Aeq Aub beq bub cc st];
      rewrite !nrows_set_col
        by (rewrite length_vsub, !column_length; lia);
      rewrite length_set_nth by lia;
      cbn [set_col ncols];
      repeat split; try assumption; try reflexivity; intro; assumption.
  - cbn [ebind]. rewrite HU, HgU. cbn [ebind].
    eexists. split; [reflexivity|].
    destruct (isinf (nth i u PInf)); [destruct (bgtb (Fin 0) (nth i u PInf))|];
      cbn [invalid L U Aeq Aub beq bub cc st];
      repeat split; try assumption; try reflexivity; intro; assumption.
Qed.

Lemma shift_loop_ok (n : nat) (l u : list bound) (idx : list nat) :
  length l = n -> length u = n -> (forall i, In i idx -> (i < n)%nat) ->
  forall s,
    L s = Arr1 l -> U s = Arr1 u ->
    ncols (Aeq s) = n -> ncols (Aub s) = n ->
    nrows (Aeq s) = length (beq s) -> nrows (Aub s) = length (bub s) ->
    length (cc s) = n ->
    exists s', efold shift_step idx s = Ok s' /\
               length (cc s') = n /\ (st s = -1 -> st s' = -1).
Proof.
  intros Hl Hu. induction idx as [|i idx IH]; intros Hidx s HL HU HcE HcU HrE HrU Hcc.
  - exists s. repeat split; [exact Hcc | intro H; exact H].
  - destruct (shift_step_ok n i s l u HL HU Hl Hu) as
      (s1 & Hstep & HL1 & HU1 & HcE1 & HcU1 & HrE1 & HrU1 & Hcc1 & Hst1);
      try assumption; [apply Hidx; now left|].
    destruct (IH (fun j Hj => Hidx j (or_intror Hj)) s1 HL1 HU1 HcE1 HcU1 HrE1 HrU1 Hcc1)
      as (s' & Hloop & Hcc' & Hst').
    exists s'. cbn [efold]. rewrite Hstep. cbn [ebind].
    repeat split; [exact Hloop | exact Hcc' | intro H; apply Hst', Hst1, H].
Qed.

Lemma no_neg_inf_default (n : nat) : any_neg_inf (Arr1 (repeat (Fin 0) n)) = false.
Proof. induction n as [|n IH]; [reflexivity | exact IH]. Qed.

Lemma range_lt (n i : nat) : In i (range n) -> (i < n)%nat.
Proof. unfold range. rewrite in_seq. lia. Qed.

(** The normalisation under the default bounds [0, +inf). *)
Lemma normalize_default (c : list Q) (A_ub : option mat) (b_ub : option (list Q))
    (A_eq : option mat) (b_eq : option (list Q))
    (bounds : option (list (list entry))) (st0 : Z) (m0 : string) :
  analyze_bounds (length c) bounds =
    Ok (st0, m0, Arr1 (repeat (Fin 0) (length c)), Arr1 (repeat PInf (length c))) ->
  normalize c A_ub b_ub A_eq b_eq bounds =
  Ok (length c, false,
      check_shapes (length c)
        (PState st0 m0 (Arr1 (repeat (Fin 0) (length c)))
                (Arr1 (repeat PInf (length c))) c
                (asarray2 (length c) A_eq) (asarray1 b_eq)
                (asarray2 (length c) A_ub) (asarray1 b_ub) 0%Q)).
Proof.
  intro Ha. unfold normalize. rewrite Ha. cbn [ebind].
  rewrite no_neg_inf_default. cbn [ebind].
  set (s0 := PState st0 m0 _ _ c _ _ _ _ 0%Q).
  destruct (loops_default (length c) s0 (range (length c)) eq_refl eq_refl
                          (range_lt (length c))) as [H1 H2].
  rewrite H1. cbn [ebind]. rewrite H2. reflexivity.
Qed.

Lemma existsb_bad_pair (bs : list (list entry)) :
  existsb (fun lu => violates (fst lu) (snd lu))
          (combine (map (fun p => lower_of (nth 0 p None)) bs)
                   (map (fun p => upper_of (nth 1 p None)) bs))
  = existsb bad_pair bs.
Proof.
  induction bs as [|p bs IH]; [reflexivity|].
  cbn [map combine existsb fst snd]. now rewrite IH.
Qed.

(** The normalisation of conforming arrays under per-variable pairs, one of
    them bad: no exception, status -1. *)
Lemma normalize_bad_pair (c : list Q) (A_ub : option mat) (b_ub : option (list Q))
    (A_eq : option mat) (b_eq : option (list Q)) (bs : list (list entry)) :
  length bs = length c -> length c <> 1%nat ->
  Forall (fun p => length p = 2%nat) bs -> existsb bad_pair bs = true ->
  shapes_conform (length c) A_ub b_ub A_eq b_eq ->
  exists n1 fl s,
    normalize c A_ub b_ub A_eq b_eq (Some bs) = Ok (n1, fl, s) /\
    st s = -1 /\ length (cc s) = n1 /\ (n1 = length c \/ n1 = S (length c)).
Proof.
  intros Hlen H1 Hp Hbad (HcE & HrE & HcU & HrU).
  unfold normalize. rewrite (analyze_bounds_pairs _ _ Hlen H1 Hp). cbn [ebind].
  set (lb := map (fun p => lower_of (nth 0 p None)) bs).
  set (ub := map (fun p => upper_of (nth 1 p None)) bs).
  assert (Hlb : length lb = length c) by (unfold lb; now rewrite length_map).
  assert (Hub : length ub = length c) by (unfold ub; now rewrite length_map).
  assert (Hv : existsb (fun lu => violates (fst lu) (snd lu)) (combine lb ub) = true)
    by (unfold lb, ub; now rewrite existsb_bad_pair).
  set (s0 := PState 0 ""%string (Arr1 lb) (Arr1 ub) c _ _ _ _ 0%Q).
  assert (Hmain : forall (n1 : nat) (fl : bool) (s1 : pstate) (l1 u1 : list bound),
            L s1 = Arr1 l1 -> U s1 = Arr1 u1 ->
            length l1 = n1 -> length u1 = n1 ->
            ncols (Aeq s1) = n1 -> ncols (Aub s1) = n1 ->
            nrows (Aeq s1) = length (beq s1) -> nrows (Aub s1) = length (bub s1) ->
            length (cc s1) = n1 ->
            existsb (fun lu => violates (fst lu) (snd lu)) (combine l1 u1) = true ->
            exists s,
              (s2 <- efold (bounds_step n1) (range n1) s1 ;;
               s3 <- efold shift_step (range n1) s2 ;;
               Ok (n1, fl, check_shapes n1 s3))%exc = Ok (n1, fl, s) /\
              st s = -1 /\ length (cc s) = n1).
  { intros n1 fl s1 l1 u1 HL HU Hl1 Hu1 HcE1 HcU1 HrE1 HrU1 Hcc1 Hv1.
    destruct (bounds_loop_gen n1 n1 s1 [] l1 [] u1 HL HU Hl1 Hu1 eq_refl)
      as (s2 & Hloop & HL2 & HU2 & HA2 & Hb2 & Hc2 & Hst2 & Hcc2 & Heq2 & Hbeq2 & _);
      [simpl; lia | exact HcU1 |].
    cbn [length app] in Hloop, HL2, HU2, HA2, Hb2.
    rewrite Hv1 in Hst2.
    destruct (shift_loop_ok n1 (map reset_lower l1) (map reset_upper u1) (range n1))
      with (s := s2) as (s3 & Hshift & Hcc3 & Hst3);
      try assumption; try (rewrite length_map; assumption);
      try apply range_lt; try congruence.
    { unfold nrows. rewrite HA2, Hb2, !length_app, !length_map.
      unfold nrows in HrU1. lia. }
    exists (check_shapes n1 s3). unfold range in *. rewrite Hloop. cbn [ebind].
    rewrite Hshift. cbn [ebind].
    destruct (check_shapes_spec n1 s3) as (Hc & Hs & _).
    split; [reflexivity|]. split; [apply Hs, Hst3, Hst2 | now rewrite Hc]. }
  assert (HrE' : nrows (hstack_zero (asarray2 (length c) A_eq)) = length (asarray1 b_eq))
    by (unfold nrows, hstack_zero; cbn [rows]; rewrite length_map; exact HrE).
  assert (HrU' : nrows (hstack_zero (asarray2 (length c) A_ub)) = length (asarray1 b_ub))
    by (unfold nrows, hstack_zero; cbn [rows]; rewrite length_map; exact HrU).
  assert (Hv' : existsb (fun lu => violates (fst lu) (snd lu))
                        (combine (Fin 0 :: lb) (PInf :: ub)) = true)
    by (cbn [combine existsb fst snd]; rewrite Hv; apply orb_true_r).
  destruct (any_neg_inf (Arr1 lb)).
  - destruct (Hmain (S (length c)) true
                (PState 0 ""%string (Arr1 (Fin 0 :: lb)) (Arr1 (PInf :: ub))
                        (0%Q :: c) (hstack_zero (asarray2 (length c) A_eq))
                        (asarray1 b_eq)
                        (hstack_zero (asarray2 (length c) A_ub))
                        (asarray1 b_ub) 0%Q)
                (Fin 0 :: lb) (PInf :: ub)) as (s & Hs & Hst & Hcc);
      cbn [L U Aeq Aub beq bub cc hstack_zero ncols length];
      try reflexivity; try assumption; try (f_equal; assumption).
    exists (S (length c)), true, s.
    split; [exact Hs|]. repeat split; try assumption. now right.
  - destruct (Hmain (length c) false s0 lb ub) as (s & Hs & Hst & Hcc);
      try reflexivity; try assumption.
    exists (length c), false, s.
    split; [exact Hs|]. repeat split; try assumption. now left.
Qed.

(** The variable count and the floor flag are fixed by line 693, before the
    two loops. *)
Lemma normalize_floor (c : list Q) (A_ub : option mat) (b_ub : option (list Q))
    (A_eq : option mat) (b_eq : option (list Q))
    (bounds : option (list (list entry))) (n1 : nat) (fl : bool) (s : pstate) :
  normalize c A_ub b_ub A_eq b_eq bounds = Ok (n1, fl, s) ->
  fl = floor_variable_added (length c) bounds /\
  n1 = (if fl then S (length c) else length c).
Proof.
  unfold normalize, floor_variable_added. cbv zeta.
  destruct (analyze_bounds (length c) bounds) as [[[[st0 msg0] L0] U0]|e];
    cbn [ebind]; [|discriminate].
  destruct (any_neg_inf L0).
  - destruct (add_floor _) as [s'|e]; cbn [ebind]; [|discriminate].
    destruct (efold (bounds_step _) _ _) as [s2|e]; cbn [ebind]; [|discriminate].
    destruct (efold shift_step _ _) as [s3|e]; cbn [ebind]; [|discriminate].
    intro H. injection H as <- <- _. split; reflexivity.
  - cbn [ebind].
    destruct (efold (bounds_step _) _ _) as [s2|e]; cbn [ebind]; [|discriminate].
    destruct (efold shift_step _ _) as [s3|e]; cbn [ebind]; [|discriminate].
    intro H. injection H as <- <- _. split; reflexivity.
Qed.

Lemma existsb_neg_inf (bs : list (list entry)) :
  existsb is_neg_inf (map (fun p => lower_of (nth 0 p None)) bs) = true <->
  exists p, In p bs /\ lower_of (nth 0 p None) = NInf.
Proof.
  rewrite existsb_exists. split.
  - intros (b & Hin & Hb). apply in_map_iff in Hin. destruct Hin as (p & <- & Hp).
    exists p. split; [exact Hp|].
    assert (Hinf : forall b, is_neg_inf b = true -> b = NInf)
      by (intros [q| |]; try discriminate; reflexivity).
    apply Hinf, Hb.
  - intros (p & Hp & Hl). exists NInf. split; [|reflexivity].
    apply in_map_iff. exists p. split; assumption.
Qed.

(** C6, as amended.  The solver returns status -1 with a zero solution
    vector, success false and zero iterations, without building a tableau or
    calling the engine, for every input whose constraint matrices are
    two-dimensional and
    - whose bounds are a non-empty sequence of length neither 1 nor [n]; or
    - whose bounds are absent or empty and whose constraint arrays mismatch
      (rows of a matrix against the length of its right-hand side, or a
      nonzero column count against [n]); or
    - whose bounds are [n <> 1] well-formed pairs, one of them with
      [lb > ub], [lb = +inf] or [ub = -inf], the constraint arrays having
      matching shapes.
    The zero vector has [n + 1] entries when a floor variable was added and
    [n] entries otherwise; a floor variable is added exactly when [bounds]
    holds [n] pairs and the lower bound of one of them is [None] or -inf. *)
Theorem invalid_input_rejected (c : list Q) (A_ub : option mat)
    (b_ub : option (list Q)) (A_eq : option mat) (b_eq : option (list Q))
    (bounds : option (list (list entry))) (maxiter : Z) (callback : bool) (tol : Q) :
  bounds_of_wrong_length (length c) bounds \/
  (default_bounds bounds /\ shapes_mismatch (length c) A_ub b_ub A_eq b_eq) \/
  (bounds_with_bad_pair (length c) bounds /\
   shapes_conform (length c) A_ub b_ub A_eq b_eq) ->
  exists k m,
    _linprog_simplex c A_ub b_ub A_eq b_eq bounds maxiter callback tol =
    ([], Ok (MkResult (zeros k) 0 0 (-1) m false)) /\
    k = (if floor_variable_added (length c) bounds
         then S (length c) else length c) /\
    (floor_variable_added (length c) bounds = true <->
     exists bs p, bounds = Some bs /\ length bs = length c /\ In p bs /\
                  lower_of (nth 0 p None) = NInf).
Proof.
  intros [(bs & -> & H0 & H1 & Hn) | [[Hd Hm] | [(bs & -> & Hlen & H1 & Hp & Hbad) Hc]]].
  - assert (Ha : analyze_bounds (length c) (Some bs) =
                 Ok (-1, msg_bounds_length, Arr1 (repeat (Fin 0) (length c)),
                     Arr1 (repeat PInf (length c)))).
    { unfold analyze_bounds.
      apply Nat.eqb_neq in H0, H1, Hn. now rewrite H0, H1, Hn. }
    pose proof (normalize_default c A_ub b_ub A_eq b_eq _ _ _ Ha) as Hnorm.
    destruct (check_shapes_spec (length c)
                (PState (-1) msg_bounds_length (Arr1 (repeat (Fin 0) (length c)))
                        (Arr1 (repeat PInf (length c))) c
                        (asarray2 (length c) A_eq) (asarray1 b_eq)
                        (asarray2 (length c) A_ub) (asarray1 b_ub) 0%Q))
      as (Hcc & Hst & _).
    assert (Hfl : floor_variable_added (length c) (Some bs) = false)
      by (unfold floor_variable_added; rewrite Ha; apply no_neg_inf_default).
    eexists _, _. split; [|split].
    + rewrite (rejected_after_normalize _ _ _ _ _ _ _ _ _ _ _ _ Hnorm (Hst eq_refl)).
      now rewrite Hcc.
    + rewrite Hfl. reflexivity.
    + rewrite Hfl. split; [discriminate|].
      intros (bs' & p & E & Hl & _). injection E as <-. contradiction.
  - assert (Ha : analyze_bounds (length c) bounds =
                 Ok (0, ""%string, Arr1 (repeat (Fin 0) (length c)),
                     Arr1 (repeat PInf (length c))))
      by (destruct Hd as [-> | ->]; reflexivity).
    pose proof (normalize_default c A_ub b_ub A_eq b_eq _ _ _ Ha) as Hnorm.
    destruct (check_shapes_spec (length c)
                (PState 0 ""%string (Arr1 (repeat (Fin 0) (length c)))
                        (Arr1 (repeat PInf (length c))) c
                        (asarray2 (length c) A_eq) (asarray1 b_eq)
                        (asarray2 (length c) A_ub) (asarray1 b_ub) 0%Q))
      as (Hcc & _ & Hst).
    assert (Hfl : floor_variable_added (length c) bounds = false)
      by (unfold floor_variable_added; rewrite Ha; apply no_neg_inf_default).
    eexists _, _. split; [|split].
    + rewrite (rejected_after_normalize _ _ _ _ _ _ _ _ _ _ _ _ Hnorm (Hst Hm)).
      now rewrite Hcc.
    + rewrite Hfl. reflexivity.
    + rewrite Hfl. split; [discriminate|].
      intros (bs' & p & E & _ & Hin & _).
      destruct Hd as [-> | ->]; [discriminate|]. injection E as <-. destruct Hin.
  - destruct (normalize_bad_pair c A_ub b_ub A_eq b_eq bs Hlen H1 Hp Hbad Hc)
      as (n1 & fl & s & Hnorm & Hst & Hcc & _).
    destruct (normalize_floor _ _ _ _ _ _ _ _ _ Hnorm) as [Hfl Hn1].
    exists n1, (msg s). split; [|split].
    + rewrite (rejected_after_normalize _ _ _ _ _ _ _ _ _ _ _ _ Hnorm Hst).
      now rewrite Hcc.
    + rewrite <- Hfl. exact Hn1.
    + unfold floor_variable_added.
      rewrite (analyze_bounds_pairs _ _ Hlen H1 Hp). cbn [any_neg_inf].
      rewrite existsb_neg_inf. split.
      * intros (p & Hin & Hl). exists bs, p. auto.
      * intros (bs' & p & E & _ & Hin & Hl). injection E as <-. exists p. auto.
Qed.

(** Two variables, the first free and the second with bounds (3, 1), under
    [x + y <= 4]: a floor variable is added and the input is rejected with a
    zero vector of three entries. *)
Lemma invalid_input_rejected_witness :
  let bs := [[None; None]; [Some (Fin 3); Some (Fin 1)]] in
  floor_variable_added 2 (Some bs) = true /\
  exists m,
    _linprog_simplex [1; 1]%Q (Some (Mat 2 [[1; 1]]%Q)) (Some [4%Q]) None None
                     (Some bs) 1000 false default_tol =
    ([], Ok (MkResult (zeros 3) 0 0 (-1) m false)).
Proof.
  intro bs.
  destruct (invalid_input_rejected [1; 1]%Q (Some (Mat 2 [[1; 1]]%Q)) (Some [4%Q])
              None None (Some bs) 1000 false default_tol) as (k & m & Ho & Hk & _).
  - right; right. split.
    + exists bs. split; [reflexivity|]. split; [reflexivity|].
      split; [discriminate|]. split; [repeat constructor | reflexivity].
    + repeat split.
  - split; [reflexivity|]. exists m. rewrite Ho, Hk. reflexivity.
Defined.

(** C6, as stated, fails for an empty [bounds]: its length, 0, is neither 1
    nor the number of variables, 2, yet line 670 takes it for the default
    bounds and the problem is solved. *)
Lemma empty_bounds_accepted :
  let out := _linprog_simplex [-1; -2]%Q (Some (Mat 2 [[1; 1]]%Q)) (Some [4%Q])
                              None None (Some []) 1000 false default_tol in
  snd out = Ok (MkResult [0; 4]%Q (-8) 2 0 msg_success true) /\
  exists T, In (Invoke 1 0 T) (fst out).
Proof.
  intro out. split; [vm_compute; reflexivity|].
  eexists. left. vm_compute. reflexivity.
Qed.

(** * Further properties

    Properties read off the source, function by function. *)

(** ** The entering column *)

Lemma qltb_lt (a b : Q) : qltb a b = true <-> (a < b)%Q.
Proof.
  unfold qltb. rewrite negb_true_iff. split; intro H.
  - apply Qnot_le_lt. intro Hle. apply Qle_bool_iff in Hle. congruence.
  - destruct (Qle_bool b a) eqn:E; [|reflexivity].
    apply Qle_bool_iff in E. exfalso. exact (Qlt_not_le _ _ H E).
Qed.

Lemma qltb_ge (a b : Q) : qltb a b = false <-> (b <= a)%Q.
Proof.
  unfold qltb. rewrite negb_false_iff. apply Qle_bool_iff.
Qed.

Lemma argmin_from_spec (v pre : list Q) (best : nat) :
  (best < length pre)%nat ->
  (forall j, (j < length pre)%nat -> (nth best pre 0 <= nth j pre 0)%Q) ->
  (forall j, (j < best)%nat -> (nth best pre 0 < nth j pre 0)%Q) ->
  let k := argmin_from v (length pre) best (nth best pre 0%Q) in
  (k < length (pre ++ v))%nat /\
  (forall j, (j < length (pre ++ v))%nat ->
             (nth k (pre ++ v) 0 <= nth j (pre ++ v) 0)%Q) /\
  (forall j, (j < k)%nat -> (nth k (pre ++ v) 0 < nth j (pre ++ v) 0)%Q).
Proof.
  revert pre best. induction v as [|c v IH]; intros pre best Hb Hle Hlt; cbn [argmin_from].
  - rewrite app_nil_r. auto.
  - assert (Hlen : length (pre ++ [c]) = S (length pre))
      by (rewrite length_app; cbn; lia).
    assert (Hc : nth (length pre) (pre ++ [c]) 0%Q = c)
      by (rewrite app_nth2, Nat.sub_diag by lia; reflexivity).
    assert (Hpre : forall j, (j < length pre)%nat ->
                     nth j (pre ++ [c]) 0%Q = nth j pre 0%Q)
      by (intros j Hj; apply app_nth1; exact Hj).
    replace (pre ++ c :: v) with ((pre ++ [c]) ++ v)
      by (rewrite <- app_assoc; reflexivity).
    destruct (qltb c (nth best pre 0%Q)) eqn:E.
    + apply qltb_lt in E.
      specialize (IH (pre ++ [c]) (length pre)).
      rewrite Hlen, Hc in IH. apply IH.
      * lia.
      * intros j Hj. destruct (Nat.eq_dec j (length pre)) as [->|Hne].
        -- rewrite Hc. apply Qle_refl.
        -- rewrite Hpre by lia. apply Qlt_le_weak.
           eapply Qlt_le_trans; [exact E|]. apply Hle. lia.
      * intros j Hj. rewrite Hpre by lia.
        eapply Qlt_le_trans; [exact E|]. apply Hle. lia.
    + apply qltb_ge in E.
      specialize (IH (pre ++ [c]) best).
      rewrite Hlen, (Hpre best Hb) in IH. apply IH.
      * lia.
      * intros j Hj. destruct (Nat.eq_dec j (length pre)) as [->|Hne].
        -- rewrite Hc. exact E.
        -- rewrite Hpre by lia. apply Hle. lia.
      * intros j Hj. rewrite Hpre by lia. apply Hlt. exact Hj.
Qed.

(** X1.  The entering column of line 294.  [np.argmin] returns the first
    index of a least cell of the objective row: no cell is smaller, and
    every cell before it is strictly larger.  On an empty row (a tableau
    with the RHS column only) it raises ValueError. *)
Theorem argmin_first_least (v : list Q) :
  match argmin v with
  | Ok k =>
      (k < length v)%nat /\
      (forall j, (j < length v)%nat -> (nth k v 0 <= nth j v 0)%Q) /\
      (forall j, (j < k)%nat -> (nth k v 0 < nth j v 0)%Q)
  | Raise e => e = ValueError /\ v = []
  end.
Proof.
  destruct v as [|c v]; cbn [argmin]; [auto|].
  apply (argmin_from_spec v [c] 0).
  - cbn. lia.
  - intros j Hj. cbn in Hj. assert (j = 0%nat) as -> by lia. apply Qle_refl.
  - intros j Hj. lia.
Qed.

(** ** The ratio test *)

Lemma insert_by_perm (key : nat -> Q) (i : nat) (l : list nat) :
  Permutation (insert_by key i l) (i :: l).
Proof.
  induction l as [|j l IH]; cbn [insert_by]; [reflexivity|].
  destruct (qltb (key i) (key j)); [reflexivity|].
  rewrite IH. apply perm_swap.
Qed.

Lemma fold_insert_perm (key : nat -> Q) (idx acc : list nat) :
  Permutation (fold_left (fun l i => insert_by key i l) idx acc) (idx ++ acc).
Proof.
  revert acc. induction idx as [|i idx IH]; intro acc; cbn [fold_left app];
    [reflexivity|].
  rewrite IH. rewrite insert_by_perm. symmetry. apply Permutation_middle.
Qed.

Lemma argsort_perm (v : list Q) : Permutation (argsort v) (range (length v)).
Proof.
  unfold argsort. rewrite fold_insert_perm, app_nil_r. reflexivity.
Qed.

Lemma argsort_in (v : list Q) (i : nat) :
  In i (argsort v) <-> (i < length v)%nat.
Proof.
  split; intro H.
  - apply (Permutation_in _ (argsort_perm v)) in H.
    apply in_seq in H. lia.
  - apply (Permutation_in _ (Permutation_sym (argsort_perm v))).
    apply in_seq. lia.
Qed.

Lemma argsort_length (v : list Q) : length (argsort v) = length v.
Proof.
  rewrite (Permutation_length (argsort_perm v)). apply length_seq.
Qed.

Lemma insert_by_ascending (key : nat -> Q) (i : nat) (l : list nat) :
  ascending key l -> ascending key (insert_by key i l).
Proof.
  unfold ascending. induction l as [|j l IH]; intro Hs; cbn [insert_by].
  - constructor; constructor.
  - inversion Hs as [|? ? Hs' Hall]; subst.
    destruct (qltb (key i) (key j)) eqn:E.
    + apply qltb_lt in E. constructor; [exact Hs|].
      constructor; [apply Qlt_le_weak; exact E|].
      eapply Forall_impl; [|exact Hall]. cbn. intros a Ha.
      apply Qlt_le_weak. eapply Qlt_le_trans; eauto.
    + apply qltb_ge in E. constructor; [apply IH; exact Hs'|].
      eapply Permutation_Forall; [symmetry; apply insert_by_perm|].
      constructor; assumption.
Qed.

Lemma argsort_ascending (v : list Q) :
  ascending (fun j => nth j v 0%Q) (argsort v).
Proof.
  unfold argsort.
  assert (H : forall idx acc, ascending (fun j => nth j v 0%Q) acc ->
            ascending (fun j => nth j v 0%Q)
              (fold_left (fun l i => insert_by (fun j => nth j v 0%Q) i l) idx acc)).
  { induction idx as [|i idx IH]; intros acc Hacc; cbn [fold_left]; [exact Hacc|].
    apply IH, insert_by_ascending, Hacc. }
  apply H. constructor.
Qed.

(** The head of [argsort v] indexes a least cell. *)
Lemma argsort_head_least (v : list Q) (k : nat) (rest : list nat) :
  argsort v = k :: rest ->
  forall j, (j < length v)%nat -> (nth k v 0 <= nth j v 0)%Q.
Proof.
  intros He j Hj. pose proof (argsort_ascending v) as Hs.
  apply argsort_in in Hj. rewrite He in Hs, Hj.
  inversion Hs as [|? ? _ Hall]; subst.
  destruct Hj as [->|Hj]; [apply Qle_refl|].
  rewrite Forall_forall in Hall. apply Hall, Hj.
Qed.

Lemma length_body (t : mat) (phase : Z) :
  length (if phase =? 1 then firstn (nrows t - 2) (rows t)
          else firstn (nrows t - 1) (rows t)) = nbody t phase.
Proof.
  unfold nbody, nrows. destruct (phase =? 1); rewrite length_firstn; lia.
Qed.

Lemma ratio_candidates_in (t : mat) (phase : Z) (pivcol r : nat) :
  In r (ratio_candidates t phase pivcol) <->
  (r < nbody t phase)%nat /\ (0 < cell t r pivcol)%Q.
Proof.
  unfold ratio_candidates.
  set (body := if phase =? 1 then _ else _).
  set (order := argsort (map (fun r => nth pivcol r 0%Q) body)).
  set (rq0 := map _ order).
  set (rq1 := filter _ rq0).
  set (rq2 := map _ rq1).
  assert (Hrq2 : forall i, In i (map fst rq2) <->
                  (i < nbody t phase)%nat /\ (0 < cell t i pivcol)%Q).
  { intro i. unfold rq2. rewrite map_map. cbn [fst].
    rewrite in_map_iff. split.
    - intros [q [Hq Hin]]. subst i. unfold rq1 in Hin.
      apply filter_In in Hin. destruct Hin as [Hin Hpos].
      unfold rq0 in Hin. apply in_map_iff in Hin. destruct Hin as [i [Hq Hi]].
      subst q. cbn [fst snd] in *. unfold order in Hi.
      apply argsort_in in Hi. rewrite length_map in Hi. unfold body in Hi.
      rewrite length_body in Hi. split; [exact Hi|]. apply qltb_lt, Hpos.
    - intros [Hi Hpos].
      exists (i, nth pivcol (nth i (rows t) []) 0%Q, rhs (nth i (rows t) [])).
      split; [reflexivity|]. unfold rq1. apply filter_In. split.
      + unfold rq0. apply in_map_iff. exists i. split; [reflexivity|].
        unfold order. apply argsort_in. rewrite length_map. unfold body.
        rewrite length_body. exact Hi.
      + cbn [fst snd]. apply qltb_lt, Hpos. }
  rewrite <- Hrq2. rewrite in_map_iff. split.
  - intros [k [Hk Hin]]. apply argsort_in in Hin. rewrite length_map in Hin.
    subst r. apply in_map. apply nth_In. exact Hin.
  - intro Hin. apply in_map_iff in Hin. destruct Hin as [q [Hq Hin]].
    apply (In_nth _ _ (0%nat, 0%Q)) in Hin. destruct Hin as [k [Hk Hnth]].
    exists k. split; [rewrite Hnth; exact Hq|].
    apply argsort_in. rewrite length_map. exact Hk.
Qed.

Lemma ratio_candidates_head (t : mat) (phase : Z) (pivcol r0 : nat)
    (rest : list nat) :
  ratio_candidates t phase pivcol = r0 :: rest ->
  forall r, (r < nbody t phase)%nat -> (0 < cell t r pivcol)%Q ->
            (ratio t pivcol r0 <= ratio t pivcol r)%Q.
Proof.
  intros He r Hr Hpos.
  assert (Hin : In r (ratio_candidates t phase pivcol))
    by (apply ratio_candidates_in; auto).
  revert He Hin. unfold ratio_candidates.
  set (body := if phase =? 1 then _ else _).
  set (order := argsort (map (fun r => nth pivcol r 0%Q) body)).
  set (rq0 := map _ order).
  set (rq1 := filter _ rq0).
  set (rq2 := map _ rq1).
  intros He Hin.
  assert (Hsnd : forall k, (k < length rq2)%nat ->
            snd (nth k rq2 (0%nat, 0%Q)) = ratio t pivcol (fst (nth k rq2 (0%nat, 0%Q)))).
  { intros k Hk. assert (Hk' : In (nth k rq2 (0%nat, 0%Q)) rq2) by (apply nth_In, Hk).
    unfold rq2 at 2 in Hk'. apply in_map_iff in Hk'. destruct Hk' as [q [Hq Hq']].
    rewrite <- Hq. cbn [fst snd]. unfold rq1 in Hq'. apply filter_In in Hq'.
    destruct Hq' as [Hq' _]. unfold rq0 in Hq'. apply in_map_iff in Hq'.
    destruct Hq' as [i [Hi _]]. subst q. reflexivity. }
  destruct (argsort (map snd rq2)) as [|k0 ks] eqn:Hsort; [discriminate|].
  cbn [map] in He, Hin. injection He as Hr0 _.
  assert (Hk0 : (k0 < length rq2)%nat).
  { rewrite <- (length_map snd). apply argsort_in. rewrite Hsort. left. reflexivity. }
  assert (Hr' : exists k, (k < length rq2)%nat /\ fst (nth k rq2 (0%nat, 0%Q)) = r).
  { destruct Hin as [Hin|Hin].
    - exists k0. split; [exact Hk0 | exact Hin].
    - apply in_map_iff in Hin. destruct Hin as [k [Hk Hin]]. exists k. split; [|exact Hk].
      rewrite <- (length_map snd). apply argsort_in. rewrite Hsort. right. exact Hin. }
  destruct Hr' as [k [Hk Hkr]].
  pose proof (argsort_head_least _ _ _ Hsort k) as Hle.
  rewrite length_map in Hle. specialize (Hle Hk).
  change 0%Q with (snd (0%nat, 0%Q)) in Hle. rewrite !map_nth in Hle.
  rewrite (Hsnd k0 Hk0), (Hsnd k Hk), Hr0, Hkr in Hle. exact Hle.
Qed.

(** X2.  The ratio test of lines 298-320.  The candidate pivot rows are
    exactly the constraint rows (the objective row left aside, and the
    pseudo-objective row too in Phase 1) whose cell in the pivot column is
    strictly positive; the first candidate, taken when no cycling was
    detected, has the least quotient RHS / cell among them. *)
Theorem ratio_test_sound (t : mat) (phase : Z) (pivcol : nat) :
  (forall r, In r (ratio_candidates t phase pivcol) <->
             (r < nbody t phase)%nat /\ (0 < cell t r pivcol)%Q) /\
  (forall r0 rest, ratio_candidates t phase pivcol = r0 :: rest ->
     forall r, (r < nbody t phase)%nat -> (0 < cell t r pivcol)%Q ->
               (ratio t pivcol r0 <= ratio t pivcol r)%Q).
Proof.
  split; [intro r; apply ratio_candidates_in|].
  intros r0 rest. apply ratio_candidates_head.
Qed.

(** [x + 2y <= 4], [3x + y <= 6] and the column of [x]: both rows are
    candidates and the second, of quotient 2, comes first. *)
Lemma ratio_test_sound_witness :
  let t := Mat 5 [[1; 2; 1; 0; 4]; [3; 1; 0; 1; 6]; [-1; -1; 0; 0; 0]]%Q in
  ratio_candidates t 2 0 = [1%nat; 0%nat] /\
  (In 0%nat (ratio_candidates t 2 0) <->
   (0 < nbody t 2)%nat /\ (0 < cell t 0 0)%Q) /\
  (ratio t 0 1 <= ratio t 0 0)%Q.
Proof.
  intro t. destruct (ratio_test_sound t 2 0) as [Hin Hhead].
  split; [vm_compute; reflexivity|]. split; [apply Hin|].
  apply (Hhead 1%nat [0%nat]); [vm_compute; reflexivity | vm_compute; lia |].
  vm_compute. reflexivity.
Defined.

(** ** The pivot *)

Lemma qmul_comm (a b : Q) : qmul a b = qmul b a.
Proof. unfold qmul. apply Qred_complete. apply Qmult_comm. Qed.

Lemma nth_combine_range {A} (l : list A) (i : nat) (d : A) :
  (i < length l)%nat ->
  nth i (combine (range (length l)) l) (0%nat, d) = (i, nth i l d).
Proof.
  intro Hi. unfold range. rewrite combine_nth by apply length_seq.
  rewrite seq_nth by exact Hi. reflexivity.
Qed.

Lemma nth_map_in {A B} (f : A -> B) (l : list A) (i : nat) (d : A) (d' : B) :
  (i < length l)%nat -> nth i (map f l) d' = f (nth i l d).
Proof.
  intro Hi. rewrite (nth_indep _ d' (f d)) by (rewrite length_map; exact Hi).
  apply map_nth.
Qed.

Lemma rect_row (t : mat) (i : nat) :
  rect t -> (i < nrows t)%nat -> length (nth i (rows t) []) = ncols t.
Proof.
  intros Hr Hi. unfold rect in Hr. rewrite Forall_forall in Hr.
  apply Hr, nth_In, Hi.
Qed.

Lemma pivot_row (t : mat) (pr pc i : nat) :
  (i < nrows t)%nat ->
  nth i (rows (pivot t pr pc)) [] =
  let prow := map (fun c => qdiv c (cell t pr pc)) (nth pr (rows t) []) in
  if (i =? pr)%nat then prow
  else map (fun cp => qsub (fst cp) (qmul (snd cp) (cell t i pc)))
           (combine (nth i (rows t) []) prow).
Proof.
  intro Hi. unfold pivot. cbn [rows].
  rewrite (nth_map_in _ _ _ (0%nat, [])).
  2:{ rewrite length_combine. unfold range. rewrite length_seq. unfold nrows in *. lia. }
  unfold nrows. rewrite nth_combine_range by exact Hi. cbn [fst snd]. reflexivity.
Qed.

Lemma nrows_pivot (t : mat) (pr pc : nat) : nrows (pivot t pr pc) = nrows t.
Proof.
  unfold pivot, nrows. cbn [rows]. rewrite length_map, length_combine.
  unfold range. rewrite length_seq. lia.
Qed.

(** The cells of the pivoted tableau. *)
Lemma pivot_cell (t : mat) (pr pc i j : nat) :
  rect t -> (pr < nrows t)%nat -> (i < nrows t)%nat -> (j < ncols t)%nat ->
  cell (pivot t pr pc) i j =
  if (i =? pr)%nat then qdiv (cell t pr j) (cell t pr pc)
  else qsub (cell t i j) (qmul (qdiv (cell t pr j) (cell t pr pc)) (cell t i pc)).
Proof.
  intros Hrect Hpr Hi Hj. unfold cell at 1. rewrite pivot_row by exact Hi.
  cbv zeta. destruct (i =? pr)%nat.
  - rewrite (nth_map_in _ _ _ 0%Q) by (rewrite rect_row; assumption). reflexivity.
  - rewrite (nth_map_in _ _ _ (0%Q, 0%Q)).
    2:{ rewrite length_combine, length_map, !rect_row by assumption. lia. }
    rewrite combine_nth by (rewrite length_map, !rect_row by assumption; reflexivity).
    cbn [fst snd].
    rewrite (nth_map_in _ _ _ 0%Q) by (rewrite rect_row; assumption). reflexivity.
Qed.

Lemma rect_pivot (t : mat) (pr pc : nat) :
  rect t -> (pr < nrows t)%nat -> rect (pivot t pr pc).
Proof.
  intros Hrect Hpr. unfold rect. apply Forall_forall. intros r Hin.
  apply (In_nth _ _ []) in Hin. destruct Hin as [i [Hi Hr]].
  change (length (rows (pivot t pr pc))) with (nrows (pivot t pr pc)) in Hi.
  rewrite nrows_pivot in Hi. rewrite pivot_row in Hr by exact Hi. subst r.
  cbv zeta. change (ncols (pivot t pr pc)) with (ncols t).
  destruct (i =? pr)%nat.
  - rewrite length_map. apply rect_row; assumption.
  - rewrite length_map, length_combine, length_map, !rect_row by assumption. lia.
Qed.

Lemma qdiv_self (a : Q) : ~ a == 0 -> qdiv a a == 1.
Proof.
  intro Ha. unfold qdiv. rewrite Qred_correct. field. exact Ha.
Qed.

Lemma pivot_unit_column (t : mat) (pr pc : nat) :
  rect t -> (pr < nrows t)%nat -> (pc < ncols t)%nat -> ~ cell t pr pc == 0 ->
  unit_at (pivot t pr pc) pc pr.
Proof.
  intros Hrect Hpr Hpc Hnz.
  unfold unit_at, unit_vec. rewrite column_length, nrows_pivot.
  split; [exact Hpr|]. split.
  - rewrite nth_column, pivot_cell by assumption. rewrite Nat.eqb_refl.
    apply qdiv_self, Hnz.
  - intros r' Hr' Hne. rewrite nth_column, pivot_cell by assumption.
    apply Nat.eqb_neq in Hne. rewrite Hne. unfold qsub, qmul.
    rewrite !Qred_correct, qdiv_self by exact Hnz. ring.
Qed.

Lemma last_nth {A} (l : list A) (d : A) : last l d = nth (length l - 1) l d.
Proof.
  induction l as [|a [|b l] IH]; [reflexivity | reflexivity |].
  change (last (a :: b :: l) d) with (last (b :: l) d). rewrite IH.
  cbn [length]. replace (S (S (length l)) - 1)%nat with (S (S (length l) - 1)) by lia.
  reflexivity.
Qed.

Lemma rhs_cell (t : mat) (i : nat) :
  rect t -> (i < nrows t)%nat -> rhs (nth i (rows t) []) = cell t i (ncols t - 1).
Proof.
  intros Hrect Hi. unfold rhs, cell. rewrite last_nth, rect_row by assumption.
  reflexivity.
Qed.

(** X3.  The pivot of lines 355-360 makes the pivot column basic.  After a
    pivot on a nonzero cell of a row other than the last, the pivot column
    is a unit column with its 1 in the pivot row, passes the test of
    [_get_basics], and the value read for it is the quotient RHS / cell of
    the pivot row before the pivot. *)
Theorem pivot_makes_column_basic (t : mat) (pr pc : nat) :
  rect t -> (pr < nrows t - 1)%nat -> (pc < ncols t)%nat -> ~ cell t pr pc == 0 ->
  unit_at (pivot t pr pc) pc pr /\
  is_basic (pivot t pr pc) pc = true /\
  basic_value (pivot t pr pc) pc = ratio t pc pr.
Proof.
  intros Hrect Hpr Hpc Hnz.
  assert (Hu : unit_at (pivot t pr pc) pc pr)
    by (apply pivot_unit_column; [exact Hrect | lia | exact Hpc | exact Hnz]).
  split; [exact Hu|]. split; [apply is_basic_unit; exists pr; exact Hu|].
  unfold basic_value.
  rewrite (first_nonzero_unit _ pr Hu)
    by (rewrite column_length, nrows_pivot; exact Hpr).
  rewrite rhs_cell; [|apply rect_pivot; [exact Hrect | lia]|rewrite nrows_pivot; lia].
  change (ncols (pivot t pr pc)) with (ncols t).
  rewrite pivot_cell by (first [exact Hrect | lia]).
  rewrite Nat.eqb_refl. unfold ratio. rewrite rhs_cell by (first [exact Hrect | lia]).
  reflexivity.
Qed.

(** [max x] with [x <= 4]: the pivot on the cell of [x] makes [x] basic with
    value 4. *)
Lemma pivot_makes_column_basic_witness :
  let t := Mat 3 [[1; 1; 4]; [-1; 0; 0]]%Q in
  unit_at (pivot t 0 0) 0 0 /\ is_basic (pivot t 0 0) 0 = true /\
  basic_value (pivot t 0 0) 0 = ratio t 0 0.
Proof.
  intro t. apply (pivot_makes_column_basic t 0 0).
  - repeat constructor.
  - vm_compute. lia.
  - vm_compute. lia.
  - intro H. vm_compute in H. discriminate.
Defined.

(** X4.  A pivot leaves the other basic columns basic: a unit column whose 1
    is in a row other than the pivot row is the same unit column after the
    pivot. *)
Theorem pivot_keeps_basic_columns (t : mat) (pr pc col r : nat) :
  rect t -> (pr < nrows t)%nat -> (col < ncols t)%nat ->
  unit_at t col r -> r <> pr ->
  unit_at (pivot t pr pc) col r.
Proof.
  intros Hrect Hpr Hcol [Hr [H1 Hz]] Hne.
  rewrite column_length in Hr, Hz.
  assert (Hp0 : cell t pr col == 0).
  { rewrite <- nth_column. apply Hz; [exact Hpr | congruence]. }
  assert (Hd : qdiv (cell t pr col) (cell t pr pc) == 0).
  { unfold qdiv. rewrite Qred_correct, Hp0. unfold Qdiv. ring. }
  unfold unit_at, unit_vec. rewrite column_length, nrows_pivot.
  split; [exact Hr|]. split.
  - rewrite nth_column, pivot_cell by assumption.
    apply Nat.eqb_neq in Hne. rewrite Hne. unfold qsub, qmul.
    rewrite !Qred_correct, Hd, <- nth_column, H1. ring.
  - intros r' Hr' Hne'. rewrite nth_column, pivot_cell by assumption.
    destruct (r' =? pr)%nat eqn:E; [exact Hd|].
    unfold qsub, qmul. rewrite !Qred_correct, Hd, <- nth_column, (Hz r' Hr' Hne'). ring.
Qed.

(** [x + 2y <= 4], [3x + y <= 6]: the slack column of the second row stays
    basic when the pivot is made in the first row. *)
Lemma pivot_keeps_basic_columns_witness :
  let t := Mat 5 [[1; 2; 1; 0; 4]; [3; 1; 0; 1; 6]; [-1; -1; 0; 0; 0]]%Q in
  unit_at t 3 1 /\ unit_at (pivot t 0 0) 3 1.
Proof.
  intro t.
  assert (Hu : unit_at t 3 1).
  { split; [vm_compute; lia|]. split; [reflexivity|].
    intros [|[|[|r']]] Hr Hne; try reflexivity; [congruence|].
    vm_compute in Hr. lia. }
  split; [exact Hu|].
  apply (pivot_keeps_basic_columns t 0 0 3 1).
  - repeat constructor.
  - vm_compute. lia.
  - vm_compute. lia.
  - exact Hu.
  - discriminate.
Defined.

(** X5.  [_pivot] (lines 492-520), the pivot of the superseded [_simplex].
    It has three outcomes: it raises IndexError exactly when the pivot cell
    is out of range; it returns False and leaves [H] untouched exactly when
    the cell is in range and equal to 0; and it returns True, with [H]
    changed as the inline pivot of [lpsimplex] (lines 355-360) changes its
    tableau, exactly when the cell is in range and not 0. *)
Theorem _pivot_agrees_with_engine_pivot (H : mat) (ip jp : nat) :
  let in_range := (ip < nrows H)%nat /\ (jp < length (nth ip (rows H) []))%nat in
  (_pivot H ip jp = Raise IndexError \/ _pivot H ip jp = Ok (false, H) \/
   _pivot H ip jp = Ok (true, pivot H ip jp)) /\
  (_pivot H ip jp = Raise IndexError <-> ~ in_range) /\
  (_pivot H ip jp = Ok (false, H) <-> in_range /\ cell H ip jp == 0) /\
  (_pivot H ip jp = Ok (true, pivot H ip jp) <-> in_range /\ ~ cell H ip jp == 0).
Proof.
  intro in_range.
  assert (Hcases :
    (~ in_range /\ _pivot H ip jp = Raise IndexError) \/
    (in_range /\ cell H ip jp == 0 /\ _pivot H ip jp = Ok (false, H)) \/
    (in_range /\ ~ cell H ip jp == 0 /\ _pivot H ip jp = Ok (true, pivot H ip jp))).
  { unfold in_range, _pivot.
    destruct (nth_error (rows H) ip) as [r|] eqn:Er.
    2:{ left. split; [|reflexivity]. apply nth_error_None in Er.
        intros [Hi _]. unfold nrows in Hi. lia. }
    assert (Hr : nth ip (rows H) [] = r) by (apply nth_error_nth, Er).
    assert (Hip : (ip < nrows H)%nat)
      by (apply nth_error_Some; rewrite Er; discriminate).
    destruct (nth_error r jp) as [piv|] eqn:Ep.
    2:{ left. split; [|reflexivity]. apply nth_error_None in Ep.
        rewrite Hr. intros [_ Hj]. lia. }
    assert (Hjp : (jp < length (nth ip (rows H) []))%nat)
      by (rewrite Hr; apply nth_error_Some; rewrite Ep; discriminate).
    assert (Hp : cell H ip jp = piv)
      by (unfold cell; rewrite Hr; apply nth_error_nth, Ep).
    right. destruct (qeqb piv 0) eqn:E.
    - left. split; [split; assumption|]. split; [|reflexivity].
      rewrite Hp. apply qeqb_true, E.
    - right. split; [split; assumption|]. split; [rewrite Hp; apply qeqb_false, E|].
      do 2 f_equal. unfold pivot. unfold cell in Hp. rewrite Hp, Hr. f_equal.
      apply map_ext. intros [i row]. cbn [fst snd].
      destruct (i =? ip)%nat; [reflexivity|].
      apply map_ext. intros [a b]. cbn [fst snd]. rewrite qmul_comm. reflexivity. }
  destruct Hcases as [(Hr & E) | [(Hr & Hz & E) | (Hr & Hz & E)]]; rewrite E.
  - split; [left; reflexivity|]. split; [split; auto|].
    split; (split; [discriminate | intros [Hi _]; contradiction]).
  - split; [right; left; reflexivity|].
    split; [split; [discriminate | intro Hn; contradiction]|].
    split; [split; auto|].
    split; [discriminate | intros [_ Hn]; contradiction].
  - split; [right; right; reflexivity|].
    split; [split; [discriminate | intro Hn; contradiction]|].
    split; [|split; auto].
    split; [discriminate | intros [_ Hz']; contradiction].
Qed.

(** [x <= 4] under [max x]: a pivot on the cell of [x], a refused pivot on
    the zero cell of the objective row, and a column out of range. *)
Lemma _pivot_agrees_with_engine_pivot_witness :
  let H := Mat 3 [[1; 1; 4]; [-1; 0; 0]]%Q in
  _pivot H 0 0 = Ok (true, Mat 3 [[1; 1; 4]; [0; 1; 4]]%Q) /\
  _pivot H 1 1 = Ok (false, H) /\
  _pivot H 0 3 = Raise IndexError.
Proof.
  intro H.
  destruct (_pivot_agrees_with_engine_pivot H 0 0) as (_ & _ & _ & [_ H1]).
  destruct (_pivot_agrees_with_engine_pivot H 1 1) as (_ & _ & [_ H2] & _).
  destruct (_pivot_agrees_with_engine_pivot H 0 3) as (_ & [_ H3] & _).
  split; [|split].
  - rewrite H1; [reflexivity|]. split; [split; vm_compute; lia|].
    intro E. vm_compute in E. discriminate.
  - apply H2. split; [split; vm_compute; lia | reflexivity].
  - apply H3. intros [_ Hj]. vm_compute in Hj. lia.
Defined.

(** ** How the engine ends *)

Lemma nbody_le (t : mat) (phase : Z) : (nbody t phase <= nrows t)%nat.
Proof. unfold nbody. destruct (phase =? 1); lia. Qed.

Lemma ratio_candidates_nth (t : mat) (phase : Z) (pivcol k r : nat) :
  nth_error (ratio_candidates t phase pivcol) k = Some r ->
  (r < nbody t phase)%nat /\ (0 < cell t r pivcol)%Q.
Proof.
  intro H. apply nth_error_In in H. apply ratio_candidates_in, H.
Qed.

Section ExitFacts.

Variables (n : nat) (maxiter phase : Z) (callback : bool) (tol : Q).
Variables (t0 : mat) (hd : list string).

Local Abbreviation loop := (simplex_loop n maxiter phase callback tol t0 hd).

(** How the loop is left, and what it keeps. *)
Lemma simplex_loop_exit (fuel : nat) :
  forall s, status s = None -> maxiter - nit s <= Z.of_nat fuel ->
    match snd (loop fuel s) with
    | Ok (Fell s') =>
        ((status s' = None /\ nit s' = Z.max (nit s) maxiter) \/
         (status s' = Some 0 /\ nit s <= nit s' < maxiter /\
          optimal tol (tableau s') = true)) /\
        (rect (tableau s) ->
         rect (tableau s') /\ nrows (tableau s') = nrows (tableau s) /\
         ncols (tableau s') = ncols (tableau s))
    | Ok (Broke s' st m) =>
        st = 3 /\ m = msg_unbounded /\ nit s <= nit s' < maxiter /\
        (rect (tableau s) ->
         rect (tableau s') /\ nrows (tableau s') = nrows (tableau s) /\
         ncols (tableau s') = ncols (tableau s))
    | Raise _ => True
    end.
Proof.
  induction fuel as [|fuel IH]; intros s Hs Hfuel.
  - rewrite simplex_loop_stop.
    + cbn. split; [left; split; [exact Hs | lia] | auto].
    + apply andb_false_iff. left. apply Z.ltb_ge. lia.
  - destruct ((nit s <? maxiter) && is_none (status s)) eqn:Hc.
    2:{ rewrite simplex_loop_stop by exact Hc. cbn.
        rewrite Hs in Hc. cbn in Hc. rewrite andb_true_r in Hc.
        apply Z.ltb_ge in Hc. split; [left; split; [exact Hs | lia] | auto]. }
    assert (Hlt : nit s < maxiter).
    { apply andb_true_iff in Hc. destruct Hc as [Hc _]. now apply Z.ltb_lt. }
    rewrite simplex_loop_step by exact Hc.
    destruct (iteration_cases n phase callback tol t0 hd s)
      as [[e He] | [(obj & pc & _ & _ & _ & He)
                   | (obj & pc & pr & lg & Hobj & _ & Hrow & _ & He)]].
    + rewrite (rbind_raise _ _ _ _ He). exact I.
    + rewrite (rbind_ok _ _ _ _ He). cbn. repeat split; auto; lia.
    + cbv zeta in He. rewrite (rbind_ok _ _ _ _ He). rewrite Hs in *.
      destruct (all_ge_neg_tol tol obj) eqn:Hopt; cbn [is_none].
      * rewrite simplex_loop_stop by (cbn [status is_none]; apply andb_false_r).
        cbn. split; [|auto]. right. split; [reflexivity|]. split; [lia|].
        unfold optimal. rewrite Hobj. exact Hopt.
      * cbn [fst snd].
        specialize (IH (LState (pivot (tableau s) pr pc) (nit s + 1)
                               (if (0 <? (if nit s >? 2 ^ Z.of_nat n
                                          then if mat_eqb (tableau s) t0
                                               then S (cycle s) else cycle s
                                          else cycle s))%nat
                                then 0%nat
                                else (if nit s >? 2 ^ Z.of_nat n
                                      then if mat_eqb (tableau s) t0
                                           then S (cycle s) else cycle s
                                      else cycle s))
                               None (message s)) eq_refl).
        cbn [nit tableau] in IH. specialize (IH ltac:(lia)).
        apply ratio_candidates_nth in Hrow. destruct Hrow as [Hpr _].
        pose proof (nbody_le (tableau s) phase) as Hnb.
        assert (Hshape : rect (tableau s) ->
                  rect (pivot (tableau s) pr pc) /\
                  nrows (pivot (tableau s) pr pc) = nrows (tableau s) /\
                  ncols (pivot (tableau s) pr pc) = ncols (tableau s)).
        { intro Hrect. split; [apply rect_pivot; [exact Hrect | lia]|].
          split; [apply nrows_pivot | reflexivity]. }
        destruct (snd (loop fuel _)) as [[s' st m|s']|e]; [| |exact I].
        -- destruct IH as (H1 & H2 & H3 & H4). repeat split; try assumption; try lia;
             intros; destruct (Hshape H) as (Ha & Hb & Hc'); destruct (H4 Ha) as (? & ? & ?);
             congruence.
        -- destruct IH as (H1 & H4). split.
           ++ destruct H1 as [(H1 & H2)|(H1 & H2 & H3)]; [left|right];
                repeat split; try assumption; lia.
           ++ intros H; destruct (Hshape H) as (Ha & Hb & Hc'); destruct (H4 Ha) as (? & ? & ?).
              repeat split; [assumption | congruence | congruence].
Qed.

End ExitFacts.

(** What the engine's exit tells: *)
Lemma lpsimplex_exit (t : mat) (n n_slack n_artificial : nat)
    (maxiter phase : Z) (callback : bool) (tol : Q) (nit0 : Z) (r : engine_result) :
  snd (lpsimplex t n n_slack n_artificial maxiter phase callback tol nit0) = Ok r ->
  ((r_status r = 1 /\ r_nit r = Z.max nit0 maxiter) \/
   (r_status r = 0 /\ nit0 <= r_nit r < maxiter /\ optimal tol (r_tableau r) = true) \/
   (r_status r = 3 /\ nit0 <= r_nit r < maxiter /\ r_message r = msg_unbounded)) /\
  (rect t -> rect (r_tableau r) /\ nrows (r_tableau r) = nrows t /\
             ncols (r_tableau r) = ncols t).
Proof.
  intro H. unfold lpsimplex in H. cbv zeta in H.
  apply rbind_snd_ok in H. destruct H as (headers & _ & H).
  apply rbind_snd_ok in H. destruct H as (e & Hloop & H).
  pose proof (simplex_loop_exit n maxiter phase callback tol t headers
                (Z.to_nat (maxiter - nit0)) (LState t nit0 0 None "") eq_refl) as Hex.
  cbn [nit tableau] in Hex. specialize (Hex ltac:(lia)). rewrite Hloop in Hex.
  destruct e as [s st m|s].
  - destruct Hex as (-> & -> & Hn & Hsh).
    apply rbind_snd_ok in H. destruct H as (b & _ & H).
    cbn in H. injection H as <-. cbn. split; [|exact Hsh].
    right; right. auto.
  - destruct Hex as (Hex & Hsh).
    destruct (nit s >=? maxiter) eqn:Hge.
    + apply rbind_snd_ok in H. destruct H as (b & _ & H).
      cbn in H. injection H as <-. cbn. split; [|exact Hsh].
      left. split; [reflexivity|].
      destruct Hex as [(_ & Hex)|(_ & Hex & _)]; [exact Hex|].
      rewrite Z.geb_leb in Hge. apply Z.leb_le in Hge. lia.
    + apply rbind_snd_ok in H. destruct H as (b & _ & H).
      cbn in H. injection H as <-. cbn. split; [|exact Hsh].
      right; left. split; [reflexivity|].
      rewrite Z.geb_leb in Hge. apply Z.leb_gt in Hge.
      destruct Hex as [(_ & Hex)|(_ & Hex & Ho)]; [lia|]. auto.
Qed.

(** ** Errors of the observer path and of _get_basics *)

Lemma efold_names (n n_slack n_artificial : nat) (idx : list nat) (acc : list string) :
  match efold (fun i acc => name <- index_to_varname n n_slack n_artificial i ;;
                            Ok (acc ++ [name]))%exc idx acc with
  | Ok names => Forall (fun i => (i < n + n_slack + n_artificial)%nat) idx /\
                length names = (length acc + length idx)%nat
  | Raise e => e = KeyError /\
               Exists (fun i => (n + n_slack + n_artificial <= i)%nat) idx
  end.
Proof.
  revert acc. induction idx as [|i idx IH]; intro acc; cbn [efold].
  - split; [constructor | cbn; lia].
  - unfold index_to_varname at 1.
    destruct (i <? n)%nat eqn:E1; [|destruct (i <? n + n_slack)%nat eqn:E2;
      [|destruct (i <? n + n_slack + n_artificial)%nat eqn:E3]]; cbn [ebind].
    4:{ split; [reflexivity|]. left. apply Nat.ltb_ge, E3. }
    all: match goal with |- context [efold _ _ ?a] => specialize (IH a) end;
      destruct (efold _ idx _) as [names|e];
      [ destruct IH as [IH1 IH2]; split;
        [ constructor; [|exact IH1] | rewrite IH2, length_app; cbn; lia ]
      | destruct IH as [IH1 IH2]; split; [exact IH1 | right; exact IH2] ].
    + apply Nat.ltb_lt in E1. lia.
    + apply Nat.ltb_lt in E2. lia.
    + apply Nat.ltb_lt in E3. lia.
Qed.

Lemma column_headers_cases (n n_slack n_artificial t_cols : nat) :
  match column_headers n n_slack n_artificial t_cols with
  | Ok hs => (t_cols - 1 <= n + n_slack + n_artificial)%nat /\
             length hs = (t_cols - 1 + 1)%nat /\ last hs ""%string = "RHS"%string
  | Raise e => e = KeyError /\ (n + n_slack + n_artificial < t_cols - 1)%nat
  end.
Proof.
  unfold column_headers.
  pose proof (efold_names n n_slack n_artificial (range (t_cols - 1)) []) as H.
  destruct (efold _ (range (t_cols - 1)) []) as [names|e]; cbn [ebind].
  - destruct H as [H1 H2]. split; [|split].
    + destruct (t_cols - 1)%nat as [|k] eqn:Ek; [lia|].
      rewrite Forall_forall in H1. specialize (H1 k).
      assert (In k (range (S k))) by (apply in_seq; lia). specialize (H1 H). lia.
    + rewrite length_app, H2. unfold range. rewrite length_seq. cbn. lia.
    + apply last_last.
  - destruct H as [H1 H2]. split; [exact H1|].
    apply Exists_exists in H2. destruct H2 as [i [Hi Hge]].
    apply in_seq in Hi. lia.
Qed.

(** X6.  With an observer, [lpsimplex] builds one label for each column
    but the last from the counts it is given (lines 277-285).  When the
    tableau has more such columns than [n + n_slack + n_artificial], the
    lookup of the first missing label raises KeyError before the first
    iteration and before any call of the observer. *)
Theorem lpsimplex_observer_label_error (t : mat) (n n_slack n_artificial : nat)
    (maxiter phase : Z) (tol : Q) (nit0 : Z) :
  (n + n_slack + n_artificial < ncols t - 1)%nat ->
  lpsimplex t n n_slack n_artificial maxiter phase true tol nit0
  = ([], Raise KeyError).
Proof.
  intro H. unfold lpsimplex. cbv zeta.
  pose proof (column_headers_cases n n_slack n_artificial (ncols t)) as Hc.
  destruct (column_headers n n_slack n_artificial (ncols t)) as [hs|e] eqn:E.
  - lia.
  - destruct Hc as [-> _]. reflexivity.
Qed.

(** Two columns besides the RHS and one declared variable. *)
Lemma lpsimplex_observer_label_error_witness :
  lpsimplex (Mat 3 [[1; 1; 1]; [1; 1; 1]]%Q) 1 0 0 10 2 true default_tol 0
  = ([], Raise KeyError).
Proof.
  apply lpsimplex_observer_label_error. cbn. lia.
Defined.

(** first_nonzero *)
Lemma first_nonzero_raise (w : list Q) :
  match first_nonzero w with
  | Ok r => (r < length w)%nat /\ ~ nth r w 0%Q == 0
  | Raise e => e = IndexError /\ forall i, (i < length w)%nat -> nth i w 0%Q == 0
  end.
Proof.
  induction w as [|c w IH]; cbn [first_nonzero].
  - split; [reflexivity|]. intros i Hi. cbn in Hi. lia.
  - destruct (qeqb c 0) eqn:E.
    + destruct (first_nonzero w) as [r|e]; cbn [ebind].
      * destruct IH as [H1 H2]. split; [cbn; lia | exact H2].
      * destruct IH as [H1 H2]. split; [exact H1|].
        intros [|i] Hi; [apply qeqb_true, E | apply H2; cbn in Hi; lia].
    + split; [cbn; lia|]. apply qeqb_false, E.
Qed.

(** A basic column makes [_get_basics] fail exactly when its 1 is in the
    last row. *)
Lemma basic_column_fails (t : mat) (col : nat) :
  (is_basic t col = true /\
   exists e, first_nonzero (removelast (column t col)) = Raise e)
  <-> unit_at t col (nrows t - 1).
Proof.
  split.
  - intros [Hb [e He]]. apply is_basic_unit in Hb. destruct Hb as [r Hu].
    destruct (Nat.lt_ge_cases r (nrows t - 1)) as [Hlt|Hge].
    + rewrite (first_nonzero_unit _ r Hu) in He
        by (rewrite column_length; exact Hlt). discriminate.
    + assert (Hr : (r < nrows t)%nat)
        by (destruct Hu as [Hr _]; rewrite column_length in Hr; exact Hr).
      replace (nrows t - 1)%nat with r by lia. exact Hu.
  - intro Hu. split; [apply is_basic_unit; eexists; exact Hu|].
    pose proof (first_nonzero_raise (removelast (column t col))) as H.
    destruct (first_nonzero (removelast (column t col))) as [r|e]; [|eexists; reflexivity].
    exfalso. destruct H as [Hr Hnz].
    rewrite removelast_firstn_len, length_firstn, column_length in Hr.
    rewrite nth_removelast in Hnz by (rewrite column_length; lia).
    destruct Hu as (_ & _ & Hz). apply Hnz, Hz; [rewrite column_length|]; lia.
Qed.

Lemma efold_get_basics_cases (t : mat) (cols : list nat) (acc : list nat * list Q) :
  match efold (get_basics_step t) cols acc with
  | Ok _ => forall col, In col cols -> ~ unit_at t col (nrows t - 1)
  | Raise e => e = IndexError /\ exists col, In col cols /\ unit_at t col (nrows t - 1)
  end.
Proof.
  revert acc. induction cols as [|col cols IH]; intro acc; cbn [efold].
  - intros col [].
  - unfold get_basics_step at 1.
    destruct (is_basic t col) eqn:Hb.
    + pose proof (first_nonzero_raise (removelast (column t col))) as Hf.
      destruct (first_nonzero (removelast (column t col))) as [r|e] eqn:Hr; cbn [ebind].
      * match goal with |- context [efold _ _ ?a] => specialize (IH a) end.
        destruct (efold _ cols _) as [b|e].
        -- intros col' [<-|Hin]; [|apply IH, Hin].
           intro Hu. apply basic_column_fails in Hu. destruct Hu as [_ [e He]]. congruence.
        -- destruct IH as [-> [col' [Hin Hu]]]. split; [reflexivity|].
           exists col'. split; [right; exact Hin | exact Hu].
      * destruct Hf as [-> _]. split; [reflexivity|]. exists col.
        split; [left; reflexivity|]. apply basic_column_fails.
        split; [exact Hb | eexists; exact Hr].
    + cbn [ebind]. specialize (IH acc).
      destruct (efold _ cols acc) as [b|e].
      * intros col' [<-|Hin]; [|apply IH, Hin].
        intro Hu. apply basic_column_fails in Hu. destruct Hu as [Hu _]. congruence.
      * destruct IH as [-> [col' [Hin Hu]]]. split; [reflexivity|].
        exists col'. split; [right; exact Hin | exact Hu].
Qed.

(** X7.  [_get_basics] raises only IndexError, and raises it exactly when
    some column (the RHS column apart) is a unit column with its 1 in the
    last row: the column passes the test of line 164, and
    [np.nonzero(tableau[:-1,col])] of line 166 finds nothing. *)
Theorem get_basics_index_error (t : mat) :
  (forall e, _get_basics t = Raise e -> e = IndexError) /\
  (_get_basics t = Raise IndexError <->
   exists col, (col < ncols t - 1)%nat /\ unit_at t col (nrows t - 1)).
Proof.
  unfold _get_basics.
  pose proof (efold_get_basics_cases t (range (ncols t - 1)) ([], [])) as H.
  destruct (efold _ (range (ncols t - 1)) _) as [b|e].
  - split; [discriminate|]. split; [discriminate|].
    intros [col [Hc Hu]]. exfalso. apply (H col); [apply in_seq; lia | exact Hu].
  - destruct H as [-> [col [Hin Hu]]]. split; [congruence|].
    split; [|reflexivity]. intros _. exists col. split; [|exact Hu].
    apply in_seq in Hin. lia.
Qed.

(** ** The initial tableau *)

Lemma length_zeros (k : nat) : length (zeros k) = k.
Proof. apply repeat_length. Qed.

Lemma length_unit_row (k i : nat) : (i < k)%nat -> length (unit_row k i) = k.
Proof.
  intro H. unfold unit_row. rewrite length_set_nth; rewrite length_zeros; auto.
Qed.

Lemma nth_zeros (k j : nat) : nth j (zeros k) 0%Q = 0%Q.
Proof.
  unfold zeros. revert j. induction k as [|k IH]; intros [|j]; cbn; auto.
Qed.

Lemma nth_unit_row (k i j : nat) :
  (i < k)%nat -> nth j (unit_row k i) 0%Q = if (j =? i)%nat then 1%Q else 0%Q.
Proof.
  intro H. unfold unit_row. rewrite nth_set_nth by (rewrite length_zeros; exact H).
  rewrite nth_zeros. reflexivity.
Qed.

Lemma sign_normalize_ok (p : list Q * Q) :
  length (fst (sign_normalize p)) = length (fst p) /\
  (0 <= snd (sign_normalize p))%Q.
Proof.
  unfold sign_normalize. destruct (qltb (snd p) 0) eqn:E; cbn [fst snd].
  - apply qltb_lt in E. split; [apply length_map|].
    unfold qmul. rewrite Qred_correct.
    setoid_replace (snd p * -1)%Q with (- snd p)%Q by ring.
    apply (Qopp_le_compat (snd p) 0). apply Qlt_le_weak, E.
  - apply qltb_ge in E. split; [reflexivity | exact E].
Qed.

Lemma signed_rows_ok (n : nat) (s : pstate) :
  conformant n s ->
  length (signed_rows s) = (length (bub s) + length (beq s))%nat /\
  Forall (fun p => length (fst p) = (n + length (bub s))%nat /\ (0 <= snd p)%Q)
         (signed_rows s).
Proof.
  intros (Hc & Hre & Hce & Hne & Hru & Hcu & Hnu).
  unfold nrows in Hne, Hnu. unfold signed_rows. split.
  - rewrite length_map, length_app, !length_map, !length_combine.
    unfold range. rewrite length_seq. lia.
  - apply Forall_forall. intros p Hp. apply in_map_iff in Hp.
    destruct Hp as [q [<- Hq]]. destruct (sign_normalize_ok q) as [H1 H2].
    split; [|exact H2]. rewrite H1. apply in_app_or in Hq. destruct Hq as [Hq|Hq].
    + apply in_map_iff in Hq. destruct Hq as [[a b] [<- Hab]]. cbn [fst snd].
      apply in_combine_l in Hab. unfold rect in Hre. rewrite Forall_forall in Hre.
      rewrite length_app, length_zeros, (Hre a Hab). lia.
    + apply in_map_iff in Hq. destruct Hq as [[[j a] b] [<- Hab]]. cbn [fst snd].
      apply in_combine_l in Hab. pose proof (in_combine_l _ _ _ _ Hab) as Hj.
      apply in_combine_r in Hab. apply in_seq in Hj.
      unfold rect in Hru. rewrite Forall_forall in Hru.
      rewrite length_app, length_unit_row, (Hru a Hab) by lia. lia.
Qed.

Lemma build_tableau_rows (n : nat) (s : pstate) :
  conformant n s ->
  let m := (length (bub s) + length (beq s))%nat in
  build_tableau n s =
  Ok (Mat (n + length (bub s) + m + 1)
          (map (fun ir => fst (snd ir) ++ unit_row m (fst ir) ++ [snd (snd ir)])
               (combine (range m) (signed_rows s)) ++
           [cc s ++ zeros (length (bub s) + m) ++ [f0 s];
            fold_left vsub
              (map (fun ir => fst (snd ir) ++ unit_row m (fst ir) ++ [snd (snd ir)])
                   (combine (range m) (signed_rows s)))
              (zeros (n + length (bub s)) ++ repeat 1%Q m ++ [0%Q])])).
Proof.
  intros (Hc & Hre & Hce & Hne & Hru & Hcu & Hnu) m.
  unfold build_tableau, check_block. rewrite Hce, Hcu, Nat.eqb_refl.
  cbn [negb]. rewrite !andb_false_r. cbn [ebind]. reflexivity.
Qed.

Lemma nth_constraint_rows (m : nat) (sg : list (list Q * Q)) (i : nat) :
  length sg = m -> (i < m)%nat ->
  nth i (map (fun ir : nat * (list Q * Q) =>
                fst (snd ir) ++ unit_row m (fst ir) ++ [snd (snd ir)])
             (combine (range m) sg)) [] =
  fst (nth i sg ([], 0%Q)) ++ unit_row m i ++ [snd (nth i sg ([], 0%Q))].
Proof.
  intros Hl Hi. rewrite (nth_map_in _ _ _ (0%nat, ([], 0%Q))).
  2:{ rewrite length_combine. unfold range. rewrite length_seq. lia. }
  subst m. rewrite nth_combine_range by exact Hi. reflexivity.
Qed.

Lemma length_fold_vsub (rs : list (list Q)) (p : list Q) (N : nat) :
  Forall (fun r => length r = N) rs -> length p = N ->
  length (fold_left vsub rs p) = N.
Proof.
  revert p. induction rs as [|r rs IH]; intros p Hrs Hp; cbn [fold_left]; [exact Hp|].
  inversion Hrs; subst. apply IH; [assumption|].
  rewrite length_vsub. lia.
Qed.

Lemma nth_vsub (a b : list Q) (j : nat) :
  (j < length a)%nat -> length a = length b ->
  nth j (vsub a b) 0%Q = qsub (nth j a 0%Q) (nth j b 0%Q).
Proof.
  intros Hj Hl. unfold vsub. rewrite (nth_map_in _ _ _ (0%Q, 0%Q))
    by (rewrite length_combine; lia).
  rewrite combine_nth by exact Hl. reflexivity.
Qed.

Lemma nth_fold_vsub (rs : list (list Q)) (p : list Q) (N j : nat) :
  Forall (fun r => length r = N) rs -> length p = N -> (j < N)%nat ->
  nth j (fold_left vsub rs p) 0%Q ==
  nth j p 0%Q - qsum (map (fun r => nth j r 0%Q) rs).
Proof.
  revert p. induction rs as [|r rs IH]; intros p Hrs Hp Hj; cbn [fold_left map qsum fold_right].
  - ring.
  - inversion Hrs; subst. rewrite IH; [|assumption|rewrite length_vsub; lia|exact Hj].
    rewrite nth_vsub by lia. unfold qsub. rewrite Qred_correct.
    fold (qsum (map (fun r => nth j r 0%Q) rs)). ring.
Qed.

Lemma qsum_indicator (k a len : nat) :
  qsum (map (fun i => if (k =? i)%nat then 1%Q else 0%Q) (seq a len)) ==
  if ((a <=? k) && (k <? a + len))%nat then 1 else 0.
Proof.
  revert a. induction len as [|len IH]; intro a; cbn [seq map qsum fold_right].
  - replace ((a <=? k) && (k <? a + 0))%nat with false; [reflexivity|].
    symmetry. apply andb_false_iff.
    destruct (Nat.leb_spec a k); [right; apply Nat.ltb_ge; lia | left; reflexivity].
  - fold (qsum (map (fun i => if (k =? i)%nat then 1%Q else 0%Q) (seq (S a) len))).
    rewrite IH.
    destruct (Nat.eqb_spec k a) as [->|Hne].
    + replace ((S a <=? a) && (a <? S a + len))%nat with false
        by (symmetry; apply andb_false_iff; left; apply Nat.leb_gt; lia).
      replace ((a <=? a) && (a <? a + S len))%nat with true; [ring|].
      symmetry. apply andb_true_iff. split; [apply Nat.leb_le | apply Nat.ltb_lt]; lia.
    + replace ((a <=? k) && (k <? a + S len))%nat
        with ((S a <=? k) && (k <? S a + len))%nat; [ring|].
      destruct (Nat.leb_spec (S a) k), (Nat.leb_spec a k),
        (Nat.ltb_spec k (S a + len)), (Nat.ltb_spec k (a + S len)); try reflexivity; lia.
Qed.

Section Tableau.

Variables (n : nat) (s : pstate).
Hypothesis Hconf : conformant n s.

Local Abbreviation ns := (length (bub s)).
Local Abbreviation m := (length (bub s) + length (beq s))%nat.
Local Abbreviation crow :=
  (fun ir : nat * (list Q * Q) =>
     fst (snd ir) ++ unit_row m (fst ir) ++ [snd (snd ir)]).
Local Abbreviation crows := (map crow (combine (range m) (signed_rows s))).

Lemma crows_length : length crows = m.
Proof.
  destruct (signed_rows_ok n s Hconf) as [Hl _].
  rewrite length_map, length_combine. unfold range. rewrite length_seq. lia.
Qed.

Lemma crows_nth (i : nat) :
  (i < m)%nat ->
  exists p, nth i crows [] = fst p ++ unit_row m i ++ [snd p] /\
            length (fst p) = (n + ns)%nat /\ (0 <= snd p)%Q /\
            nth i (signed_rows s) ([], 0%Q) = p.
Proof.
  intro Hi. destruct (signed_rows_ok n s Hconf) as [Hl Hall].
  exists (nth i (signed_rows s) ([], 0%Q)).
  rewrite nth_constraint_rows by assumption.
  rewrite Forall_forall in Hall.
  destruct (Hall (nth i (signed_rows s) ([], 0%Q))) as [H1 H2];
    [apply nth_In; lia|]. auto.
Qed.

Lemma crows_rect : Forall (fun r => length r = (n + ns + m + 1)%nat) crows.
Proof.
  apply Forall_forall. intros r Hin. apply (In_nth _ _ []) in Hin.
  destruct Hin as [i [Hi Hr]]. rewrite crows_length in Hi.
  destruct (crows_nth i Hi) as [p (Hp & Hlen & _)]. rewrite Hp in Hr. subst r.
  rewrite !length_app, Hlen, length_unit_row by exact Hi. cbn. lia.
Qed.

Lemma pseudo0_length :
  length (zeros (n + ns) ++ repeat 1%Q m ++ [0%Q]) = (n + ns + m + 1)%nat.
Proof. rewrite !length_app, length_zeros, repeat_length. cbn. lia. Qed.

(** The artificial cell [k] of the rows. *)
Lemma crows_artificial (k : nat) :
  (k < m)%nat ->
  map (fun r => nth (n + ns + k) r 0%Q) crows =
  map (fun i => if (k =? i)%nat then 1%Q else 0%Q) (range m).
Proof.
  intro Hk. apply (nth_ext _ _ 0%Q 0%Q).
  - rewrite !length_map, length_combine. unfold range. rewrite !length_seq.
    destruct (signed_rows_ok n s Hconf) as [Hl _]. lia.
  - intros i Hi. rewrite length_map, crows_length in Hi.
    rewrite (nth_map_in _ _ _ []) by (rewrite crows_length; exact Hi).
    rewrite (nth_map_in _ _ _ 0%nat) by (unfold range; rewrite length_seq; exact Hi).
    unfold range at 2. rewrite seq_nth by exact Hi. cbn [plus].
    destruct (crows_nth i Hi) as [p (Hp & Hlen & _)]. rewrite Hp.
    rewrite app_nth2 by lia. rewrite Hlen.
    replace (n + ns + k - (n + ns))%nat with k by lia.
    rewrite app_nth1 by (rewrite length_unit_row; assumption).
    apply nth_unit_row. exact Hi.
Qed.

Lemma tableau_row (i : nat) (T : mat) :
  build_tableau n s = Ok T ->
  nth i (rows T) [] =
  if (i <? m)%nat then nth i crows []
  else if (i =? m)%nat then cc s ++ zeros (ns + m) ++ [f0 s]
  else if (i =? S m)%nat
       then fold_left vsub crows (zeros (n + ns) ++ repeat 1%Q m ++ [0%Q])
       else [].
Proof.
  rewrite (build_tableau_rows n s Hconf). cbv zeta. intro H. injection H as <-.
  cbn [rows]. destruct (Nat.ltb_spec i m) as [Hlt|Hge].
  - apply app_nth1. rewrite crows_length. exact Hlt.
  - rewrite app_nth2; rewrite crows_length; [|exact Hge].
    destruct (Nat.eqb_spec i m) as [->|Hne]; [rewrite Nat.sub_diag; reflexivity|].
    destruct (Nat.eqb_spec i (S m)) as [->|Hne'].
    + replace (S m - m)%nat with 1%nat by lia. reflexivity.
    + destruct (i - m)%nat as [|[|[|j]]] eqn:E; try lia; reflexivity.
Qed.

Lemma tableau_shape (T : mat) :
  build_tableau n s = Ok T ->
  nrows T = (m + 2)%nat /\ ncols T = (n + ns + m + 1)%nat /\ rect T.
Proof.
  intro HT. pose proof HT as HT'.
  rewrite (build_tableau_rows n s Hconf) in HT'. cbv zeta in HT'.
  injection HT' as <-. unfold nrows, rect. cbn [rows ncols].
  split; [rewrite length_app, crows_length; cbn; lia|]. split; [reflexivity|].
  apply Forall_app. split; [apply crows_rect|].
  destruct Hconf as (Hc & _).
  constructor; [rewrite !length_app, Hc, length_zeros; cbn; lia|].
  constructor; [|constructor].
  apply length_fold_vsub; [apply crows_rect | apply pseudo0_length].
Qed.

End Tableau.

(** X8.  The initial tableau (lines 822-860).  For a normalised problem
    with [n] variables and well-shaped blocks the tableau is built without
    error; it has one row for each constraint plus the two objective rows,
    and [n + n_slack + n_artificial + 1] cells in every row; after the sign
    change of lines 846-849 no constraint row has a negative right-hand
    side. *)
Theorem build_tableau_shape (n : nat) (s : pstate) :
  conformant n s ->
  let m := (length (bub s) + length (beq s))%nat in
  exists T, build_tableau n s = Ok T /\
    nrows T = (m + 2)%nat /\ ncols T = (n + length (bub s) + m + 1)%nat /\ rect T /\
    forall i, (i < m)%nat -> (0 <= rhs (nth i (rows T) []))%Q.
Proof.
  intros Hconf m; subst m. pose proof (build_tableau_rows n s Hconf) as HT. cbv zeta in HT.
  eexists. split; [exact HT|].
  destruct (tableau_shape n s Hconf _ HT) as (H1 & H2 & H3).
  split; [exact H1|]. split; [exact H2|]. split; [exact H3|].
  intros i Hi. rewrite (tableau_row n s Hconf i _ HT).
  apply Nat.ltb_lt in Hi. rewrite Hi. apply Nat.ltb_lt in Hi.
  destruct (crows_nth n s Hconf i Hi) as [p (Hp & _ & Hpos & _)].
  rewrite Hp. unfold rhs. rewrite app_assoc, last_last. exact Hpos.
Qed.

(** [-3x + y <= 6], [x + 2y <= 4] with the objective [-x + 4y]. *)
Lemma build_tableau_shape_witness :
  let s := PState 0 ""%string (Arr1 [Fin 0; Fin 0]) (Arr1 [PInf; PInf]) [-1; 4]%Q
                  (Mat 2 []) [] (Mat 2 [[-3; 1]; [1; 2]]%Q) [6; 4]%Q 0%Q in
  conformant 2 s /\
  exists T, build_tableau 2 s = Ok T /\
    nrows T = 4%nat /\ ncols T = 7%nat /\ rect T /\
    forall i, (i < 2)%nat -> (0 <= rhs (nth i (rows T) []))%Q.
Proof.
  intro s.
  assert (Hc : conformant 2 s) by (repeat split; repeat constructor).
  split; [exact Hc|]. exact (build_tableau_shape 2 s Hc).
Defined.

(** X9.  The initial basis (lines 851-860).  In the tableau just built
    every artificial column is a unit column with its 1 in the row of its
    constraint, zero in both objective rows: the artificial variables are
    the first basis, priced out of the pseudo-objective. *)
Theorem build_tableau_initial_basis (n : nat) (s : pstate) :
  conformant n s ->
  let m := (length (bub s) + length (beq s))%nat in
  exists T, build_tableau n s = Ok T /\
    forall k, (k < m)%nat ->
      unit_at T (n + length (bub s) + k) k /\
      is_basic T (n + length (bub s) + k) = true.
Proof.
  intros Hconf m; subst m. pose proof (build_tableau_rows n s Hconf) as HT. cbv zeta in HT.
  eexists. split; [exact HT|].
  destruct (tableau_shape n s Hconf _ HT) as (H1 & H2 & H3).
  pose proof (tableau_row n s Hconf) as Hrow.
  pose proof Hconf as (Hc & _).
  intros k Hk.
  { 
    match goal with |- unit_at ?T _ _ /\ _ => set (T0 := T) in * end.
    assert (Hu : unit_at T0 (n + length (bub s) + k) k).
    { unfold unit_at, unit_vec. rewrite column_length, H1.
      split; [lia|]. split.
      - rewrite nth_column. unfold cell. rewrite (Hrow k _ HT).
        replace (k <? length (bub s) + length (beq s))%nat with true
          by (symmetry; apply Nat.ltb_lt; exact Hk).
        destruct (crows_nth n s Hconf k Hk) as [p (Hp & Hlen & _)]. rewrite Hp.
        rewrite app_nth2 by lia. rewrite Hlen.
        replace (n + length (bub s) + k - (n + length (bub s)))%nat with k by lia.
        rewrite app_nth1 by (rewrite length_unit_row; assumption).
        rewrite nth_unit_row, Nat.eqb_refl by exact Hk. reflexivity.
      - intros r' Hr' Hne. rewrite nth_column. unfold cell. rewrite (Hrow r' _ HT).
        destruct (Nat.ltb_spec r' (length (bub s) + length (beq s))) as [Hlt|Hge].
        + destruct (crows_nth n s Hconf r' Hlt) as [p (Hp & Hlen & _)]. rewrite Hp.
          rewrite app_nth2 by lia. rewrite Hlen.
          replace (n + length (bub s) + k - (n + length (bub s)))%nat with k by lia.
          rewrite app_nth1 by (rewrite length_unit_row; assumption).
          rewrite nth_unit_row by exact Hlt.
          replace (k =? r')%nat with false by (symmetry; apply Nat.eqb_neq; congruence).
          reflexivity.
        + destruct (Nat.eqb_spec r' (length (bub s) + length (beq s))) as [He|Hne2].
          * rewrite app_nth2 by lia. rewrite Hc.
            rewrite app_nth1 by (rewrite length_zeros; lia).
            rewrite nth_zeros. reflexivity.
          * replace (r' =? S (length (bub s) + length (beq s)))%nat with true
              by (symmetry; apply Nat.eqb_eq; lia).
            rewrite (nth_fold_vsub _ _ (n + length (bub s) + (length (bub s) + length (beq s))%nat + 1));
              [|apply (crows_rect n s Hconf)|apply pseudo0_length|lia].
            rewrite (crows_artificial n s Hconf k Hk).
            unfold range. rewrite qsum_indicator.
            replace ((0 <=? k) && (k <? 0 + (length (bub s) + length (beq s))))%nat
              with true
              by (symmetry; apply andb_true_iff; split;
                  [apply Nat.leb_le | apply Nat.ltb_lt]; lia).
            rewrite app_nth2 by (rewrite length_zeros; lia).
            rewrite length_zeros.
            replace (n + length (bub s) + k - (n + length (bub s)))%nat with k by lia.
            rewrite app_nth1 by (rewrite repeat_length; exact Hk).
            rewrite (nth_indep _ 0%Q 1%Q) by (rewrite repeat_length; exact Hk).
            rewrite nth_repeat. ring. }
    split; [exact Hu|]. apply is_basic_unit. exists k. exact Hu. }
Qed.

Lemma build_tableau_initial_basis_witness :
  let s := PState 0 ""%string (Arr1 [Fin 0; Fin 0]) (Arr1 [PInf; PInf]) [-1; 4]%Q
                  (Mat 2 []) [] (Mat 2 [[-3; 1]; [1; 2]]%Q) [6; 4]%Q 0%Q in
  exists T, build_tableau 2 s = Ok T /\
    forall k, (k < 2)%nat ->
      unit_at T (2 + 2 + k) k /\ is_basic T (2 + 2 + k) = true.
Proof.
  intro s.
  assert (Hc : conformant 2 s) by (repeat split; repeat constructor).
  exact (build_tableau_initial_basis 2 s Hc).
Defined.

(** ** Invariants of the normalisation *)

Lemma efold_invariant {A S} (P : S -> Prop) (body : A -> S -> exc S) (xs : list A) :
  (forall a s s', In a xs -> P s -> body a s = Ok s' -> P s') ->
  forall s s', P s -> efold body xs s = Ok s' -> P s'.
Proof.
  induction xs as [|a xs IH]; intros Hbody s s' Hs H; cbn [efold] in H.
  - injection H as <-. exact Hs.
  - destruct (body a s) as [s1|e] eqn:E; cbn [ebind] in H; [|discriminate].
    apply (IH (fun a0 s0 s0' Hin => Hbody a0 s0 s0' (or_intror Hin)) s1 s');
      [|exact H].
    apply (Hbody a s s1); [left; reflexivity | exact Hs | exact E].
Qed.

Lemma inv_invalid (n1 : nat) (s : pstate) (m : string) :
  normal_inv n1 s -> normal_inv n1 (invalid s m).
Proof. intros (H1 & H2 & H3). split; [right; reflexivity|]. split; assumption. Qed.

Lemma inv_if_invalid (n1 : nat) (s : pstate) (m : string) (b : bool) :
  normal_inv n1 s -> normal_inv n1 (if b then invalid s m else s).
Proof. intro H. destruct b; [apply inv_invalid|]; exact H. Qed.

Lemma L_if_invalid (s : pstate) (m : string) (b : bool) :
  L (if b then invalid s m else s) = L s.
Proof. destruct b; reflexivity. Qed.

Lemma inv_add_row (n n1 i : nat) (coef v : Q) (s s' : pstate) :
  add_row n i coef v s = Ok s' -> normal_inv n1 s -> normal_inv n1 s' /\ L s' = L s.
Proof.
  unfold add_row. destruct (vstack _ _) as [A|e]; cbn [ebind]; [|discriminate].
  intros H Hinv. injection H as <-. split; [exact Hinv | reflexivity].
Qed.

Lemma getitem_lt (l : list bound) (i : nat) (b : bound) :
  getitem (Arr1 l) i = Ok b -> (i < length l)%nat.
Proof.
  cbn [getitem]. destruct (nth_error l i) eqn:E; [|discriminate].
  intros _. apply nth_error_Some. congruence.
Qed.

Lemma inv_set_L (n1 i : nat) (b b' : bound) (s : pstate) :
  normal_inv n1 s -> getitem (L s) i = Ok b -> normal_inv n1 (set_L i b' s).
Proof.
  intros (H1 & H2 & H3) Hg. split; [exact H1|]. split; [exact H2|].
  cbn [L set_L]. destruct (L s) as [v|l0]; [exact H3|].
  cbn [setitem]. rewrite length_set_nth by (eapply getitem_lt; exact Hg). exact H3.
Qed.

Lemma inv_bounds_step (n n1 i : nat) (s s' : pstate) :
  normal_inv n1 s -> bounds_step n i s = Ok s' -> normal_inv n1 s'.
Proof.
  intros Hinv. unfold bounds_step.
  destruct (getitem (L s) i) as [Li|e] eqn:HL; cbn [ebind]; [|discriminate].
  destruct (getitem (U s) i) as [Ui|e] eqn:HU; cbn [ebind]; [|discriminate].
  set (s3 := if isinf Ui && bgtb (Fin 0) Ui then _ else _).
  assert (H3 : normal_inv n1 s3) by (unfold s3; repeat apply inv_if_invalid; exact Hinv).
  assert (HL3 : L s3 = L s) by (unfold s3; rewrite !L_if_invalid; reflexivity).
  clearbody s3.
  assert (H4 : forall s4,
             (if isfinite Li && bgtb Li (Fin 0)
              then (s' <- add_row n i (-1) (qneg (fin_val Li)) s3 ;;
                    Ok (set_L i (Fin 0) s'))%exc
              else Ok s3) = Ok s4 -> normal_inv n1 s4).
  { intros s4 H. destruct (isfinite Li && bgtb Li (Fin 0)).
    - destruct (add_row n i (-1) (qneg (fin_val Li)) s3) as [sa|e] eqn:Ea;
        cbn [ebind] in H; [|discriminate].
      injection H as <-. destruct (inv_add_row _ _ _ _ _ _ _ Ea H3) as [Ha HLa].
      eapply inv_set_L; [exact Ha|]. rewrite HLa, HL3. exact HL.
    - injection H as <-. exact H3. }
  destruct (if isfinite Li && bgtb Li (Fin 0) then _ else _) as [s4|e];
    cbn [ebind]; [|discriminate].
  specialize (H4 s4 eq_refl).
  destruct (isfinite Ui).
  - destruct (add_row n i 1 (fin_val Ui) s4) as [sa|e] eqn:Ea; cbn [ebind]; [|discriminate].
    intro H. injection H as <-. destruct (inv_add_row _ _ _ _ _ _ _ Ea H4) as [Ha _].
    exact Ha.
  - intro H. injection H as <-. exact H4.
Qed.

Lemma inv_shift_step (n1 i : nat) (s s' : pstate) :
  (i < n1)%nat -> normal_inv n1 s -> shift_step i s = Ok s' -> normal_inv n1 s'.
Proof.
  intros Hi Hinv. unfold shift_step.
  destruct (getitem (L s) i) as [Li|e] eqn:HL; cbn [ebind]; [|discriminate].
  assert (H1 : forall s1,
     (if bgtb (Fin 0) Li then
        if isfinite Li && bgtb (Fin 0) Li then
          (ce <- col_of (Aeq s) i ;;
           beq' <- bcast_sub (beq s) (map (fun a => qmul a (fin_val Li)) ce) ;;
           cu <- col_of (Aub s) i ;;
           bub' <- bcast_sub (bub s) (map (fun a => qmul a (fin_val Li)) cu) ;;
           Ok (PState (st s) (msg s) (L s) (U s) (cc s) (Aeq s) beq'
                      (Aub s) bub'
                      (qsub (f0 s) (qmul (nth i (cc s) 0%Q) (fin_val Li)))))%exc
        else
          (ce0 <- col_of (Aeq s) 0 ;;
           ce <- col_of (Aeq s) i ;;
           cu0 <- col_of (Aub s) 0 ;;
           cu <- col_of (Aub s) i ;;
           Ok (PState (st s) (msg s) (L s) (U s)
                      (set_nth 0 (qsub (nth 0 (cc s) 0%Q) (nth i (cc s) 0%Q)) (cc s))
                      (set_col (Aeq s) 0 (vsub ce0 ce)) (beq s)
                      (set_col (Aub s) 0 (vsub cu0 cu)) (bub s) (f0 s)))%exc
      else Ok s) = Ok s1 -> normal_inv n1 s1).
  { intros s1 H. destruct Hinv as (Ha & Hb & Hc).
    destruct (bgtb (Fin 0) Li); [|injection H as <-; repeat split; assumption].
    rewrite andb_true_r in H. destruct (isfinite Li).
    - destruct (col_of (Aeq s) i); cbn [ebind] in H; [|discriminate].
      destruct (bcast_sub (beq s) _); cbn [ebind] in H; [|discriminate].
      destruct (col_of (Aub s) i); cbn [ebind] in H; [|discriminate].
      destruct (bcast_sub (bub s) _); cbn [ebind] in H; [|discriminate].
      injection H as <-. repeat split; assumption.
    - destruct (col_of (Aeq s) 0); cbn [ebind] in H; [|discriminate].
      destruct (col_of (Aeq s) i); cbn [ebind] in H; [|discriminate].
      destruct (col_of (Aub s) 0); cbn [ebind] in H; [|discriminate].
      destruct (col_of (Aub s) i); cbn [ebind] in H; [|discriminate].
      injection H as <-. split; [exact Ha|]. split; [|exact Hc].
      cbn [cc]. rewrite length_set_nth by lia. exact Hb. }
  destruct (if bgtb (Fin 0) Li then _ else _) as [s1|e]; cbn [ebind]; [|discriminate].
  specialize (H1 s1 eq_refl).
  destruct (getitem (U s1) i) as [Ui|e]; cbn [ebind]; [|discriminate].
  intro H. injection H as <-.
  destruct (isinf Ui); [apply inv_if_invalid|]; exact H1.
Qed.

Lemma inv_check_shapes (n n1 : nat) (s : pstate) :
  normal_inv n1 s -> normal_inv n1 (check_shapes n s).
Proof.
  intro H. unfold check_shapes. cbv zeta. repeat apply inv_if_invalid. exact H.
Qed.

Lemma read_bounds_length (bs : list (list entry)) (idx : list nat) :
  forall l u, length u = length l ->
    Forall (fun i => (i < length l)%nat) idx ->
    let '(l', u', _) := read_bounds bs idx l u in
    length l' = length l /\ length u' = length l.
Proof.
  induction idx as [|i idx IH]; intros l u Hu Hidx; cbn [read_bounds].
  - auto.
  - inversion Hidx as [|? ? Hi Hidx']; subst.
    destruct (negb (length (nth 0 bs []) =? 2)%nat); [auto|].
    destruct (nth_error (nth i bs []) 0) as [lo|]; [|auto].
    destruct (nth_error (nth i bs []) 1) as [hi|].
    + specialize (IH (set_nth i (lower_of lo) l) (set_nth i (upper_of hi) u)).
      rewrite !length_set_nth in IH by lia.
      apply IH; [exact Hu | exact Hidx'].
    + rewrite length_set_nth by exact Hi. auto.
Qed.

Lemma analyze_bounds_inv (n : nat) (bounds : option (list (list entry)))
    (st0 : Z) (msg0 : string) (L0 U0 : larr) :
  analyze_bounds n bounds = Ok (st0, msg0, L0, U0) ->
  (st0 = 0 \/ st0 = -1) /\
  match L0 with
  | Arr1 l => length l = n /\ exists u, U0 = Arr1 u
  | Arr0 _ => exists v, U0 = Arr0 v
  end.
Proof.
  unfold analyze_bounds.
  assert (Hd : length (repeat (Fin 0) n) = n /\ exists u, Arr1 (repeat PInf n) = Arr1 u)
    by (split; [apply repeat_length | eexists; reflexivity]).
  destruct bounds as [bs|]; [|intro H; injection H as <- <- <- <-; auto].
  destruct (length bs =? 0)%nat; [intro H; injection H as <- <- <- <-; auto|].
  destruct (length bs =? 1)%nat.
  - destruct (scaled_entry n bs 0); cbn [ebind]; [|discriminate].
    destruct (scaled_entry n bs 1); cbn [ebind]; [|discriminate].
    intro H; injection H as <- <- <- <-. split; [auto | eexists; reflexivity].
  - destruct (negb (length bs =? n)%nat); [intro H; injection H as <- <- <- <-; auto|].
    pose proof (read_bounds_length bs (range n) (repeat (Fin 0) n) (repeat PInf n)) as Hr.
    rewrite !repeat_length in Hr. specialize (Hr eq_refl).
    assert (Hidx : Forall (fun i => (i < n)%nat) (range n)).
    { apply Forall_forall. intros i Hi. apply in_seq in Hi. lia. }
    specialize (Hr Hidx).
    destruct (read_bounds bs (range n) _ _) as [[l' u'] failed].
    destruct Hr as [Hl _].
    destruct failed; intro H; injection H as <- <- <- <-;
      (split; [auto|]); (split; [exact Hl | eexists; reflexivity]).
Qed.

(** What [normalize] guarantees of its result. *)
Lemma normalize_inv (c : list Q) (A_ub : option mat) (b_ub : option (list Q))
    (A_eq : option mat) (b_eq : option (list Q))
    (bounds : option (list (list entry))) (n1 : nat) (fl : bool) (s : pstate) :
  normalize c A_ub b_ub A_eq b_eq bounds = Ok (n1, fl, s) ->
  normal_inv n1 s /\ n1 = (length c + (if fl then 1 else 0))%nat.
Proof.
  unfold normalize. cbv zeta.
  destruct (analyze_bounds (length c) bounds) as [[[[st0 msg0] L0] U0]|e] eqn:Ea;
    cbn [ebind]; [|discriminate].
  destruct (analyze_bounds_inv _ _ _ _ _ _ Ea) as [Hst HL0].
  set (s0 := PState st0 msg0 L0 U0 c _ _ _ _ 0%Q).
  destruct (if any_neg_inf L0 then _ else _) as [[[n1' fl'] s1]|e] eqn:E1; cbn [ebind];
    [|discriminate].
  destruct (efold (bounds_step n1') (range n1') s1) as [s2|e] eqn:E2; cbn [ebind];
    [|discriminate].
  destruct (efold shift_step (range n1') s2) as [s3|e] eqn:E3; cbn [ebind];
    [|discriminate].
  intro H. injection H as <- <- <-.
  assert (H1 : normal_inv n1' s1 /\ n1' = (length c + (if fl' then 1 else 0))%nat).
  { destruct (any_neg_inf L0).
    - unfold add_floor in E1. cbn [L U s0] in E1.
      destruct L0 as [v|l]; cbn [concat_front ebind] in E1; [discriminate|].
      destruct U0 as [v|u]; cbn [concat_front ebind] in E1; [discriminate|].
      injection E1 as <- <- <-. split; [|lia].
      split; [exact Hst|]. split; [reflexivity|]. cbn [L length].
      f_equal. apply HL0.
    - injection E1 as <- <- <-. split; [|lia].
      split; [exact Hst|]. split; [reflexivity|]. cbn [L s0].
      destruct L0 as [v|l]; [|apply HL0].
      (* a 0-d L cannot be indexed: with a variable the first loop raises *)
      destruct (length c) as [|k]; [reflexivity|exfalso].
      unfold range in E2. cbn [seq efold] in E2. unfold bounds_step at 1 in E2.
      cbn [L s0 getitem ebind] in E2. discriminate. }
  destruct H1 as [H1 Hn]. split; [|exact Hn].
  apply inv_check_shapes.
  apply (efold_invariant (normal_inv n1') shift_step (range n1')
           (fun a sa sa' Hin Hs Hb =>
              inv_shift_step n1' a sa sa' (range_lt _ _ Hin) Hs Hb) s2 s3); [|exact E3].
  apply (efold_invariant (normal_inv n1') _ _
           (fun a sa sa' _ Hs Hb => inv_bounds_step n1' n1' a sa sa' Hs Hb) s1 s2 H1 E2).
Qed.

(** ** The result record *)

Lemma rbind_full {A B} (m : run A) (k : A -> run B) (l : list event) (b : B) :
  rbind m k = (l, Ok b) ->
  exists a l1 l2, m = (l1, Ok a) /\ k a = (l2, Ok b) /\ l = l1 ++ l2.
Proof.
  unfold rbind. destruct m as [l1 [a|e]]; cbn [fst snd]; [|discriminate].
  destruct (k a) as [l2 r] eqn:E. cbn [fst snd]. intro H. injection H as <- ->.
  exists a, l1, l2. auto.
Qed.

(** The paths through [_linprog_simplex] that return a result. *)
Lemma linprog_simplex_paths (c : list Q) (A_ub : option mat) (b_ub : option (list Q))
    (A_eq : option mat) (b_eq : option (list Q))
    (bounds : option (list (list entry))) (maxiter : Z) (callback : bool)
    (tol : Q) (log : list event) (res : Result) :
  _linprog_simplex c A_ub b_ub A_eq b_eq bounds maxiter callback tol = (log, Ok res) ->
  exists n1 fl s,
    normalize c A_ub b_ub A_eq b_eq bounds = Ok (n1, fl, s) /\
    ((st s <> 0 /\ log = [] /\
      res = MkResult (zeros (length (cc s))) 0 0 (st s) (msg s) false) \/
     (st s = 0 /\
      exists T log1 r1,
        build_tableau n1 s = Ok T /\
        lpsimplex T n1 (length (bub s)) (length (bub s) + length (beq s))
                  maxiter 1 callback tol 0 = (log1, Ok r1) /\
        ((log = Invoke 1 0 T :: log1 /\
          x res = r_x r1 /\ res_nit res = r_nit r1 /\ success res = false /\
          res_status res <> 0 /\
          (res_status res = 2 \/ res_status res = r_status r1)) \/
         (exists T2 log2 r2,
            lpsimplex T2 n1 (length (bub s)) (length (bub s) + length (beq s))
                      maxiter 2 callback tol (r_nit r1) = (log2, Ok r2) /\
            log = Invoke 1 0 T :: log1 ++ Invoke 2 (r_nit r1) T2 :: log2 /\
            res = MkResult (restore n1 fl (L s) (r_x r2))
                           (qneg (corner (r_tableau r2))) (r_nit r2)
                           (r_status r2) (r_message r2) (r_status r2 =? 0))))).
Proof.
  intro H. unfold _linprog_simplex in H.
  apply rbind_full in H. destruct H as ([[n1 fl] s] & l0 & l0' & Hn & H & ->).
  unfold lift in Hn. injection Hn as <- Hn. cbn [app].
  exists n1, fl, s. split; [exact Hn|].
  destruct (Z.eqb_spec (st s) 0) as [Hst|Hst]; cbn [negb] in H.
  2:{ left. unfold rret in H. injection H as <- <-. auto. }
  right. split; [exact Hst|].
  apply rbind_full in H. destruct H as (T & l1 & l1' & HT & H & ->).
  unfold lift in HT. injection HT as <- HT. cbn [app].
  apply rbind_full in H. destruct H as ([] & l2 & l2' & He & H & ->).
  unfold emit in He. injection He as <-. cbn [app].
  apply rbind_full in H. destruct H as (r1 & log1 & l3 & Hr1 & H & ->).
  exists T, log1, r1. split; [exact HT|]. split; [exact Hr1|].
  destruct (qltb (qabs (corner (r_tableau r1))) tol).
  - destruct (Z.eqb_spec (r_status r1) 0) as [Hs|Hs]; cbn [negb] in H.
    + right.
      apply rbind_full in H. destruct H as ([] & l4 & l4' & He & H & ->).
      unfold emit in He. injection He as <-.
      apply rbind_full in H. destruct H as (r2 & log2 & l5 & Hr2 & H & ->).
      unfold rret in H. injection H as <- <-.
      eexists _, log2, r2. split; [exact Hr2|]. split; [|reflexivity].
      rewrite app_nil_r. reflexivity.
    + left. unfold rret in H. injection H as <- <-. rewrite app_nil_r.
      cbn. auto 10.
  - cbn [Z.eqb negb] in H. left. unfold rret in H. injection H as <- <-.
    rewrite app_nil_r. cbn. repeat split; auto; discriminate.
Qed.

Lemma length_fill_solution (n : nat) (idx : list nat) :
  forall vals xs, length xs = n -> length (fill_solution n idx vals xs) = n.
Proof.
  induction idx as [|i idx IH]; intros vals xs Hx; cbn [fill_solution]; [exact Hx|].
  destruct vals as [|v vals]; [exact Hx|].
  destruct (Nat.ltb_spec i n); [|exact Hx].
  apply IH. rewrite length_set_nth; lia.
Qed.

Lemma length_read_solution (n : nat) (b : list nat * list Q) :
  length (read_solution n b) = n.
Proof. apply length_fill_solution, length_zeros. Qed.

Lemma lpsimplex_x_length (t : mat) (n n_slack n_artificial : nat)
    (maxiter phase : Z) (callback : bool) (tol : Q) (nit0 : Z) (r : engine_result) :
  snd (lpsimplex t n n_slack n_artificial maxiter phase callback tol nit0) = Ok r ->
  length (r_x r) = n.
Proof.
  intro H. unfold lpsimplex in H. cbv zeta in H.
  apply rbind_snd_ok in H. destruct H as (headers & _ & H).
  apply rbind_snd_ok in H. destruct H as (e & _ & H).
  destruct e as [s st m|s]; [|destruct (nit s >=? maxiter)];
    apply rbind_snd_ok in H; destruct H as (b & _ & H);
    cbn in H; injection H as <-; apply length_read_solution.
Qed.

Lemma length_masked (l : list bound) : length (masked l) = length l.
Proof. apply length_map. Qed.

Lemma length_restore (n1 : nat) (fl : bool) (Lf : larr) (xs : list Q) :
  length xs = n1 ->
  match Lf with Arr1 l => length l = n1 | Arr0 _ => n1 = 0%nat end ->
  (fl = true -> (0 < n1)%nat) ->
  length (restore n1 fl Lf xs) = (n1 - (if fl then 1 else 0))%nat.
Proof.
  intros Hx HL Hfl. unfold restore. destruct Lf as [v|l].
  - destruct fl; [specialize (Hfl eq_refl)|]; lia.
  - set (x1 := map _ (combine xs (masked l))).
    assert (H1 : length x1 = n1)
      by (unfold x1; rewrite length_map, length_combine, length_masked; lia).
    destruct fl; [|lia].
    assert (Hf : forall idx acc, Forall (fun i => (i < length acc)%nat) idx ->
              length (fold_left
                        (fun acc i =>
                           if isinf (nth i l (Fin 0))
                           then set_nth i (qsub (nth i acc 0%Q) (nth 0 acc 0%Q)) acc
                           else acc) idx acc) = length acc).
    { induction idx as [|i idx IH]; intros acc Hall; cbn [fold_left]; [reflexivity|].
      inversion Hall as [|? ? Hi Hall']; subst.
      destruct (isinf (nth i l (Fin 0))).
      - rewrite IH; rewrite length_set_nth by exact Hi; [reflexivity | exact Hall'].
      - apply IH, Hall'. }
    assert (E : forall (A : Type) (w : list A), length (tl w) = (length w - 1)%nat)
      by (intros A [|a w]; cbn; lia).
    rewrite E, Hf; [rewrite H1; reflexivity|].
    apply Forall_forall. intros i Hi. apply in_seq in Hi. lia.
Qed.

Lemma lpsimplex_nit_bounds (t : mat) (n n_slack n_artificial : nat)
    (maxiter phase : Z) (callback : bool) (tol : Q) (nit0 : Z) (r : engine_result) :
  snd (lpsimplex t n n_slack n_artificial maxiter phase callback tol nit0) = Ok r ->
  nit0 <= r_nit r <= Z.max nit0 maxiter /\
  (r_status r = 0 \/ r_status r = 1 \/ r_status r = 3).
Proof.
  intro H. apply lpsimplex_exit in H. destruct H as [H _].
  destruct H as [(H1 & H2)|[(H1 & H2 & _)|(H1 & H2 & _)]]; split; auto; lia.
Qed.

(** X10.  What [linprog] can return.  For a method whose lower-cased name
    is not "simplex" it raises ValueError at once, whatever the other
    arguments.  For the others it is [_linprog_simplex] on the same problem,
    and whenever a result is returned its status is one of -1, 0, 1, 2, 3,
    its success flag is true exactly when the status is 0, and its iteration
    count lies between 0 and the iteration cap (1000 unless [options] sets
    [maxiter]). *)
Theorem linprog_result_status (c : list Q) (A_eq : option mat) (b_eq : option (list Q))
    (A_ub : option mat) (b_ub : option (list Q))
    (bounds : option (list (list entry))) (method : string) (callback : bool)
    (options : option solver_options) :
  let out := linprog c A_eq b_eq A_ub b_ub bounds method callback options in
  (lower method <> "simplex"%string -> out = ([], Raise ValueError)) /\
  (lower method = "simplex"%string ->
   out = _linprog_simplex c A_ub b_ub A_eq b_eq bounds (option_maxiter options)
                          callback (option_tol options)) /\
  (forall res, snd out = Ok res ->
     lower method = "simplex"%string /\
     In (res_status res) [-1; 0; 1; 2; 3] /\
     (success res = true <-> res_status res = 0) /\
     0 <= res_nit res <= Z.max 0 (option_maxiter options)).
Proof.
  intro out. subst out. unfold linprog. cbv zeta.
  destruct (String.eqb_spec (lower method) "simplex") as [Hm|Hm].
  2:{ split; [reflexivity|]. split; [contradiction | discriminate]. }
  split; [contradiction|]. split; [reflexivity|].
  intros res H. split; [exact Hm|].
  set (cap := option_maxiter options) in *. clearbody cap.
  destruct (_linprog_simplex _ _ _ _ _ _ _ _ _) as [log r] eqn:E. cbn [snd] in H.
  subst r. apply linprog_simplex_paths in E.
  destruct E as (n1 & fl & s & Hn & [(Hst & _ & ->)|(Hst & T & log1 & r1 & _ & Hr1 & E)]).
  - apply normalize_inv in Hn. destruct Hn as [([H0|H0] & _) _]; [congruence|].
    cbn. rewrite H0. split; [auto|]. split; [split; discriminate | lia].
  - assert (H1 := f_equal snd Hr1). cbn [snd] in H1.
    apply lpsimplex_nit_bounds in H1. destruct H1 as [Hn1 Hs1].
    destruct E as [(_ & _ & Hnit & Hsu & Hne & Hst2)|(T2 & log2 & r2 & Hr2 & _ & ->)].
    + rewrite Hnit, Hsu. split; [|split; [split; [discriminate | congruence] | lia]].
      cbn. destruct Hst2 as [-> | ->]; [auto 10|].
      destruct Hs1 as [-> | [-> | ->]]; auto 10.
    + assert (H2 := f_equal snd Hr2). cbn [snd] in H2.
      apply lpsimplex_nit_bounds in H2. destruct H2 as [Hn2 Hs2].
      cbn. split; [destruct Hs2 as [-> | [-> | ->]]; auto 10|].
      split; [apply Z.eqb_eq | lia].
Qed.

(** The docstring's problem: refused for the method "interior-point",
    solved for the method spelled "Simplex". *)
Lemma linprog_result_status_witness :
  linprog [-1; 4]%Q None None (Some (Mat 2 [[-3; 1]; [1; 2]]%Q))
          (Some [6; 4]%Q) None "interior-point" false None
  = ([], Raise ValueError) /\
  exists res,
    snd (linprog [-1; 4]%Q None None (Some (Mat 2 [[-3; 1]; [1; 2]]%Q))
                 (Some [6; 4]%Q) None "Simplex" false None) = Ok res /\
    lower "Simplex" = "simplex"%string /\
    In (res_status res) [-1; 0; 1; 2; 3] /\
    (success res = true <-> res_status res = 0) /\
    0 <= res_nit res <= Z.max 0 (option_maxiter None).
Proof.
  split.
  - apply (linprog_result_status [-1; 4]%Q None None
             (Some (Mat 2 [[-3; 1]; [1; 2]]%Q)) (Some [6; 4]%Q) None
             "interior-point" false None).
    vm_compute. discriminate.
  - eexists. split; [vm_compute; reflexivity|].
    apply (linprog_result_status [-1; 4]%Q None None
             (Some (Mat 2 [[-3; 1]; [1; 2]]%Q)) (Some [6; 4]%Q) None
             "Simplex" false None).
    vm_compute. reflexivity.
Defined.

(** X11.  The length of the returned solution.  When Phase 2 has run, and
    in particular whenever the status is 0, [x] has one entry for each
    entry of [c].  When the solver returns before Phase 2 (invalid input, or
    Phase 1 did not end feasible with status 0), [x] has the entries of the
    normalised problem: one more than [c] when a floor variable was added
    for a lower bound of -inf. *)
Theorem solution_length (c : list Q) (A_ub : option mat) (b_ub : option (list Q))
    (A_eq : option mat) (b_eq : option (list Q))
    (bounds : option (list (list entry))) (maxiter : Z) (callback : bool)
    (tol : Q) (n1 : nat) (fl : bool) (s : pstate) (log : list event) (res : Result) :
  normalize c A_ub b_ub A_eq b_eq bounds = Ok (n1, fl, s) ->
  _linprog_simplex c A_ub b_ub A_eq b_eq bounds maxiter callback tol = (log, Ok res) ->
  ((exists k t, In (Invoke 2 k t) log) -> length (x res) = length c) /\
  ((forall k t, ~ In (Invoke 2 k t) log) ->
   length (x res) = (length c + (if fl then 1 else 0))%nat) /\
  (res_status res = 0 -> length (x res) = length c).
Proof.
  intros Hn H. apply linprog_simplex_paths in H.
  destruct H as (n1' & fl' & s' & Hn' & H). rewrite Hn in Hn'.
  injection Hn' as <- <- <-.
  destruct (normalize_inv _ _ _ _ _ _ _ _ _ Hn) as [(Hst & Hcc & HL) Hn1].
  destruct H as [(Hst0 & -> & ->)|(Hst0 & T & log1 & r1 & _ & Hr1 & E)].
  - cbn [x res_status]. rewrite length_zeros, Hcc.
    split; [intros (k & t & []) | split; [intros _; exact Hn1 | congruence]].
  - assert (H1 := f_equal snd Hr1). cbn [snd] in H1.
    apply lpsimplex_x_length in H1.
    destruct E as [(-> & Hx & _ & _ & Hne & _)|(T2 & log2 & r2 & Hr2 & -> & ->)].
    + rewrite Hx, H1. split; [|split; [intros _; exact Hn1 | congruence]].
      intros (k & t & [Hin|Hin]); [discriminate|].
      assert (Hin' : In (Invoke 2 k t)
                 (fst (lpsimplex T n1 (length (bub s))
                         (length (bub s) + length (beq s)) maxiter 1 callback tol 0)))
        by (rewrite Hr1; exact Hin).
      apply lpsimplex_observes in Hin'. destruct Hin' as [p Hp]. discriminate.
    + assert (H2 := f_equal snd Hr2). cbn [snd] in H2.
      apply lpsimplex_x_length in H2.
      assert (Hlen : length (restore n1 fl (L s) (r_x r2)) = length c).
      { rewrite (length_restore n1 fl (L s) (r_x r2) H2 HL);
          destruct fl; lia. }
      cbn [x]. split; [intros _; exact Hlen|]. split; [|intros _; exact Hlen].
      intro Hno. exfalso. apply (Hno (r_nit r1) T2).
      right. apply in_or_app. right. left. reflexivity.
Qed.

Lemma map_const_repeat {A B} (f : A -> B) (b : B) (l : list A) :
  Forall (fun a => f a = b) l -> map f l = repeat b (length l).
Proof.
  induction 1 as [|a l Ha _ IH]; cbn; [reflexivity|]. now rewrite Ha, IH.
Qed.

(** Two variables, the first free, and an iteration cap of 0: the solver
    returns after Phase 1 with three entries in [x]. *)
Lemma solution_length_witness :
  let bs := [[None; None]; [Some (Fin 0); None]] in
  let res := MkResult [0; 0; 0]%Q 0 0 1 msg_iteration_limit false in
  _linprog_simplex [1; 1]%Q None None None None (Some bs) 0 false default_tol
  = ([Invoke 1 0 (Mat 4 [[-1; 1; 1; 0]; [0; 0; 0; 0]]%Q)], Ok res) /\
  length (x res) = 3%nat.
Proof.
  intros bs res.
  pose (s := PState 0 ""%string (Arr1 [Fin 0; NInf; Fin 0]) (Arr1 [PInf; PInf; PInf])
                    [-1; 1; 1]%Q (Mat 3 []) [] (Mat 3 []) [] 0%Q).
  assert (Hn : normalize [1; 1]%Q None None None None (Some bs) = Ok (3%nat, true, s))
    by (vm_compute; reflexivity).
  assert (Ho : _linprog_simplex [1; 1]%Q None None None None (Some bs) 0 false
                                default_tol
               = ([Invoke 1 0 (Mat 4 [[-1; 1; 1; 0]; [0; 0; 0; 0]]%Q)], Ok res))
    by (vm_compute; reflexivity).
  split; [exact Ho|].
  destruct (solution_length _ _ _ _ _ _ _ _ _ _ _ _ _ _ Hn Ho) as (_ & H & _).
  apply H. intros k t [Hin|[]]. discriminate.
Defined.

(** X12.  Writing the default bounds out changes nothing: for a problem
    with a number of variables other than 1, one pair (0, None) or
    (0, +inf) for every variable gives exactly the run and the result that
    [bounds = None] gives. *)
Theorem explicit_default_bounds (c : list Q) (A_ub : option mat)
    (b_ub : option (list Q)) (A_eq : option mat) (b_eq : option (list Q))
    (bs : list (list entry)) (maxiter : Z) (callback : bool) (tol : Q) :
  length bs = length c -> length c <> 1%nat ->
  Forall (fun p => p = [Some (Fin 0); None] \/ p = [Some (Fin 0); Some PInf]) bs ->
  _linprog_simplex c A_ub b_ub A_eq b_eq (Some bs) maxiter callback tol =
  _linprog_simplex c A_ub b_ub A_eq b_eq None maxiter callback tol.
Proof.
  intros Hlen Hn1 Hall.
  assert (Ha : analyze_bounds (length c) (Some bs) = analyze_bounds (length c) None).
  { rewrite analyze_bounds_pairs; [|exact Hlen|exact Hn1|].
    - unfold analyze_bounds. rewrite <- Hlen.
      rewrite (map_const_repeat _ (Fin 0)), (map_const_repeat _ PInf); [reflexivity| |];
        (eapply Forall_impl; [|exact Hall]); intros p [-> | ->]; reflexivity.
    - eapply Forall_impl; [|exact Hall]. intros p [-> | ->]; reflexivity. }
  unfold _linprog_simplex, normalize. rewrite Ha. reflexivity.
Qed.

Lemma explicit_default_bounds_witness :
  let bs := [[Some (Fin 0); None]; [Some (Fin 0); Some PInf]] in
  _linprog_simplex [-1; 4]%Q (Some (Mat 2 [[-3; 1]; [1; 2]]%Q)) (Some [6; 4]%Q)
                   None None (Some bs) 1000 false default_tol =
  _linprog_simplex [-1; 4]%Q (Some (Mat 2 [[-3; 1]; [1; 2]]%Q)) (Some [6; 4]%Q)
                   None None None 1000 false default_tol.
Proof.
  intro bs. apply explicit_default_bounds.
  - reflexivity.
  - cbn. lia.
  - constructor; [left; reflexivity|].
    constructor; [right; reflexivity|]. constructor.
Defined.

(** ** The engine, step by step *)

Lemma argmin_lt (v : list Q) (k : nat) :
  argmin v = Ok k ->
  (k < length v)%nat /\ forall j, (j < length v)%nat -> (nth k v 0 <= nth j v 0)%Q.
Proof.
  destruct v as [|c v]; cbn [argmin]; [discriminate|].
  intro H. injection H as <-.
  destruct (argmin_from_spec v [c] 0) as (H1 & H2 & _).
  - cbn. lia.
  - intros j Hj. cbn in Hj. assert (j = 0%nat) as -> by lia. apply Qle_refl.
  - intros j Hj. lia.
  - split; [exact H1 | exact H2].
Qed.

Lemma forallb_false {A} (f : A -> bool) (l : list A) :
  forallb f l = false -> exists a, In a l /\ f a = false.
Proof.
  induction l as [|a l IH]; cbn [forallb]; [discriminate|].
  destruct (f a) eqn:E; cbn [andb].
  - intro H. destruct (IH H) as [b [Hb Hf]]. exists b. split; [right|]; assumption.
  - intros _. exists a. split; [left; reflexivity | exact E].
Qed.

(** The objective row of a rectangular tableau. *)
Lemma objective_row_cells (t : mat) (obj : list Q) :
  rect t -> objective_row t = Ok obj ->
  length obj = (ncols t - 1)%nat /\
  forall j, (j < ncols t - 1)%nat -> nth j obj 0%Q = cell t (nrows t - 1) j.
Proof.
  intros Hrect. unfold objective_row.
  destruct (rows t) as [|r rs] eqn:Er; [discriminate|]. intro H. injection H as <-.
  assert (Hn : (0 < nrows t)%nat) by (unfold nrows; rewrite Er; cbn; lia).
  assert (Hlast : last (r :: rs) [] = nth (nrows t - 1) (rows t) []).
  { rewrite <- Er. unfold nrows. apply last_nth. }
  change (match rs with [] => r | _ :: _ => last rs [] end) with (last (r :: rs) []).
  rewrite Hlast.
  assert (Hlen : length (nth (nrows t - 1) (rows t) []) = ncols t)
    by (apply rect_row; [exact Hrect | lia]).
  split.
  - rewrite removelast_firstn_len, length_firstn, Hlen. lia.
  - intros j Hj. rewrite nth_removelast by lia. reflexivity.
Qed.

(** X13.  What the status of [lpsimplex] tells (lines 289-370).  The
    iteration count never falls below [nit0] nor exceeds the larger of
    [nit0] and [maxiter]; status 0 is returned only with a tableau whose
    objective row passes the optimality test of line 333; status 1 is
    returned exactly when the count has reached [maxiter]. *)
Theorem lpsimplex_status_sound (t : mat) (n n_slack n_artificial : nat)
    (maxiter phase : Z) (callback : bool) (tol : Q) (nit0 : Z) (r : engine_result) :
  snd (lpsimplex t n n_slack n_artificial maxiter phase callback tol nit0) = Ok r ->
  nit0 <= r_nit r <= Z.max nit0 maxiter /\
  (r_status r = 0 -> optimal tol (r_tableau r) = true) /\
  (r_status r = 1 <-> maxiter <= r_nit r).
Proof.
  intro H. apply lpsimplex_exit in H. destruct H as [H _].
  destruct H as [(H1 & H2)|[(H1 & H2 & H3)|(H1 & H2 & H3)]].
  - split; [lia|]. split; [congruence|]. split; [lia | intros _; exact H1].
  - split; [lia|]. split; [intros _; exact H3|]. split; [congruence | lia].
  - split; [lia|]. split; [congruence|]. split; [congruence | lia].
Qed.

(** [max x] with [x <= 4]: one pivot, status 0, an optimal tableau. *)
Lemma lpsimplex_status_sound_witness :
  let t := Mat 3 [[1; 1; 4]; [-1; 0; 0]]%Q in
  exists r, snd (lpsimplex t 1 1 0 1000 2 false default_tol 0) = Ok r /\
            0 <= r_nit r <= Z.max 0 1000 /\
            (r_status r = 0 -> optimal default_tol (r_tableau r) = true) /\
            (r_status r = 1 <-> 1000 <= r_nit r).
Proof.
  intro t. eexists. split; [vm_compute; reflexivity|].
  apply (lpsimplex_status_sound t 1 1 0 1000 2 false default_tol 0).
  vm_compute. reflexivity.
Defined.

(** X14.  The engine never resizes its tableau: called on a tableau whose
    rows all have [ncols] cells, it leaves a tableau of the same row and
    column counts, whatever the number of pivots. *)
Theorem lpsimplex_keeps_shape (t : mat) (n n_slack n_artificial : nat)
    (maxiter phase : Z) (callback : bool) (tol : Q) (nit0 : Z) (r : engine_result) :
  rect t ->
  snd (lpsimplex t n n_slack n_artificial maxiter phase callback tol nit0) = Ok r ->
  rect (r_tableau r) /\ nrows (r_tableau r) = nrows t /\
  ncols (r_tableau r) = ncols t.
Proof.
  intros Hrect H. apply lpsimplex_exit in H. destruct H as [_ H]. exact (H Hrect).
Qed.

Lemma lpsimplex_keeps_shape_witness :
  let t := Mat 3 [[1; 1; 4]; [-1; 0; 0]]%Q in
  exists r, snd (lpsimplex t 1 1 0 1000 2 false default_tol 0) = Ok r /\
            rect (r_tableau r) /\ nrows (r_tableau r) = nrows t /\
            ncols (r_tableau r) = ncols t.
Proof.
  intro t. eexists. split; [vm_compute; reflexivity|].
  apply (lpsimplex_keeps_shape t 1 1 0 1000 2 false default_tol 0).
  - repeat constructor.
  - vm_compute. reflexivity.
Defined.

(** X15.  One pivoting turn of the loop (lines 289-362).  When a turn ends
    with the status still unset, the tableau has been pivoted once and the
    iteration count incremented; the pivot row is a constraint row, the
    pivot column is not the RHS column, the pivot cell is strictly
    positive, the objective coefficient of the pivot column is below
    [-tol], and the pivot column is basic in the new tableau. *)
Theorem engine_pivot_step (n : nat) (phase : Z) (callback : bool) (tol : Q)
    (t0 : mat) (hd : list string) (s s' : lstate) (log : list event) :
  rect (tableau s) -> status s = None ->
  iteration n phase callback tol t0 hd s = (log, Ok (Fell s')) ->
  status s' = None ->
  exists pr pc,
    tableau s' = pivot (tableau s) pr pc /\ nit s' = nit s + 1 /\
    (pr < nbody (tableau s) phase)%nat /\ (pc < ncols (tableau s) - 1)%nat /\
    (0 < cell (tableau s) pr pc)%Q /\
    (cell (tableau s) (nrows (tableau s) - 1) pc < - tol)%Q /\
    is_basic (tableau s') pc = true.
Proof.
  intros Hrect Hs Hit Hs'.
  destruct (iteration_cases n phase callback tol t0 hd s)
    as [[e He] | [(obj & pc & _ & _ & _ & He)
                 | (obj & pc & pr & lg & Hobj & Harg & Hrow & _ & He)]];
    [rewrite He in Hit; discriminate | rewrite He in Hit; discriminate |].
  cbv zeta in He. rewrite He in Hit. rewrite Hs in Hit.
  destruct (all_ge_neg_tol tol obj) eqn:Hopt; cbn [is_none] in Hit;
    injection Hit as _ <-; [discriminate|].
  cbn [tableau nit].
  apply ratio_candidates_nth in Hrow. destruct Hrow as [Hpr Hpos].
  destruct (objective_row_cells _ _ Hrect Hobj) as [Hlen Hcells].
  destruct (argmin_lt _ _ Harg) as [Hpc Hmin]. rewrite Hlen in Hpc, Hmin.
  exists pr, pc. do 5 (split; [first [reflexivity | assumption]|]).
  split.
  - unfold all_ge_neg_tol in Hopt. apply forallb_false in Hopt.
    destruct Hopt as [a [Hin Ha]]. apply (In_nth _ _ 0%Q) in Hin.
    destruct Hin as [j [Hj Hnth]]. rewrite Hlen in Hj.
    rewrite <- Hcells by exact Hpc.
    apply Qle_lt_trans with (y := nth j obj 0%Q); [apply Hmin, Hj|].
    rewrite Hnth. apply (proj1 (qltb_lt a (- tol))).
    unfold qltb. unfold qleb, qneg in Ha.
    rewrite negb_true_iff. rewrite <- Ha.
    apply eq_true_iff_eq. rewrite !Qle_bool_iff. rewrite Qred_correct. reflexivity.
  - pose proof (nbody_le (tableau s) phase) as Hnb.
    apply is_basic_unit. exists pr.
    apply pivot_unit_column; [exact Hrect | lia | lia |].
    intro Hz. rewrite Hz in Hpos. exact (Qlt_irrefl 0 Hpos).
Qed.

(** [max x] with [x <= 4]: the first turn pivots on row 0, column 0. *)
Lemma engine_pivot_step_witness :
  let t := Mat 3 [[1; 1; 4]; [-1; 0; 0]]%Q in
  let s := LState t 0 0 None ""%string in
  let s' := LState (Mat 3 [[1; 1; 4]; [0; 1; 4]]%Q) 1 0 None ""%string in
  iteration 1 2 false default_tol t [] s = ([], Ok (Fell s')) /\
  exists pr pc,
    tableau s' = pivot (tableau s) pr pc /\ nit s' = nit s + 1 /\
    (pr < nbody (tableau s) 2)%nat /\ (pc < ncols (tableau s) - 1)%nat /\
    (0 < cell (tableau s) pr pc)%Q /\
    (cell (tableau s) (nrows (tableau s) - 1) pc < - default_tol)%Q /\
    is_basic (tableau s') pc = true.
Proof.
  intros t s s'.
  assert (H : iteration 1 2 false default_tol t [] s = ([], Ok (Fell s')))
    by (vm_compute; reflexivity).
  split; [exact H|].
  apply (engine_pivot_step 1 2 false default_tol t [] s s' [] );
    [repeat constructor | reflexivity | exact H | reflexivity].
Defined.

(** ** The Phase 2 tableau; accepted problems *)

Lemma nth_removelast_gen {A} (l : list A) (i : nat) (d : A) :
  (i < length l - 1)%nat -> nth i (removelast l) d = nth i l d.
Proof.
  intro Hi. rewrite removelast_firstn_len, nth_firstn.
  replace (i <? pred (length l))%nat with true; [reflexivity|].
  symmetry. apply Nat.ltb_lt. lia.
Qed.

(** X17.  The Phase 2 tableau (lines 884-886).  Dropping the
    pseudo-objective row and the artificial columns of a tableau of
    [n + n_slack + n_artificial + 1] columns leaves one row less and
    [n + n_slack + 1] columns; every remaining row keeps its structural and
    slack cells and its right-hand side. *)
Theorem drop_phase1_cells (n n_slack n_artificial : nat) (t : mat) :
  rect t -> ncols t = (n + n_slack + n_artificial + 1)%nat ->
  let t2 := drop_phase1 n n_slack n_artificial t in
  nrows t2 = (nrows t - 1)%nat /\ ncols t2 = (n + n_slack + 1)%nat /\ rect t2 /\
  forall i, (i < nrows t - 1)%nat ->
    (forall j, (j < n + n_slack)%nat -> cell t2 i j = cell t i j) /\
    rhs (nth i (rows t2) []) = rhs (nth i (rows t) []).
Proof.
  intros Hrect Hc t2.
  assert (Hlen : length (removelast (rows t)) = (nrows t - 1)%nat)
    by (rewrite removelast_firstn_len, length_firstn; unfold nrows; lia).
  assert (Hrow : forall i, (i < nrows t - 1)%nat ->
            nth i (rows t2) [] =
            firstn (n + n_slack) (nth i (rows t) []) ++
            skipn (n + n_slack + n_artificial) (nth i (rows t) [])).
  { intros i Hi. unfold t2, drop_phase1. cbn [rows].
    rewrite (nth_map_in _ _ _ []) by (rewrite Hlen; exact Hi).
    rewrite nth_removelast_gen by (fold (nrows t); exact Hi). reflexivity. }
  assert (Hskip : forall i, (i < nrows t - 1)%nat ->
            skipn (n + n_slack + n_artificial) (nth i (rows t) []) =
            [rhs (nth i (rows t) [])]).
  { intros i Hi.
    assert (Hl : length (nth i (rows t) []) = (n + n_slack + n_artificial + 1)%nat)
      by (rewrite rect_row; [exact Hc | exact Hrect | lia]).
    rewrite <- (firstn_skipn (n + n_slack + n_artificial) (nth i (rows t) [])) at 2.
    destruct (skipn (n + n_slack + n_artificial) (nth i (rows t) [])) as [|a [|b w]] eqn:E.
    - apply (f_equal (@length Q)) in E. rewrite length_skipn, Hl in E. cbn in E. lia.
    - unfold rhs. rewrite last_last. reflexivity.
    - apply (f_equal (@length Q)) in E. rewrite length_skipn, Hl in E. cbn in E. lia. }
  split; [unfold t2, drop_phase1, nrows; cbn [rows]; rewrite length_map; exact Hlen|].
  split; [unfold t2, drop_phase1; cbn [ncols]; lia|].
  split.
  - unfold rect. apply Forall_forall. intros r Hin.
    apply (In_nth _ _ []) in Hin. destruct Hin as [i [Hi Hr]].
    assert (Hi' : (i < nrows t - 1)%nat).
    { unfold t2, drop_phase1 in Hi. cbn [rows] in Hi.
      rewrite length_map, Hlen in Hi. exact Hi. }
    rewrite Hrow in Hr by exact Hi'. subst r.
    rewrite Hskip by exact Hi'. rewrite length_app, length_firstn, rect_row
      by (first [exact Hrect | lia]).
    unfold t2, drop_phase1. cbn [ncols length]. lia.
  - intros i Hi. split.
    + intros j Hj. unfold cell at 1. rewrite Hrow by exact Hi.
      rewrite app_nth1
        by (rewrite length_firstn, rect_row by (first [exact Hrect | lia]); lia).
      rewrite nth_firstn. apply Nat.ltb_lt in Hj. rewrite Hj. reflexivity.
    + rewrite Hrow, Hskip by exact Hi. unfold rhs at 1. apply last_last.
Qed.

Lemma check_shapes_conform (n : nat) (s : pstate) :
  nrows (Aeq s) = length (beq s) -> nrows (Aub s) = length (bub s) ->
  ncols (Aeq s) = n -> ncols (Aub s) = n -> check_shapes n s = s.
Proof.
  intros H1 H2 H3 H4. unfold check_shapes.
  rewrite H1, Nat.eqb_refl. cbn [negb]. rewrite H2, Nat.eqb_refl. cbn [negb].
  rewrite H3, Nat.eqb_refl. cbn [negb]. rewrite andb_false_r.
  rewrite H4, Nat.eqb_refl. cbn [negb]. rewrite andb_false_r. reflexivity.
Qed.

Lemma rbind_fst_ok {A B} (m : run A) (k : A -> run B) (l : list event) (a : A) :
  m = (l, Ok a) -> fst (rbind m k) = l ++ fst (k a) /\ snd (rbind m k) = snd (k a).
Proof. intros ->. split; reflexivity. Qed.

Lemma drop_phase1_cells_witness :
  let t := Mat 4 [[1; 1; 1; 1]; [0; 1; 1; 1]; [0; 0; 1; 0]]%Q in
  let t2 := drop_phase1 1 1 1 t in
  t2 = Mat 3 [[1; 1; 1]; [0; 1; 1]]%Q /\
  nrows t2 = 2%nat /\ ncols t2 = 3%nat /\ rect t2 /\
  forall i, (i < 2)%nat ->
    (forall j, (j < 2)%nat -> cell t2 i j = cell t i j) /\
    rhs (nth i (rows t2) []) = rhs (nth i (rows t) []).
Proof.
  intros t t2. split; [reflexivity|].
  apply (drop_phase1_cells 1 1 1 t); [repeat constructor | reflexivity].
Defined.

(** X18.  A well-shaped problem under the default bounds is never
    rejected.  When [bounds] is absent or empty and the constraint arrays
    have [len(c)] columns and as many rows as their right-hand sides have
    entries, the solver builds the tableau and starts Phase 1 on it at
    iteration 0; the tableau has a row for each constraint plus two, and a
    cell for each variable, slack and artificial plus one; no result has
    status -1. *)
Theorem well_shaped_problem_accepted (c : list Q) (A_ub : option mat)
    (b_ub : option (list Q)) (A_eq : option mat) (b_eq : option (list Q))
    (bounds : option (list (list entry))) (maxiter : Z) (callback : bool) (tol : Q) :
  default_bounds bounds ->
  shapes_conform (length c) A_ub b_ub A_eq b_eq ->
  rect (asarray2 (length c) A_eq) -> rect (asarray2 (length c) A_ub) ->
  let out := _linprog_simplex c A_ub b_ub A_eq b_eq bounds maxiter callback tol in
  let m := (length (asarray1 b_ub) + length (asarray1 b_eq))%nat in
  exists T log,
    fst out = Invoke 1 0 T :: log /\
    nrows T = (m + 2)%nat /\
    ncols T = (length c + length (asarray1 b_ub) + m + 1)%nat /\ rect T /\
    forall res, snd out = Ok res -> res_status res <> -1.
Proof.
  intros Hb (Hce & Hne & Hcu & Hnu) Hre Hru out m.
  set (s0 := PState 0 ""%string (Arr1 (repeat (Fin 0) (length c)))
                    (Arr1 (repeat PInf (length c))) c
                    (asarray2 (length c) A_eq) (asarray1 b_eq)
                    (asarray2 (length c) A_ub) (asarray1 b_ub) 0%Q).
  assert (Ha : analyze_bounds (length c) bounds =
               Ok (0, ""%string, Arr1 (repeat (Fin 0) (length c)),
                   Arr1 (repeat PInf (length c))))
    by (destruct Hb as [-> | ->]; reflexivity).
  assert (Hn : normalize c A_ub b_ub A_eq b_eq bounds = Ok (length c, false, s0)).
  { rewrite (normalize_default _ _ _ _ _ _ _ _ Ha).
    rewrite check_shapes_conform by assumption. reflexivity. }
  assert (Hconf : conformant (length c) s0) by (repeat split; assumption).
  pose proof (build_tableau_rows _ _ Hconf) as HT. cbv zeta in HT.
  match type of HT with _ = Ok ?T0 => set (T := T0) in * end.
  destruct (tableau_shape _ _ Hconf T HT) as (H1 & H2 & H3).
  exists T. eexists. split; [|split; [exact H1|split; [exact H2|split; [exact H3|]]]].
  - unfold out, _linprog_simplex. rewrite Hn.
    erewrite (rbind_ok (lift _)) by reflexivity. cbn beta iota.
    change (st s0) with 0. cbn [Z.eqb negb]. rewrite HT.
    erewrite (rbind_ok (lift _)) by reflexivity.
    destruct (rbind_fst_ok (emit (Invoke 1 0 T))
                (fun _ => rbind (lpsimplex T (length c) (length (bub s0))
                                   (length (bub s0) + length (beq s0)) maxiter 1
                                   callback tol 0)
                            (fun r1 =>
                               let '(T2, status2, message2) :=
                                 if qltb (qabs (corner (r_tableau r1))) tol
                                 then (drop_phase1 (length c) (length (bub s0))
                                         (length (bub s0) + length (beq s0)) (r_tableau r1),
                                       r_status r1, r_message r1)
                                 else (r_tableau r1, 2, msg_infeasible) in
                               if negb (status2 =? 0)
                               then rret (MkResult (r_x r1) (qneg (corner T2)) (r_nit r1)
                                            status2 message2 false)
                               else
                                 rbind (emit (Invoke 2 (r_nit r1) T2))
                                   (fun _ =>
                                      rbind (lpsimplex T2 (length c) (length (bub s0))
                                               (length (bub s0) + length (beq s0))
                                               maxiter 2 callback tol (r_nit r1))
                                        (fun r2 =>
                                           rret (MkResult
                                                   (restore (length c) false (L s0) (r_x r2))
                                                   (qneg (corner (r_tableau r2))) (r_nit r2)
                                                   (r_status r2) (r_message r2)
                                                   (r_status r2 =? 0))))))
                [Invoke 1 0 T] tt eq_refl) as [Hf _].
    cbn [fst app]. rewrite Hf. reflexivity.
  - intros res Hres.
    destruct out as [log res'] eqn:Eo. cbn [snd] in Hres. subst res'.
    apply linprog_simplex_paths in Eo.
    destruct Eo as (n1 & fl & s & Hn' & E). rewrite Hn in Hn'.
    injection Hn' as <- <- <-.
    destruct E as [(Hst & _)|(_ & T' & log1 & r1 & _ & Hr1 & E)];
      [exfalso; apply Hst; reflexivity|].
    assert (Hs1 := f_equal snd Hr1). cbn [snd] in Hs1.
    apply lpsimplex_nit_bounds in Hs1. destruct Hs1 as [_ Hs1].
    destruct E as [(_ & _ & _ & _ & _ & Hst2)|(T2 & log2 & r2 & Hr2 & _ & ->)].
    + destruct Hst2 as [-> | ->]; [discriminate|].
      destruct Hs1 as [-> | [-> | ->]]; discriminate.
    + assert (Hs2 := f_equal snd Hr2). cbn [snd] in Hs2.
      apply lpsimplex_nit_bounds in Hs2. destruct Hs2 as [_ Hs2]. cbn.
      destruct Hs2 as [-> | [-> | ->]]; discriminate.
Qed.

Lemma well_shaped_problem_accepted_witness :
  let out := _linprog_simplex [-1; 4]%Q (Some (Mat 2 [[-3; 1]; [1; 2]]%Q))
                              (Some [6; 4]%Q) None None None 1000 false default_tol in
  exists T log,
    fst out = Invoke 1 0 T :: log /\
    nrows T = 4%nat /\ ncols T = 7%nat /\ rect T /\
    forall res, snd out = Ok res -> res_status res <> -1.
Proof.
  intro out.
  apply (well_shaped_problem_accepted [-1; 4]%Q (Some (Mat 2 [[-3; 1]; [1; 2]]%Q))
           (Some [6; 4]%Q) None None None 1000 false default_tol).
  - left. reflexivity.
  - repeat split.
  - constructor.
  - repeat constructor.
Defined.

(** ** The solution read from the final tableau *)

(** What [_get_basics] returns when it returns. *)
Lemma get_basics_reading (t : mat) (b : list nat * list Q) :
  _get_basics t = Ok b ->
  fst b = filter (is_basic t) (range (ncols t - 1)) /\
  snd b = map (basic_value t) (fst b) /\
  forall col r, (col < ncols t - 1)%nat -> unit_at t col r ->
                basic_value t col = rhs (nth r (rows t) []).
Proof.
  intro H. unfold _get_basics in H.
  pose proof (efold_get_basics_cases t (range (ncols t - 1)) ([], [])) as Hc.
  rewrite H in Hc.
  assert (Hrow : forall col r, (col < ncols t - 1)%nat -> unit_at t col r ->
                   first_nonzero (removelast (column t col)) = Ok r).
  { intros col r Hcol Hu. apply first_nonzero_unit; [exact Hu|].
    pose proof (column_length t col) as Hlen.
    destruct (Nat.eq_dec r (nrows t - 1)) as [->|Hne];
      [| destruct Hu as [Hr _]; lia].
    exfalso. apply (Hc col); [apply in_seq; lia | exact Hu]. }
  rewrite efold_get_basics in H.
  - injection H as <-. cbn [fst snd app]. split; [reflexivity|].
    split; [reflexivity|].
    intros col r Hcol Hu. unfold basic_value. now rewrite (Hrow col r Hcol Hu).
  - intros col Hcol Hb. apply in_seq in Hcol. apply is_basic_unit in Hb.
    destruct Hb as [r Hu]. exists r. apply Hrow; [lia | exact Hu].
Qed.

Lemma read_solution_cells (t : mat) (n : nat) (b : list nat * list Q) :
  _get_basics t = Ok b ->
  (forall j r, (j < n)%nat -> (j < ncols t - 1)%nat -> unit_at t j r ->
     nth j (read_solution n b) 0%Q = rhs (nth r (rows t) [])) /\
  (forall j, (j < n)%nat -> ~ (exists r, unit_at t j r) ->
     nth j (read_solution n b) 0%Q = 0%Q).
Proof.
  intro H. destruct (get_basics_reading t b H) as (Hi & Hv & Hval).
  destruct b as [idx vals]. cbn [fst snd] in *. subst vals.
  assert (Hin : forall col, In col idx <->
                  (col < ncols t - 1)%nat /\ exists r, unit_at t col r).
  { intro col. rewrite Hi. unfold range. rewrite filter_In, in_seq, is_basic_unit.
    split; intros [H1 H2]; (split; [lia | exact H2]). }
  assert (Hs : StronglySorted lt idx)
    by (rewrite Hi; apply sorted_filter, sorted_seq).
  split.
  - intros j r Hj Hcol Hu. unfold read_solution. cbn [fst snd].
    rewrite fill_solution_nth; [| exact Hs | apply repeat_length | exact Hj].
    destruct (in_dec Nat.eq_dec j idx) as [_|Hn]; [now apply Hval|].
    exfalso. apply Hn, Hin. split; [exact Hcol | now exists r].
  - intros j Hj Hn. unfold read_solution. cbn [fst snd].
    rewrite fill_solution_nth; [| exact Hs | apply repeat_length | exact Hj].
    destruct (in_dec Nat.eq_dec j idx) as [Hy|_].
    + exfalso. apply Hn. apply Hin in Hy. exact (proj2 Hy).
    + unfold zeros. apply nth_repeat.
Qed.

(** X19.  The solution [lpsimplex] returns is the reading of the tableau it
    leaves (lines 372-380): [x] has [n] entries; every column below [n] that
    is a unit column of that tableau gets the right-hand side of the row
    holding its 1, and every other entry is 0.  Two unit columns with their 1
    in the same row both get that row's right-hand side. *)
Theorem lpsimplex_solution_reading (t : mat) (n n_slack n_artificial : nat)
    (maxiter phase : Z) (callback : bool) (tol : Q) (nit0 : Z) (r : engine_result) :
  snd (lpsimplex t n n_slack n_artificial maxiter phase callback tol nit0) = Ok r ->
  length (r_x r) = n /\
  (forall j r0, (j < n)%nat -> (j < ncols (r_tableau r) - 1)%nat ->
     unit_at (r_tableau r) j r0 ->
     nth j (r_x r) 0%Q = rhs (nth r0 (rows (r_tableau r)) [])) /\
  (forall j, (j < n)%nat -> ~ (exists r0, unit_at (r_tableau r) j r0) ->
     nth j (r_x r) 0%Q = 0%Q).
Proof.
  intro H. unfold lpsimplex in H. cbv zeta in H.
  apply rbind_snd_ok in H. destruct H as (headers & _ & H).
  apply rbind_snd_ok in H. destruct H as (e & _ & H).
  assert (Hb : exists s b, _get_basics (tableau s) = Ok b /\
                 r_x r = read_solution n b /\ r_tableau r = tableau s).
  { destruct e as [s st m|s]; [|destruct (nit s >=? maxiter)];
      apply rbind_snd_ok in H; destruct H as (b & Hb & H);
      cbn in H; injection H as <-; exists s, b; auto. }
  destruct Hb as (s & b & Hb & -> & ->).
  split; [apply length_read_solution|]. apply read_solution_cells, Hb.
Qed.

(** The Phase 2 tableau of [max x + y] with [x + y <= 4]: the columns of
    [x] and [y] are the same unit column, both are read as 4, and the
    solver returns [x = [4, 4]] with status 0 and objective value -4. *)
Lemma lpsimplex_solution_reading_witness :
  let t := Mat 4 [[1; 1; 1; 4]; [0; 0; 1; 4]]%Q in
  (exists r, snd (lpsimplex t 2 1 1 1000 2 false default_tol 1) = Ok r /\
             r_status r = 0 /\ r_tableau r = t /\ r_x r = [4; 4]%Q /\
             nth 0 (r_x r) 0%Q = rhs (nth 0 (rows t) []) /\
             nth 1 (r_x r) 0%Q = rhs (nth 0 (rows t) [])) /\
  _linprog_simplex [-1; -1]%Q (Some (Mat 2 [[1; 1]]%Q)) (Some [4]%Q) None None None
                   1000 false default_tol
  = ([Invoke 1 0 (Mat 5 [[1; 1; 1; 1; 4]; [-1; -1; 0; 0; 0]; [-1; -1; -1; 0; -4]]%Q);
      Invoke 2 1 t],
     Ok (MkResult [4; 4]%Q (-4) 1 0 msg_success true)).
Proof.
  intro t. split; [|vm_compute; reflexivity].
  assert (Hu : forall j, (j < 2)%nat -> unit_at t j 0).
  { intros j Hj. split; [vm_compute; lia|]. split.
    - destruct j as [|[|j]]; [reflexivity | reflexivity | lia].
    - intros [|[|r']] Hr Hne; [congruence | | vm_compute in Hr; lia].
      destruct j as [|[|j]]; [reflexivity | reflexivity | lia]. }
  eexists. split; [vm_compute; reflexivity|].
  do 3 (split; [reflexivity|]).
  destruct (lpsimplex_solution_reading t 2 1 1 1000 2 false default_tol 1
              (EngineResult [4; 4]%Q 1 0 msg_success t)) as (_ & H & _);
    [vm_compute; reflexivity|].
  split; [exact (H 0%nat 0%nat ltac:(lia) ltac:(vm_compute; lia) (Hu 0%nat ltac:(lia)))|].
  exact (H 1%nat 0%nat ltac:(lia) ltac:(vm_compute; lia) (Hu 1%nat ltac:(lia))).
Defined.
